(** * AIFM container: converter (write path) and reader (verification)

    A shallow embedding of [src/aifm_converter.py] and [src/aifm_reader.py].

    Conventions of the embedding.
    - A Python [str] is a list of characters; a character is a code point
      below 256 (Rocq's [ascii]), on which [str.isspace], [str.lower] and
      the line boundaries of [str.splitlines] are written out in full.
    - [bytes] is a list of bytes.
    - A [pathlib.Path] is an absolute POSIX path given by its parts, as
      [parse_args] produces them with [expanduser().resolve()].
    - The file system is a finite table from paths to nodes: the paths
      that [os.stat] finds.  For any other path [stat_error] says
      whether the operating system refuses it (a name too long, a
      directory that may not be searched) or the path is just not there,
      and [write_error] says which paths it refuses to open for writing.
    - Exceptions are values of [exn]; a function that can raise returns a
      [result].
    - An archive being written is a [ZipFile], the members handed to
      [writestr] with their content.  An archive opened for reading is
      an [Archive], in which a member reads back or is damaged.  Where
      a [ZipFile] is read, it is read as the [Archive] all of whose
      members read back ([reopen], a coercion).
    - The clock read by [utc_now_iso] is an argument [now]; [utc_now_iso]
      itself is a function of the reading of the clock.
    - Library functions whose result is a matter of another specification
      (SHA-256, the JSON printer, the UTF-8 codec, the bytes of a partly
      written archive, the refusals of the operating system) are the
      fields of the class [Runtime]; those that only the reader calls
      (the JSON parser, the UTF-8 decoder, the directory of an archive
      file, the traceback of an exception) are the fields of
      [ReaderRuntime]. *)

From Stdlib Require Import Ascii String.
From Stdlib Require Import List Bool Arith NArith ZArith Lia.
From Stdlib Require Import Floats.SpecFloat.
From Stdlib Require Import Sorted Permutation.
Import ListNotations.
Local Open Scope char_scope.
Local Open Scope list_scope.

Set Implicit Arguments.
Set Warnings "-register-all".

(* ================================================================== *)
(** * Part I. Definitions                                              *)
(* ================================================================== *)

(** ** Python strings *)

(** [str] and [bytes] are lists of characters and of bytes. *)
Abbreviation str := (list ascii) (only parsing).
Abbreviation bytes := (list Byte.byte) (only parsing).

(** A string literal. *)
Definition lit (s : string) : str := list_ascii_of_string s.

(** The line feed, as a string. *)
Definition nl : str := ["010"].

Definition code (c : ascii) : N := N_of_ascii c.

Definition between (lo hi n : N) : bool := N.leb lo n && N.leb n hi.

(** [c.isspace()] for a code point below 256: TAB..CR, FS..US, SPACE,
    NEL (0x85) and NBSP (0xA0). *)
Definition isspace (c : ascii) : bool :=
  between 9 13 (code c) || between 28 32 (code c)
  || N.eqb (code c) 133 || N.eqb (code c) 160.

(** The line boundaries of [str.splitlines] below 256:
    LF, VT, FF, CR, FS, GS, RS and NEL. *)
Definition is_linebreak (c : ascii) : bool :=
  between 10 13 (code c) || between 28 30 (code c) || N.eqb (code c) 133.

(** [c.lower()] below 256: A-Z and the Latin-1 capitals 0xC0..0xDE except
    the multiplication sign 0xD7 move up by 32. *)
Definition char_lower (c : ascii) : ascii :=
  if between 65 90 (code c)
     || (between 192 222 (code c) && negb (N.eqb (code c) 215))
  then ascii_of_N (code c + 32) else c.

Definition lower (s : str) : str := map char_lower s.

Fixpoint str_eqb (a b : str) : bool :=
  match a, b with
  | [], [] => true
  | x :: a', y :: b' => Ascii.eqb x y && str_eqb a' b'
  | _, _ => false
  end.

(** [s.startswith(p)] and [s.endswith(p)]. *)
Fixpoint startswith (p s : str) : bool :=
  match p, s with
  | [], _ => true
  | _ :: _, [] => false
  | a :: p', b :: s' => Ascii.eqb a b && startswith p' s'
  end.

Definition endswith (p s : str) : bool := startswith (rev p) (rev s).

(** [sub in s]. *)
Fixpoint contains (sub s : str) : bool :=
  startswith sub s ||
  match s with
  | [] => false
  | _ :: r => contains sub r
  end.

(** Leading characters satisfying [p] removed; [rstrip_by] is the mirror. *)
Fixpoint lstrip_by (p : ascii -> bool) (s : str) : str :=
  match s with
  | [] => []
  | c :: r => if p c then lstrip_by p r else s
  end.

Definition rstrip_by (p : ascii -> bool) (s : str) : str :=
  rev (lstrip_by p (rev s)).

(** [s.strip()]. *)
Definition strip (s : str) : str := rstrip_by isspace (lstrip_by isspace s).

(** [s.lstrip(chars)]. *)
Definition lstrip_chars (chars : str) (s : str) : str :=
  lstrip_by (fun c => existsb (Ascii.eqb c) chars) s.

(** [s.replace(old, new)] for one-character [old] and [new]. *)
Definition replace_char (old new : ascii) (s : str) : str :=
  map (fun c => if Ascii.eqb c old then new else c) s.

(** [sep.join(l)]. *)
Fixpoint join (sep : str) (l : list str) : str :=
  match l with
  | [] => []
  | x :: r =>
      match r with
      | [] => x
      | _ :: _ => x ++ sep ++ join sep r
      end
  end.

(** [s.split(sep)] for a one-character separator: empty pieces are kept,
    and the empty string gives one empty piece. *)
Fixpoint split_char (sep : ascii) (s : str) : list str :=
  match s with
  | [] => [[]]
  | c :: r =>
      if Ascii.eqb c sep then [] :: split_char sep r
      else match split_char sep r with
           | [] => [[c]]
           | piece :: pieces => (c :: piece) :: pieces
           end
  end.

(** [s.split(sep, 1)]: the text before and after the first occurrence of
    [sep], or [s] alone when [sep] does not occur. *)
Fixpoint split_once (sep s : str) {struct s} : list str :=
  if startswith sep s then [[]; skipn (length sep) s]
  else match s with
       | [] => [[]]
       | c :: r =>
           match split_once sep r with
           | [] => [[c]]
           | piece :: pieces => (c :: piece) :: pieces
           end
       end.

(** [s.split()]: the maximal runs of non-whitespace characters. *)
Fixpoint split_ws (s : str) : list str :=
  match s with
  | [] => []
  | c :: r =>
      if isspace c then split_ws r
      else match r with
           | [] => [[c]]
           | c' :: _ =>
               if isspace c' then [c] :: split_ws r
               else match split_ws r with
                    | [] => [[c]]
                    | tok :: toks => (c :: tok) :: toks
                    end
           end
  end.

(** [s.splitlines()]: a CR LF pair is one boundary, and no empty line is
    reported after a final boundary. *)
Fixpoint splitlines (s : str) : list str :=
  match s with
  | [] => []
  | c :: r =>
      if is_linebreak c then
        match r with
        | c' :: r' =>
            if Ascii.eqb c "013" && Ascii.eqb c' "010"
            then [] :: splitlines r' else [] :: splitlines r
        | [] => [[]]
        end
      else match splitlines r with
           | [] => [[c]]
           | line :: lines => (c :: line) :: lines
           end
  end.

(** [s.rfind(c)]: the index of the last occurrence. *)
Fixpoint rfind (c : ascii) (s : str) : option nat :=
  match s with
  | [] => None
  | x :: r =>
      match rfind c r with
      | Some i => Some (S i)
      | None => if Ascii.eqb x c then Some 0 else None
      end
  end.

(** Lexicographic order of strings by code point, and of paths by part. *)
Definition str_compare : str -> str -> comparison := list_compare Ascii.compare.

Definition str_ltb (a b : str) : bool :=
  match str_compare a b with Lt => true | _ => false end.

(** ** [sorted(l, key=...)]: stable, ascending *)

Section Sorting.
Variables (A K : Type) (key : A -> K) (ltb : K -> K -> bool).

(** An element goes in front of the first one whose key is not smaller,
    so elements with equal keys keep the order they had. *)
Fixpoint insert_by (x : A) (l : list A) : list A :=
  match l with
  | [] => [x]
  | y :: r => if ltb (key y) (key x) then y :: insert_by x r else x :: l
  end.

Definition sorted_by (l : list A) : list A := fold_right insert_by [] l.
End Sorting.

(** ** Exceptions *)

Inductive exn : Type :=
| FileNotFoundError (msg : str)
| IsADirectoryError
| NotADirectoryError
| FileExistsError
| TypeError
| AttributeError
| ValueError
| KeyError (name : str)
| OSError (errno : N)
| BadZipFile (msg : str)
| ZlibError (msg : str)
| NotImplementedError (msg : str)
| RuntimeError (msg : str)
| EOFError.

Inductive result (A : Type) : Type :=
| Ok (a : A)
| Raise (e : exn).

Arguments Ok {A} a.
Arguments Raise {A} e.

Definition bind {A B : Type} (r : result A) (k : A -> result B) : result B :=
  match r with
  | Ok a => k a
  | Raise e => Raise e
  end.

Notation "x <- r ;; k" := (bind r (fun x => k))
  (at level 61, r at next level, right associativity).

(** A loop whose body can raise, over the items of a list. *)
Fixpoint for_each {A S : Type} (body : S -> A -> result S) (l : list A) (s : S)
  : result S :=
  match l with
  | [] => Ok s
  | x :: r => s' <- body s x ;; for_each body r s'
  end.

(** ** [posixpath] *)

Definition sep : str := lit "/".
Definition dot : str := lit ".".
Definition dotdot : str := lit "..".

(** One step of the loop of [posixpath.join]. *)
Definition join_step (path b : str) : str :=
  if startswith sep b then b
  else if (match path with [] => true | _ => false end) || endswith sep path
       then path ++ b
       else path ++ sep ++ b.

(** [posixpath.join] applied to [a] and the further parts [p]. *)
Definition posix_join (a : str) (p : list str) : str := fold_left join_step p a.

(** The number of slashes [normpath] puts back in front: two when the
    path starts with exactly two, one when it starts with any other
    positive number. *)
Definition initial_slashes (path : str) : nat :=
  if startswith sep path then
    if startswith (sep ++ sep) path && negb (startswith (sep ++ sep ++ sep) path)
    then 2 else 1
  else 0.

(** One turn of the loop of [normpath] over the components. *)
Definition normpath_step (slashes : nat) (new_comps : list str) (comp : str)
  : list str :=
  if str_eqb comp [] || str_eqb comp dot then new_comps
  else if negb (str_eqb comp dotdot)
          || (Nat.eqb slashes 0 && match new_comps with [] => true | _ => false end)
          || (match new_comps with
              | [] => false
              | _ :: _ => str_eqb (last new_comps []) dotdot
              end)
       then new_comps ++ [comp]
       else removelast new_comps.

(** [posixpath.normpath(path)]. *)
Definition normpath (path : str) : str :=
  match path with
  | [] => dot
  | _ :: _ =>
      let slashes := initial_slashes path in
      let comps := fold_left (normpath_step slashes) (split_char "/" path) [] in
      let path' := concat (repeat sep slashes) ++ join sep comps in
      match path' with
      | [] => dot
      | _ :: _ => path'
      end
  end.

(** [normalize_zip_path] applied to its parts: [posixpath.join] needs a
    first argument. *)
Definition normalize_zip_path (parts : list str) : result str :=
  match parts with
  | [] => Raise TypeError
  | a :: p => Ok (lstrip_chars sep (normpath (posix_join a p)))
  end.

(** ** [pathlib.Path] *)

Abbreviation Path := (list (list ascii)) (only parsing).

Fixpoint path_eqb (p q : Path) : bool :=
  match p, q with
  | [], [] => true
  | x :: p', y :: q' => str_eqb x y && path_eqb p' q'
  | _, _ => false
  end.

(** [str(p)]. *)
Definition path_str (p : Path) : str := sep ++ join sep p.

(** [p.name]: the last part, empty for the root. *)
Definition path_name (p : Path) : str := last p [].

(** [p.parent]. *)
Definition path_parent (p : Path) : Path := removelast p.

(** The suffix of a file name: from the last dot on, when that dot is
    neither the first nor the last character. *)
Definition name_suffix (name : str) : str :=
  match rfind "." name with
  | Some i => if Nat.ltb 0 i && Nat.ltb i (List.length name - 1)
              then skipn i name else []
  | None => []
  end.

(** [p.suffix]. *)
Definition path_suffix (p : Path) : str := name_suffix (path_name p).

(** [p.with_suffix(suffix)] for a suffix that is a dot followed by
    characters other than the separator, as [".aifm"] is. *)
Definition with_suffix (p : Path) (suffix : str) : result Path :=
  let name := path_name p in
  match name with
  | [] => Raise ValueError
  | _ :: _ =>
      let old_suffix := path_suffix p in
      let name' :=
        match old_suffix with
        | [] => name ++ suffix
        | _ :: _ => firstn (List.length name - List.length old_suffix) name ++ suffix
        end in
      Ok (removelast p ++ [name'])
  end.

(** [p.relative_to(other)], as the parts below [other]. *)
Fixpoint relative_to (p other : Path) : result Path :=
  match other, p with
  | [], _ => Ok p
  | o :: other', x :: p' =>
      if str_eqb x o then relative_to p' other' else Raise ValueError
  | _ :: _, [] => Raise ValueError
  end.

(** [str(rel)] for a relative path. *)
Definition rel_str (rel : Path) : str :=
  match rel with
  | [] => dot
  | _ :: _ => join sep rel
  end.

(** [os.sep]. *)
Definition os_sep : ascii := "/".

(** Order of paths: part by part. *)
Definition path_ltb (p q : Path) : bool :=
  match list_compare str_compare p q with Lt => true | _ => false end.

(** ** The file system *)

Inductive node : Type :=
| File (data : bytes)
| Dir.

Abbreviation filesystem := (list (list (list ascii) * node)) (only parsing).

Fixpoint fs_lookup (fs : filesystem) (p : Path) : option node :=
  match fs with
  | [] => None
  | (q, n) :: rest => if path_eqb q p then Some n else fs_lookup rest p
  end.

(** [p.is_file()]. *)
Definition is_file (fs : filesystem) (p : Path) : bool :=
  match fs_lookup fs p with Some (File _) => true | _ => false end.

(** [p.open("rb").read()]. *)
Definition read_bytes (fs : filesystem) (p : Path) : result bytes :=
  match fs_lookup fs p with
  | Some (File data) => Ok data
  | Some Dir => Raise IsADirectoryError
  | None => Raise (FileNotFoundError (path_str p))
  end.

Fixpoint is_strict_prefix (p q : Path) : bool :=
  match p, q with
  | [], _ :: _ => true
  | x :: p', y :: q' => str_eqb x y && is_strict_prefix p' q'
  | _, [] => false
  end.

(** [root.rglob("*")]: every path below [root]. *)
Definition rglob (fs : filesystem) (root : Path) : list Path :=
  filter (is_strict_prefix root) (map fst fs).

(** [iter_files_recursive(root)]. *)
Definition iter_files_recursive (fs : filesystem) (root : Path) : list Path :=
  filter (is_file fs) (sorted_by (fun p => p) path_ltb (rglob fs root)).

(** The proper ancestors of a path, the root first. *)
Definition ancestors (p : Path) : list Path :=
  map (fun n => firstn n p) (seq 0 (List.length p)).

(** [p.mkdir(parents=True, exist_ok=True)]: fails when [p] or one of its
    ancestors is a file. *)
Definition mkdir_parents (fs : filesystem) (p : Path) : result unit :=
  if existsb (is_file fs) (ancestors p) then Raise NotADirectoryError
  else if is_file fs p then Raise FileExistsError
  else Ok tt.

(** ** [zipfile] *)

Inductive compression : Type := ZIP_STORED | ZIP_DEFLATED.

Record ZipInfo : Type := {
  filename : str;
  date_time : N * N * N * N * N * N;
  compress_type : compression
}.

(** An archive open for writing: the file it lives in and its members in
    the order they were written, each with its uncompressed content. *)
Record ZipFile : Type := {
  zf_file : Path;
  filelist : list (ZipInfo * bytes)
}.

(** Why a member does not read back, as the exception that [zf.read]
    raises for it: [BadZipFile] when the header of the member does not
    fit the directory or the CRC-32 is wrong, [zlib.error] when the
    deflate stream does not decompress, [NotImplementedError] for a
    compression method the library does not have, [RuntimeError] for an
    encrypted member, [EOFError] for data that end too early. *)
Inductive damage : Type :=
| BadMember (msg : str)
| BadStream (msg : str)
| NoMethod (msg : str)
| Encrypted (msg : str)
| Truncated.

Definition damage_exn (d : damage) : exn :=
  match d with
  | BadMember msg => BadZipFile msg
  | BadStream msg => ZlibError msg
  | NoMethod msg => NotImplementedError msg
  | Encrypted msg => RuntimeError msg
  | Truncated => EOFError
  end.

(** What an archive file holds of a member: data that read back as the
    content, or data that do not read back. *)
Inductive stored : Type :=
| Intact (content : bytes)
| Damaged (d : damage).

(** An archive opened for reading: the members its directory lists, in
    the order of the directory. *)
Record Archive : Type := {
  ar_members : list (ZipInfo * stored)
}.

(** The archive that was written, opened for reading: every member
    reads back.  An archive of the converter is read as this one. *)
Definition reopen (zf : ZipFile) : Archive :=
  {| ar_members := map (fun m => (fst m, Intact (snd m))) (filelist zf) |}.

Coercion reopen : ZipFile >-> Archive.

(** [ZipInfo(arcname)] keeps the name up to its first NUL character. *)
Fixpoint until_nul (s : str) : str :=
  match s with
  | [] => []
  | c :: r => if Ascii.eqb c "000" then [] else c :: until_nul r
  end.

(** [zf.namelist()]. *)
Definition namelist (zf : Archive) : list str :=
  map (fun m => filename (fst m)) (ar_members zf).

(** [zf.read(name)]: of several members with one name the last one is
    the one the name table keeps; a name it does not have is a
    [KeyError], and damaged data raise their own exception. *)
Definition zf_read (zf : Archive) (name : str) : result bytes :=
  match find (fun m => str_eqb (filename (fst m)) name) (rev (ar_members zf)) with
  | Some (_, Intact content) => Ok content
  | Some (_, Damaged d) => Raise (damage_exn d)
  | None => Raise (KeyError name)
  end.

(** [zf.writestr(info, data)]. *)
Definition writestr (zf : ZipFile) (info : ZipInfo) (data : bytes) : ZipFile :=
  {| zf_file := zf_file zf; filelist := filelist zf ++ [(info, data)] |}.

(** ** JSON documents and Python dicts in insertion order *)

Inductive json : Type :=
| JStr (s : str)
| JBool (b : bool)
| JList (l : list json)
| JDict (d : list (str * json)).

Abbreviation dict := (list (list ascii * json)) (only parsing).

(** [d.get(k)]. *)
Fixpoint dict_get (k : str) (d : dict) : option json :=
  match d with
  | [] => None
  | (k', v) :: r => if str_eqb k' k then Some v else dict_get k r
  end.

(** [k in d]. *)
Definition has_key (k : str) (d : dict) : bool :=
  match dict_get k d with Some _ => true | None => false end.

(** [d[k] = v]: a key already present keeps its place. *)
Fixpoint dict_set (k : str) (v : json) (d : dict) : dict :=
  match d with
  | [] => [(k, v)]
  | (k', v') :: r =>
      if str_eqb k' k then (k', v) :: r else (k', v') :: dict_set k v r
  end.

(** ** Library functions taken as given *)

Class Runtime : Type := {
  (** [hashlib.sha256(data).hexdigest()] *)
  sha256_hexdigest : bytes -> str;
  (** [s.encode("utf-8")] *)
  utf8_encode : str -> bytes;
  (** [b.decode("utf-8", errors="replace")] *)
  utf8_decode_replace : bytes -> str;
  (** [json.dumps(v, indent=2, ensure_ascii=False)] *)
  json_dumps : json -> str;
  (** [str(v)] for a list or a dict *)
  container_repr : json -> str;
  (** what a reader finds in the archive file while it is being written,
      after the given members have been handed to [writestr] *)
  flushed : list (ZipInfo * bytes) -> bytes;
  (** the error number with which [os.stat] fails on a path that the file
      system does not hold, when it is another one than ENOENT, ENOTDIR,
      EBADF and ELOOP, which say that the path is not there: a name too
      long (36), a directory that may not be searched (13) *)
  stat_error : Path -> option N;
  (** the error number with which the operating system refuses to open a
      path for writing, for another reason than that the path is a
      directory: a name too long (36), a file or a directory that may not
      be written (13), a file system that is read-only (30) *)
  write_error : Path -> option N
}.

(** What is known of these functions. *)
Definition is_lower_hex (c : ascii) : bool :=
  between 48 57 (code c) || between 97 102 (code c).

Class RuntimeLaws (rt : Runtime) : Prop := {
  hexdigest_length : forall data, List.length (sha256_hexdigest data) = 64;
  hexdigest_lower_hex : forall data, forallb is_lower_hex (sha256_hexdigest data) = true;
  decode_encode : forall s, utf8_decode_replace (utf8_encode s) = s
}.

(** ** The converter: [aifm_converter.py] *)

Definition AIFX_SPEC_VERSION : str := lit "0.1".
Definition AIFX_FORMAT_VERSION : str := lit "1.0".
Definition DEFAULT_TIER : str := lit "SDA".
Definition DEFAULT_MODE : str := lit "human-directed-ai".

Record ConvertOptions : Type := {
  audio_path : Path;
  out_path : Path;
  title : str;
  description : str;
  creation_mode : str;
  tier : str;
  author : str;
  contact : str;
  ownership_claim : bool;
  ai_systems : list str;
  apps : list str;
  toolchain_notes : str;
  prompt_path : option Path;
  negative_prompt_path : option Path;
  lyrics_path : option Path;
  stems_dir : option Path;
  persona_path : option Path;
  declaration_path : option Path;
  urls : list str
}.

(** Truth value of an optional path and of a string. *)
Definition given {A : Type} (o : option A) : bool :=
  match o with Some _ => true | None => false end.

Definition or_default (s default : str) : str :=
  match s with [] => default | _ :: _ => s end.

(** [build_manifest(opts)], with the value of [utc_now_iso()]. *)
Definition build_manifest (opts : ConvertOptions) (now : str) : dict :=
  let manifest : dict :=
    [ (lit "aifx_format_version", JStr AIFX_FORMAT_VERSION);
      (lit "aifx_spec_version", JStr AIFX_SPEC_VERSION);
      (lit "format", JStr (lit "AIFM"));
      (lit "created_at", JStr now);
      (lit "title", JStr (or_default (title opts) (lit "Untitled")));
      (lit "description", JStr (or_default (description opts) []));
      (lit "creation_mode", JStr (creation_mode opts));
      (lit "human_authorship", JDict
         [ (lit "name", JStr (author opts));
           (lit "role", JStr (lit "AI Content Director"));
           (lit "ownership_claim", JBool (ownership_claim opts));
           (lit "contact", JStr (contact opts)) ]);
      (lit "ai_systems", JList
         (map (fun n => JDict [ (lit "name", JStr n);
                                (lit "role", JStr (lit "generation")) ])
              (ai_systems opts)));
      (lit "toolchain", JDict
         [ (lit "apps", JList (map JStr (apps opts)));
           (lit "notes", JStr (or_default (toolchain_notes opts) [])) ]);
      (lit "inputs", JDict
         [ (lit "prompts_included",
            JBool (given (prompt_path opts) || given (negative_prompt_path opts)));
           (lit "seeds_included", JBool false);
           (lit "source_assets_included", JBool false) ]);
      (lit "verification", JDict
         [ (lit "tier", JStr (tier opts));
           (lit "method", JStr (if str_eqb (tier opts) (lit "SDA")
                                then lit "self-declared" else lit "declared"));
           (lit "signing", JStr (lit "none")) ]);
      (lit "integrity", JDict
         [ (lit "hash_alg", JStr (lit "SHA-256"));
           (lit "checksums_ref", JStr (lit "verification/checksums.sha256")) ]) ] in
  let manifest :=
    if given (persona_path opts)
    then dict_set (lit "persona_ref") (JStr (lit "metadata/persona.txt")) manifest
    else manifest in
  let manifest :=
    if given (declaration_path opts)
    then dict_set (lit "declaration")
           (JDict [ (lit "type", JStr (lit "Creator-Declared"));
                    (lit "text_ref", JStr (lit "metadata/declaration.txt")) ])
           manifest
    else manifest in
  let manifest :=
    if given (lyrics_path opts)
    then dict_set (lit "lyrics_ref") (JStr (lit "metadata/lyrics.txt")) manifest
    else manifest in
  let manifest :=
    if given (prompt_path opts) || given (negative_prompt_path opts)
    then dict_set (lit "prompt_refs")
           (JDict [ (lit "prompt",
                     JStr (if given (prompt_path opts)
                           then lit "metadata/prompt/prompt.txt" else []));
                    (lit "negative_prompt",
                     JStr (if given (negative_prompt_path opts)
                           then lit "metadata/prompt/negative_prompt.txt" else [])) ])
           manifest
    else manifest in
  let manifest :=
    dict_set (lit "stems_included") (JBool (given (stems_dir opts))) manifest in
  let manifest :=
    match urls opts with
    | [] => manifest
    | _ :: _ =>
        dict_set (lit "public_attestation")
          (JDict [ (lit "urls", JList (map JStr (urls opts)));
                   (lit "notes", JStr []) ])
          manifest
    end in
  manifest.

Section Converter.
Context {rt : Runtime}.

(** [p.exists()]: whether [os.stat] finds the path.  The file system
    holds the paths it finds; when it fails on another path, an error
    that does not say that the path is not there is raised, as
    [pathlib] does. *)
Definition exists_ (fs : filesystem) (p : Path) : result bool :=
  match fs_lookup fs p with
  | Some _ => Ok true
  | None =>
      match stat_error p with
      | Some errno => Raise (OSError errno)
      | None => Ok false
      end
  end.

(** Opening [p] for writing: fails on a directory, and on a path that
    the operating system refuses to open. *)
Definition open_for_write (fs : filesystem) (p : Path) : result unit :=
  match fs_lookup fs p with
  | Some Dir => Raise IsADirectoryError
  | Some (File _) | None =>
      match write_error p with
      | Some errno => Raise (OSError errno)
      | None => Ok tt
      end
  end.

(** [sha256_file(path)]: the chunks read are fed to one hash object, so
    the digest is that of the whole content. *)
Definition sha256_file (fs : filesystem) (path : Path) : result str :=
  data <- read_bytes fs path ;;
  Ok (sha256_hexdigest data).

(** A value as an f-string replacement field prints it. *)
Definition format_value (v : json) : str :=
  match v with
  | JStr s => s
  | JBool true => lit "True"
  | JBool false => lit "False"
  | JList _ | JDict _ => container_repr v
  end.

(** The [ZipInfo] both writers build: the name, the pinned time stamp
    and the compression method. *)
Definition member_info (arcname : str) : ZipInfo :=
  {| filename := until_nul arcname;
     date_time := (1980, 1, 1, 0, 0, 0)%N;
     compress_type := ZIP_DEFLATED |}.

(** [zip_write_bytes(zf, arcname, data)]. *)
Definition zip_write_bytes (zf : ZipFile) (arcname : str) (data : bytes)
  : ZipFile :=
  writestr zf (member_info arcname) data.

(** Reading a source while the archive [zf] is open for writing: the
    archive file itself holds what has reached it so far. *)
Definition read_source (fs : filesystem) (zf : ZipFile) (src_path : Path)
  : result bytes :=
  if path_eqb src_path (zf_file zf) then Ok (flushed (filelist zf))
  else read_bytes fs src_path.

(** [zip_write_file(zf, arcname, src_path)]. *)
Definition zip_write_file (fs : filesystem) (zf : ZipFile) (arcname : str)
  (src_path : Path) : result ZipFile :=
  data <- read_source fs zf src_path ;;
  Ok (writestr zf (member_info arcname) data).

(** The lines of the ledger, one per entry in the order given. *)
Definition checksum_line (fs : filesystem) (lines : list str)
  (entry : str * Path) : result (list str) :=
  let (zip_path, local_path) := entry in
  digest <- sha256_file fs local_path ;;
  Ok (lines ++ [digest ++ lit "  " ++ zip_path]).

(** [make_checksums_payload_only(payload_entries)]. *)
Definition make_checksums_payload_only (fs : filesystem)
  (payload_entries : list (str * Path)) : result str :=
  lines <- for_each (checksum_line fs)
             (sorted_by fst str_ltb payload_entries) [] ;;
  Ok (join nl lines ++ nl).

(** [build_readme(manifest)]. *)
Definition build_readme (manifest : dict) : result str :=
  verification <-
    match dict_get (lit "verification") manifest with
    | None => Ok []
    | Some (JDict d) => Ok d
    | Some _ => Raise AttributeError
    end ;;
  let tier := match dict_get (lit "tier") verification with
              | Some v => v | None => JStr (lit "SDA") end in
  let title := match dict_get (lit "title") manifest with
               | Some v => v | None => JStr (lit "Untitled") end in
  let created_at := match dict_get (lit "created_at") manifest with
                    | Some v => v | None => JStr [] end in
  Ok (lit "AIFX Container (AIFM)" ++ nl
      ++ lit "-------------------" ++ nl
      ++ lit "Title: " ++ format_value title ++ nl
      ++ lit "Created At (UTC): " ++ format_value created_at ++ nl
      ++ lit "Verification Tier: " ++ format_value tier ++ nl ++ nl
      ++ lit "This container is a ZIP-based AIFX format." ++ nl
      ++ lit "Authoritative metadata is in: metadata/manifest.json" ++ nl
      ++ lit "Integrity hashes are in: verification/checksums.sha256" ++ nl
      ++ lit "This README is non-authoritative." ++ nl).

(** The checks at the head of [convert_aifm]. *)
Definition check_exists (fs : filesystem) (what : str) (p : option Path)
  : result unit :=
  match p with
  | Some q => found <- exists_ fs q ;;
              if found then Ok tt
              else Raise (FileNotFoundError (what ++ path_str q))
  | None => Ok tt
  end.

(** The output path: [out_path], with its suffix set to [.aifm] unless
    it has that suffix already in some letter case. *)
Definition output_path (out : Path) : result Path :=
  if negb (str_eqb (lower (path_suffix out)) (lit ".aifm"))
  then with_suffix out (lit ".aifm")
  else Ok out.

(** The archive path of the primary audio. *)
Definition audio_zip_path_of (audio : Path) : result str :=
  let audio_ext :=
    or_default (lstrip_chars dot (lower (path_suffix audio))) (lit "wav") in
  normalize_zip_path [lit "payload"; lit "audio"; lit "main." ++ audio_ext].

(** The body of the loop over the stem files. *)
Definition stem_entry (root : Path) (stems_files : list (str * Path))
  (f : Path) : result (list (str * Path)) :=
  rel <- relative_to f root ;;
  zip_path <- normalize_zip_path
                [lit "payload"; lit "stems";
                 replace_char os_sep "/" (rel_str rel)] ;;
  Ok (stems_files ++ [(zip_path, f)]).

Definition stems_files_of (fs : filesystem) (stems : option Path)
  : result (list (str * Path)) :=
  match stems with
  | Some root => for_each (stem_entry root) (iter_files_recursive fs root) []
  | None => Ok []
  end.

(** An optional text asset goes in at its fixed path. *)
Definition write_optional (fs : filesystem) (zf : ZipFile)
  (parts : list str) (p : option Path) : result ZipFile :=
  match p with
  | Some src => arcname <- normalize_zip_path parts ;;
                zip_write_file fs zf arcname src
  | None => Ok zf
  end.

(** The body of the [with zipfile.ZipFile(...)] block of
    [convert_aifm]. *)
Definition write_members (fs : filesystem) (opts : ConvertOptions)
  (zf : ZipFile) (audio_zip_path : str) (stems_files : list (str * Path))
  (manifest_bytes checksums_bytes readme_bytes : bytes) : result ZipFile :=
  zf <- zip_write_file fs zf audio_zip_path (audio_path opts) ;;
  zf <- for_each (fun zf entry => zip_write_file fs zf (fst entry) (snd entry))
          (sorted_by fst str_ltb stems_files) zf ;;
  manifest_name <- normalize_zip_path [lit "metadata"; lit "manifest.json"] ;;
  let zf := zip_write_bytes zf manifest_name manifest_bytes in
  zf <- write_optional fs zf
          [lit "metadata"; lit "prompt"; lit "prompt.txt"] (prompt_path opts) ;;
  zf <- write_optional fs zf
          [lit "metadata"; lit "prompt"; lit "negative_prompt.txt"]
          (negative_prompt_path opts) ;;
  zf <- write_optional fs zf
          [lit "metadata"; lit "lyrics.txt"] (lyrics_path opts) ;;
  zf <- write_optional fs zf
          [lit "metadata"; lit "persona.txt"] (persona_path opts) ;;
  zf <- write_optional fs zf
          [lit "metadata"; lit "declaration.txt"] (declaration_path opts) ;;
  ledger_name <- normalize_zip_path [lit "verification"; lit "checksums.sha256"] ;;
  let zf := zip_write_bytes zf ledger_name checksums_bytes in
  let zf := zip_write_bytes zf (lit "README.txt") readme_bytes in
  Ok zf.

(** The checks of [convert_aifm] that its inputs exist.  [is_file] is
    asked of the audio only after [exists] has found it. *)
Definition check_inputs (fs : filesystem) (opts : ConvertOptions) : result unit :=
  let audio := audio_path opts in
  found <- exists_ fs audio ;;
  _ <- (if negb found || negb (is_file fs audio)
        then Raise (FileNotFoundError (lit "Audio file not found: " ++ path_str audio))
        else Ok tt) ;;
  _ <- check_exists fs (lit "Stems directory not found: ") (stems_dir opts) ;;
  _ <- check_exists fs (lit "Persona file not found: ") (persona_path opts) ;;
  _ <- check_exists fs (lit "Declaration file not found: ") (declaration_path opts) ;;
  _ <- check_exists fs (lit "Prompt file not found: ") (prompt_path opts) ;;
  _ <- check_exists fs (lit "Negative prompt file not found: ")
         (negative_prompt_path opts) ;;
  check_exists fs (lit "Lyrics file not found: ") (lyrics_path opts).

(** [convert_aifm(opts)]: the archive written, in the file named by
    its [zf_file].  What the function prints is left out. *)
Definition convert_aifm (fs : filesystem) (opts : ConvertOptions) (now : str)
  : result ZipFile :=
  let audio := audio_path opts in
  _ <- check_inputs fs opts ;;
  out <- output_path (out_path opts) ;;
  audio_zip_path <- audio_zip_path_of audio ;;
  stems_files <- stems_files_of fs (stems_dir opts) ;;
  let payload_entries := (audio_zip_path, audio) :: stems_files in
  let manifest := build_manifest opts now in
  let manifest_bytes := utf8_encode (json_dumps (JDict manifest)) in
  checksums <- make_checksums_payload_only fs payload_entries ;;
  let checksums_bytes := utf8_encode checksums in
  readme <- build_readme manifest ;;
  let readme_bytes := utf8_encode readme in
  _ <- mkdir_parents fs (path_parent out) ;;
  _ <- open_for_write fs out ;;
  let zf := {| zf_file := out; filelist := [] |} in
  write_members fs opts zf audio_zip_path stems_files
    manifest_bytes checksums_bytes readme_bytes.

(** ** The reader: [aifm_reader.py] *)

(** [sha256_bytes(data)]. *)
Definition sha256_bytes (data : bytes) : str := sha256_hexdigest data.

(** The body of the loop of [parse_sha256sum] over the lines. *)
Definition parse_line (entries : list (str * str)) (line : str)
  : result (list (str * str)) :=
  let line := strip line in
  match line with
  | [] => Ok entries
  | _ :: _ =>
      if contains (lit "  ") line then
        match split_once (lit "  ") line with
        | [h; p] => Ok (entries ++ [(strip h, strip p)])
        | _ => Raise ValueError
        end
      else
        match split_ws line with
        | h :: p :: _ => Ok (entries ++ [(h, p)])
        | _ => Ok entries
        end
  end.

(** [parse_sha256sum(text)]. *)
Definition parse_sha256sum (text : str) : result (list (str * str)) :=
  for_each parse_line (splitlines text) [].

Definition missing_message (zip_path : str) : str :=
  lit "Missing payload file listed in checksums: " ++ zip_path.

Definition mismatch_message (zip_path expected_hash actual_hash : str) : str :=
  lit "Hash mismatch: " ++ zip_path ++ nl
  ++ lit "  expected: " ++ expected_hash ++ nl
  ++ lit "  actual:   " ++ actual_hash.

(** The body of the loop of [verify_payload_checksums]: a [KeyError] of
    [zf.read] is caught, any other exception leaves the loop. *)
Definition verify_entry (zf : Archive) (errors : list str)
  (entry : str * str) : result (list str) :=
  let (expected_hash, zip_path) := entry in
  match zf_read zf zip_path with
  | Raise (KeyError _) => Ok (errors ++ [missing_message zip_path])
  | Raise e => Raise e
  | Ok data =>
      let actual_hash := sha256_bytes data in
      if negb (str_eqb (lower actual_hash) (lower expected_hash))
      then Ok (errors ++ [mismatch_message zip_path expected_hash actual_hash])
      else Ok errors
  end.

(** [verify_payload_checksums(zf)]. *)
Definition verify_payload_checksums (zf : Archive) : result (list str) :=
  data <- zf_read zf (lit "verification/checksums.sha256") ;;
  let checksum_text := utf8_decode_replace data in
  entries <- parse_sha256sum checksum_text ;;
  for_each (verify_entry zf) entries [].

End Converter.

(** ** A runtime to evaluate the model with

    The theorems hold for every [Runtime]; to run the model on a concrete
    input some runtime has to be fixed.  This one has a 64-digit
    checksum in place of SHA-256, UTF-8 restricted to code points below
    256, a JSON printer without indentation or escapes, and an operating
    system that refuses names of more than 255 characters. *)

Definition hex_digit (n : N) : ascii :=
  nth (N.to_nat n) (lit "0123456789abcdef") "0".

Fixpoint hex_digits (len : nat) (n : N) : str :=
  match len with
  | O => []
  | S k => hex_digits k (n / 16) ++ [hex_digit (n mod 16)]
  end.

Definition sample_hexdigest (data : bytes) : str :=
  hex_digits 64 (fold_left (fun acc b => (acc * 257 + Byte.to_N b + 1)%N) data 0%N).

Definition byte_of_code (n : N) : Byte.byte := byte_of_ascii (ascii_of_N n).

Definition sample_encode (s : str) : bytes :=
  flat_map (fun c => if N.ltb (code c) 128 then [byte_of_code (code c)]
                     else [byte_of_code (192 + code c / 64);
                           byte_of_code (128 + code c mod 64)]) s.

Fixpoint sample_decode (b : bytes) : str :=
  match b with
  | [] => []
  | x :: r =>
      let n := Byte.to_N x in
      if N.ltb n 128 then ascii_of_N n :: sample_decode r
      else match r with
           | y :: r' =>
               let m := Byte.to_N y in
               if between 194 195 n && between 128 191 m
               then ascii_of_N ((n - 192) * 64 + (m - 128)) :: sample_decode r'
               else "?" :: sample_decode r
           | [] => ["?"]
           end
  end.

Fixpoint sample_dumps (v : json) : str :=
  match v with
  | JStr s => lit "'" ++ s ++ lit "'"
  | JBool true => lit "true"
  | JBool false => lit "false"
  | JList l => lit "[" ++ join (lit ", ") (map sample_dumps l) ++ lit "]"
  | JDict d =>
      lit "{" ++ join (lit ", ")
                   (map (fun kv : str * json => let (k, x) := kv in
                                   lit "'" ++ k ++ lit "': " ++ sample_dumps x) d)
      ++ lit "}"
  end.

(** A name of more than 255 characters is too long (ENAMETOOLONG), for
    [os.stat] and for opening a file alike. *)
Definition sample_stat_error (p : Path) : option N :=
  if existsb (fun name => Nat.ltb 255 (List.length name)) p then Some 36%N
  else None.

#[export] Instance sample_runtime : Runtime := {
  sha256_hexdigest := sample_hexdigest;
  utf8_encode := sample_encode;
  utf8_decode_replace := sample_decode;
  json_dumps := sample_dumps;
  container_repr := sample_dumps;
  flushed := fun _ => [];
  stat_error := sample_stat_error;
  write_error := sample_stat_error
}.

(** ** Sample inputs *)

Definition ascii_bytes (s : string) : bytes := map byte_of_ascii (lit s).

Definition sample_now : str := lit "2026-01-01T00:00:00Z".

Definition sample_later : str := lit "2026-01-01T00:00:01Z".

(** A music directory with a song (and a copy whose extension ends in a
    space) and a directory of stems. *)
Definition sample_fs : filesystem :=
  [ ([], Dir);
    ([lit "m"], Dir);
    ([lit "m"; lit "song.wav"], File (ascii_bytes "RIFF"));
    ([lit "m"; lit "song.wav "], File (ascii_bytes "RIFF"));
    ([lit "m"; lit "prompt.txt"], File (ascii_bytes "a calm tune"));
    ([lit "m"; lit "stems"], Dir);
    ([lit "m"; lit "stems"; lit "vocals.wav"], File (ascii_bytes "vv"));
    ([lit "m"; lit "stems"; lit "drums.wav"], File (ascii_bytes "dd")) ].

(** Options with the audio and the output path only. *)
Definition sample_opts (audio out : Path) : ConvertOptions := {|
  audio_path := audio;
  out_path := out;
  title := lit "Test";
  description := [];
  creation_mode := DEFAULT_MODE;
  tier := DEFAULT_TIER;
  author := lit "A. Author";
  contact := [];
  ownership_claim := true;
  ai_systems := [];
  apps := [];
  toolchain_notes := [];
  prompt_path := None;
  negative_prompt_path := None;
  lyrics_path := None;
  stems_dir := None;
  persona_path := None;
  declaration_path := None;
  urls := []
|}.

(** The same with the stems directory. *)
Definition sample_opts_stems (audio out stems : Path) : ConvertOptions := {|
  audio_path := audio;
  out_path := out;
  title := lit "Test";
  description := [];
  creation_mode := DEFAULT_MODE;
  tier := DEFAULT_TIER;
  author := lit "A. Author";
  contact := [];
  ownership_claim := true;
  ai_systems := [];
  apps := [];
  toolchain_notes := [];
  prompt_path := None;
  negative_prompt_path := None;
  lyrics_path := None;
  stems_dir := Some stems;
  persona_path := None;
  declaration_path := None;
  urls := []
|}.

(** ** Notions used to state the properties *)

(** Text without a slash and without a NUL character. *)
Definition plain (s : str) : bool :=
  forallb (fun c => negb (Ascii.eqb c "/") && negb (Ascii.eqb c "000")) s.

(** A name a directory entry can have. *)
Definition valid_name (n : str) : bool :=
  negb (str_eqb n []) && negb (str_eqb n dot) && negb (str_eqb n dotdot)
  && plain n.

(** A file system lists a path once, and its paths are made of names. *)
Definition wf_fs (fs : filesystem) : Prop :=
  NoDup (map fst fs) /\ Forall (fun p => forallb valid_name p = true) (map fst fs).

(** [s.find(sub)]: where [sub] first occurs. *)
Fixpoint find_sub (sub s : str) : option nat :=
  if startswith sub s then Some O
  else match s with
       | [] => None
       | _ :: r => option_map S (find_sub sub r)
       end.

(** The entry a ledger line stands for: the line is stripped; blank, it
    stands for nothing; with two consecutive spaces in it, for the text
    before the first such pair and the text after it, both stripped;
    otherwise for its first two whitespace-separated tokens, if it has
    two. *)
Definition ledger_line_entry (line : str) : list (str * str) :=
  let l := strip line in
  match l with
  | [] => []
  | _ :: _ =>
      match find_sub (lit "  ") l with
      | Some i => [(strip (firstn i l), strip (skipn (i + 2) l))]
      | None =>
          match split_ws l with
          | h :: p :: _ => [(h, p)]
          | _ => []
          end
      end
  end.

(** The same with the split at the first run of two or more whitespace
    characters of any kind. *)
Fixpoint split_at_space_run (s : str) : option (str * str) :=
  match s with
  | [] => None
  | c :: r =>
      match r with
      | [] => None
      | c' :: _ =>
          if isspace c && isspace c' then Some ([], lstrip_by isspace r)
          else match split_at_space_run r with
               | Some (h, p) => Some (c :: h, p)
               | None => None
               end
      end
  end.

Definition ledger_line_entry_by_space_run (line : str) : list (str * str) :=
  let l := strip line in
  match l with
  | [] => []
  | _ :: _ =>
      match split_at_space_run l with
      | Some (h, p) => [(h, p)]
      | None =>
          match split_ws l with
          | h :: p :: _ => [(h, p)]
          | _ => []
          end
      end
  end.

(** What one ledger entry contributes to the result of verification of
    an archive that was written, where a read fails only for a name the
    archive lacks. *)
Definition discrepancy `{Runtime} (zf : ZipFile) (entry : str * str) : list str :=
  let (expected_hash, zip_path) := entry in
  match zf_read zf zip_path with
  | Raise _ => [missing_message zip_path]
  | Ok data =>
      if str_eqb (lower (sha256_hexdigest data)) (lower expected_hash) then []
      else [mismatch_message zip_path expected_hash (sha256_hexdigest data)]
  end.

(** The path with an extension put after its last part. *)
Definition append_extension (p : Path) (ext : str) : Path :=
  path_parent p ++ [path_name p ++ ext].

(** A file name without its suffix. *)
Definition name_stem (name : str) : str :=
  firstn (List.length name - List.length (name_suffix name)) name.

(** A segment of a normalized relative path. *)
Definition proper_segment (c : str) : Prop :=
  c <> [] /\ c <> dot /\ c <> dotdot /\ ~ In "/" c.

(** The segments of an archive path. *)
Definition segments (r : str) : list str := split_char "/" r.

(** The text assets read after the manifest has been written. *)
Definition text_sources (opts : ConvertOptions) : list (option Path) :=
  [prompt_path opts; negative_prompt_path opts; lyrics_path opts;
   persona_path opts; declaration_path opts].

Definition pinned_date_time : N * N * N * N * N * N := (1980, 1, 1, 0, 0, 0)%N.

(** Conditions on ledger entries under which rendering and parsing agree. *)
Definition no_space (s : str) : bool := forallb (fun c => negb (isspace c)) s.

Definition digest_ok (d : str) : bool :=
  negb (str_eqb d []) && no_space d.

Definition no_outer_space (p : str) : bool :=
  match p with
  | [] => false
  | c :: _ => negb (isspace c) && negb (isspace (last p c))
  end.

(** No line feed, the one character the writer ends a line with. *)
Definition no_newline (p : str) : bool :=
  forallb (fun c => negb (Ascii.eqb c "010")) p.

(** No line boundary of [splitlines]. *)
Definition no_linebreak (p : str) : bool :=
  forallb (fun c => negb (is_linebreak c)) p.

Definition path_ok_claimed (p : str) : bool := no_outer_space p && no_newline p.

Definition path_ok (p : str) : bool := no_outer_space p && no_linebreak p.

(** The prompt references as a record in which a reference is present
    exactly when its own path was given. *)
Definition prompt_refs_exact (opts : ConvertOptions) (manifest : dict) : Prop :=
  forall refs, dict_get (lit "prompt_refs") manifest = Some (JDict refs) ->
    has_key (lit "prompt") refs = given (prompt_path opts)
    /\ has_key (lit "negative_prompt") refs = given (negative_prompt_path opts).

(** Options with a prompt and no negative prompt. *)
Definition prompt_only_opts : ConvertOptions := {|
  audio_path := [lit "m"; lit "song.wav"];
  out_path := [lit "m"; lit "song.aifm"];
  title := lit "Test";
  description := [];
  creation_mode := DEFAULT_MODE;
  tier := DEFAULT_TIER;
  author := lit "A. Author";
  contact := [];
  ownership_claim := true;
  ai_systems := [];
  apps := [];
  toolchain_notes := [];
  prompt_path := Some [lit "m"; lit "prompt.txt"];
  negative_prompt_path := None;
  lyrics_path := None;
  stems_dir := None;
  persona_path := None;
  declaration_path := None;
  urls := []
|}.

(** The names of the optional text members, in the order written. *)
Definition optional_names (opts : ConvertOptions) : list str :=
  (if given (prompt_path opts) then [lit "metadata/prompt/prompt.txt"] else [])
  ++ (if given (negative_prompt_path opts)
      then [lit "metadata/prompt/negative_prompt.txt"] else [])
  ++ (if given (lyrics_path opts) then [lit "metadata/lyrics.txt"] else [])
  ++ (if given (persona_path opts) then [lit "metadata/persona.txt"] else [])
  ++ (if given (declaration_path opts) then [lit "metadata/declaration.txt"] else []).

(** Ledger entries as (archive path, digest) pairs: [renders fs e x]
    when the payload entry [e] has the path of [x] and its file hashes
    to the digest of [x]; [rendered_line x] is the line written for it. *)
Definition renders `{Runtime} (fs : filesystem) (e : str * Path) (x : str * str)
  : Prop :=
  fst e = fst x /\ sha256_file fs (snd e) = Ok (snd x).

Definition rendered_line (x : str * str) : str := snd x ++ lit "  " ++ fst x.

Definition swap (x : str * str) : str * str := (snd x, fst x).


(** The shape of the component stack of [normpath]: a run of [..], which
    is empty for an absolute path and otherwise there only when [D]
    holds, and then proper segments. *)
Definition normal_form (slashes : nat) (D : Prop) (new_comps : list str) : Prop :=
  exists k rest,
    new_comps = repeat dotdot k ++ rest
    /\ Forall proper_segment rest
    /\ (0 < k -> slashes = 0 /\ D).

(** The archive path of a stem file found below [root]. *)
Definition stem_zip_path (root f : Path) : str :=
  lit "payload/stems/" ++ join sep (skipn (List.length root) f).

(** Pairwise distinct strings. *)
Fixpoint distinct (l : list str) : bool :=
  match l with
  | [] => true
  | x :: r => negb (existsb (str_eqb x) r) && distinct r
  end.

(** The names of the members that are not payload. *)
Definition fixed_names (opts : ConvertOptions) : list str :=
  lit "metadata/manifest.json"
  :: optional_names opts
  ++ [lit "verification/checksums.sha256"; lit "README.txt"].

(** The text of the README for a title, a time stamp and a tier. *)
Definition readme_text (title created_at tier : str) : str :=
  lit "AIFX Container (AIFM)" ++ nl
  ++ lit "-------------------" ++ nl
  ++ lit "Title: " ++ title ++ nl
  ++ lit "Created At (UTC): " ++ created_at ++ nl
  ++ lit "Verification Tier: " ++ tier ++ nl ++ nl
  ++ lit "This container is a ZIP-based AIFX format." ++ nl
  ++ lit "Authoritative metadata is in: metadata/manifest.json" ++ nl
  ++ lit "Integrity hashes are in: verification/checksums.sha256" ++ nl
  ++ lit "This README is non-authoritative." ++ nl.

(** A member carries the pinned time stamp. *)
Definition pinned (m : ZipInfo * bytes) : Prop :=
  date_time (fst m) = pinned_date_time.

(** The member [m] was written for the payload entry [e] into the
    archive file [out]: it has the entry's name, and its content is what
    reading the entry's source gave at that moment. *)
Definition written `{Runtime} (fs : filesystem) (out : Path)
  (e : str * Path) (m : ZipInfo * bytes) : Prop :=
  fst m = member_info (fst e)
  /\ exists l, read_source fs {| zf_file := out; filelist := l |} (snd e)
               = Ok (snd m).

(** The files whose content goes into the payload. *)
Definition payload_sources (fs : filesystem) (opts : ConvertOptions) : list Path :=
  audio_path opts
  :: match stems_dir opts with
     | Some root => iter_files_recursive fs root
     | None => []
     end.

(** The digest of a file, for a path that names one. *)
Definition file_digest `{Runtime} (fs : filesystem) (p : Path) : str :=
  match read_bytes fs p with
  | Ok data => sha256_hexdigest data
  | Raise _ => []
  end.

(** ** Notions for the properties of the write path as a whole *)

(** The optional inputs [convert_aifm] checks after the audio, each with
    the head of its error message, in the order of the checks. *)
Definition checked_inputs (opts : ConvertOptions) : list (str * option Path) :=
  [ (lit "Stems directory not found: ", stems_dir opts);
    (lit "Persona file not found: ", persona_path opts);
    (lit "Declaration file not found: ", declaration_path opts);
    (lit "Prompt file not found: ", prompt_path opts);
    (lit "Negative prompt file not found: ", negative_prompt_path opts);
    (lit "Lyrics file not found: ", lyrics_path opts) ].

(** What the operating system answers for a path: the node it finds,
    the error with which it refuses the path, or that the path is not
    there. *)
Inductive answer : Type :=
| Found (n : node)
| Refused (errno : N)
| Absent.

(** The answer for a path: the file system holds the paths that are
    found, and [stat_error] tells a refusal from an absence. *)
Definition stat_answer `{Runtime} (fs : filesystem) (p : Path) : answer :=
  match fs_lookup fs p with
  | Some n => Found n
  | None => match stat_error p with Some errno => Refused errno | None => Absent end
  end.

(** The exception for the first of them that was given and is not found:
    the error of the operating system when it refuses the path, and
    [FileNotFoundError] with the message when the path is not there. *)
Fixpoint first_missing `{Runtime} (fs : filesystem) (l : list (str * option Path))
  : option exn :=
  match l with
  | [] => None
  | (what, Some q) :: r =>
      match stat_answer fs q with
      | Found _ => first_missing fs r
      | Refused errno => Some (OSError errno)
      | Absent => Some (FileNotFoundError (what ++ path_str q))
      end
  | (_, None) :: r => first_missing fs r
  end.

(** The exception of the first check that fails, the audio first. *)
Definition input_error `{Runtime} (fs : filesystem) (opts : ConvertOptions)
  : option exn :=
  match stat_answer fs (audio_path opts) with
  | Found (File _) => first_missing fs (checked_inputs opts)
  | Refused errno => Some (OSError errno)
  | Found Dir | Absent =>
      Some (FileNotFoundError
              (lit "Audio file not found: " ++ path_str (audio_path opts)))
  end.

(** What a conversion to the archive file [out] needs: the audio is a
    regular file, the stems directory is there, every text asset given
    is a regular file, no prefix of the directory of [out] is a regular
    file, and [out] is not a directory. *)
Definition convertible (fs : filesystem) (opts : ConvertOptions) (out : Path)
  : Prop :=
  is_file fs (audio_path opts) = true
  /\ (forall root, stems_dir opts = Some root -> fs_lookup fs root <> None)
  /\ (forall p, In (Some p) (text_sources opts) -> is_file fs p = true)
  /\ (forall n, is_file fs (firstn n (path_parent out)) = false)
  /\ fs_lookup fs out <> Some Dir.

(** The text assets given, each with the archive path it is written at,
    in the order written. *)
Definition optional_entries (opts : ConvertOptions) : list (str * Path) :=
  (match prompt_path opts with
   | Some p => [(lit "metadata/prompt/prompt.txt", p)] | None => [] end)
  ++ (match negative_prompt_path opts with
      | Some p => [(lit "metadata/prompt/negative_prompt.txt", p)] | None => [] end)
  ++ (match lyrics_path opts with
      | Some p => [(lit "metadata/lyrics.txt", p)] | None => [] end)
  ++ (match persona_path opts with
      | Some p => [(lit "metadata/persona.txt", p)] | None => [] end)
  ++ (match declaration_path opts with
      | Some p => [(lit "metadata/declaration.txt", p)] | None => [] end).

(** The stem files found, each with its archive path. *)
Definition stems_entries (fs : filesystem) (opts : ConvertOptions)
  : list (str * Path) :=
  match stems_dir opts with
  | Some root => map (fun f => (stem_zip_path root f, f)) (iter_files_recursive fs root)
  | None => []
  end.

(** Options with the audio, the output path and two text assets. *)
Definition sample_opts_texts (audio out : Path) (persona lyrics : option Path)
  : ConvertOptions := {|
  audio_path := audio;
  out_path := out;
  title := lit "Test";
  description := [];
  creation_mode := DEFAULT_MODE;
  tier := DEFAULT_TIER;
  author := lit "A. Author";
  contact := [];
  ownership_claim := true;
  ai_systems := [];
  apps := [];
  toolchain_notes := [];
  prompt_path := None;
  negative_prompt_path := None;
  lyrics_path := lyrics;
  stems_dir := None;
  persona_path := persona;
  declaration_path := None;
  urls := []
|}.

(** The ledger line of a member of an archive: the digest of its
    content, two spaces, its name. *)
Definition member_line `{Runtime} (m : ZipInfo * bytes) : str :=
  sha256_hexdigest (snd m) ++ lit "  " ++ filename (fst m).

(** The members below [payload/]. *)
Definition is_payload (m : ZipInfo * bytes) : bool :=
  startswith (lit "payload/") (filename (fst m)).

(** The ledger computed from the archive itself: a line for each member
    below [payload/], in the order of the archive. *)
Definition ledger_of `{Runtime} (zf : ZipFile) : str :=
  join nl (map member_line (filter is_payload (filelist zf))) ++ nl.

(** ** The reader's other functions *)

(** [read_optional_text(zf, path)]: a [KeyError] gives the empty string;
    any other exception is passed on. *)
Definition read_optional_text `{Runtime} (zf : Archive) (path : str) : result str :=
  match zf_read zf path with
  | Ok data => Ok (utf8_decode_replace data)
  | Raise (KeyError _) => Ok []
  | Raise e => Raise e
  end.

(** The keys every manifest has, in the order [build_manifest] puts
    them, and the keys of the optional references. *)
Definition core_keys : list str :=
  [ lit "aifx_format_version"; lit "aifx_spec_version"; lit "format";
    lit "created_at"; lit "title"; lit "description"; lit "creation_mode";
    lit "human_authorship"; lit "ai_systems"; lit "toolchain"; lit "inputs";
    lit "verification"; lit "integrity" ].

Definition reference_keys (opts : ConvertOptions) : list str :=
  (if given (persona_path opts) then [lit "persona_ref"] else [])
  ++ (if given (declaration_path opts) then [lit "declaration"] else [])
  ++ (if given (lyrics_path opts) then [lit "lyrics_ref"] else [])
  ++ (if given (prompt_path opts) || given (negative_prompt_path opts)
      then [lit "prompt_refs"] else []).

(** [p <= q] for paths, part by part. *)
Definition path_le (p q : Path) : Prop := list_compare str_compare p q <> Gt.

(** What [json.loads] can give: [None], a truth value, an [int], a
    [float], a string, a list, or a dict in the order of its keys. *)
Inductive value : Type :=
| VNone
| VBool (b : bool)
| VInt (n : Z)
| VFloat (x : spec_float)
| VStr (s : str)
| VList (l : list value)
| VDict (d : list (str * value)).

(** A document of the converter as the value it stands for. *)
Fixpoint of_json (v : json) : value :=
  match v with
  | JStr s => VStr s
  | JBool b => VBool b
  | JList l => VList (map of_json l)
  | JDict d => VDict (map (fun kv : str * json => let (k, x) := kv in (k, of_json x)) d)
  end.




(** Library functions the reader alone uses.  [UnicodeDecodeError] and
    [JSONDecodeError] are kinds of [ValueError].  [zip_open] gives the
    members the directory of an archive file lists, each with what the
    file holds of it, or nothing for a file that is no archive
    ([BadZipFile]). *)
Class ReaderRuntime : Type := {
  (** [b.decode("utf-8")] *)
  utf8_decode : bytes -> result str;
  (** [json.loads(s)] *)
  json_loads : str -> result value;
  (** [json.dumps(v, indent=2, ensure_ascii=False)] on a loaded value *)
  value_dumps : value -> str;
  (** [str(v)] for a loaded value that is not a string *)
  value_repr : value -> str;
  (** [str(e)] for an exception *)
  exn_str : exn -> str;
  (** what the interpreter prints for an exception that nothing catches *)
  traceback : exn -> str;
  (** the members [zipfile.ZipFile(path, "r")] finds in the bytes of a file *)
  zip_open : bytes -> option (list (ZipInfo * stored))
}.



(** What is known of them: text that was encoded decodes, a document
    that was printed loads as the value it stands for, and printing that
    value gives the same text. *)
Class ReaderLaws (rt : Runtime) (rd : ReaderRuntime) : Prop := {
  utf8_decode_encode : forall s, utf8_decode (utf8_encode s) = Ok s;
  loads_dumps : forall v, json_loads (json_dumps v) = Ok (of_json v);
  dumps_of_json : forall v, value_dumps (of_json v) = json_dumps v
}.

(** [read_manifest(zf)]. *)
Definition read_manifest `{ReaderRuntime} (zf : Archive) : result value :=
  data <- zf_read zf (lit "metadata/manifest.json") ;;
  text <- utf8_decode data ;;
  json_loads text.


(** ** [main] of the reader

    The arguments are taken as parsed: the resolved path of the archive
    and the flag [--json].  What is printed is kept as the list of the
    strings given to [print], for each of the two streams; in these
    texts a character above 255 stands as its UTF-8 bytes. *)










(** ** A runtime whose documents can be read back

    The printer of [sample_runtime] writes a string between quotes
    without escapes, so two documents can print alike.  This one writes
    the length of a string in front of it; [sample_loads] reads what it
    writes. *)

Definition tagged_str (s : str) : str := repeat "x" (List.length s) ++ ":" :: s.

Fixpoint tagged (v : json) : str :=
  match v with
  | JStr s => "s" :: tagged_str s
  | JBool true => ["t"]
  | JBool false => ["f"]
  | JList l => "[" :: flat_map tagged l ++ ["]"]
  | JDict d =>
      "{" :: flat_map (fun kv : str * json =>
                         let (k, x) := kv in tagged_str k ++ tagged x) d
          ++ ["}"]
  end.

Fixpoint read_count (t : str) : nat * str :=
  match t with
  | c :: r => if Ascii.eqb c "x"
              then let (n, r') := read_count r in (S n, r')
              else (0, t)
  | [] => (0, t)
  end.

Definition read_str (t : str) : option (str * str) :=
  let (n, r) := read_count t in
  match r with
  | c :: r' =>
      if Ascii.eqb c ":" && Nat.leb n (List.length r')
      then Some (firstn n r', skipn n r') else None
  | [] => None
  end.

Fixpoint read_value (fuel : nat) (t : str) : option (value * str) :=
  match fuel with
  | O => None
  | S fuel' =>
      match t with
      | [] => None
      | c :: r =>
          if Ascii.eqb c "s" then
            match read_str r with
            | Some (s, r') => Some (VStr s, r')
            | None => None
            end
          else if Ascii.eqb c "t" then Some (VBool true, r)
          else if Ascii.eqb c "f" then Some (VBool false, r)
          else if Ascii.eqb c "[" then
            match read_items fuel' r with
            | Some (l, r') => Some (VList l, r')
            | None => None
            end
          else if Ascii.eqb c "{" then
            match read_fields fuel' r with
            | Some (d, r') => Some (VDict d, r')
            | None => None
            end
          else None
      end
  end
with read_items (fuel : nat) (t : str) : option (list value * str) :=
  match fuel with
  | O => None
  | S fuel' =>
      match t with
      | [] => None
      | c :: r =>
          if Ascii.eqb c "]" then Some ([], r)
          else match read_value fuel' t with
               | Some (v, r1) =>
                   match read_items fuel' r1 with
                   | Some (l, r2) => Some (v :: l, r2)
                   | None => None
                   end
               | None => None
               end
      end
  end
with read_fields (fuel : nat) (t : str) : option (list (str * value) * str) :=
  match fuel with
  | O => None
  | S fuel' =>
      match t with
      | [] => None
      | c :: r =>
          if Ascii.eqb c "}" then Some ([], r)
          else match read_str t with
               | Some (k, r1) =>
                   match read_value fuel' r1 with
                   | Some (v, r2) =>
                       match read_fields fuel' r2 with
                       | Some (d, r3) => Some ((k, v) :: d, r3)
                       | None => None
                       end
                   | None => None
                   end
               | None => None
               end
      end
  end.

Definition sample_loads (s : str) : result value :=
  match read_value (S (List.length s)) s with
  | Some (v, []) => Ok v
  | _ => Raise ValueError
  end.

(** The printer on loaded values: the documents of the converter are
    printed as the converter prints them. *)
Fixpoint to_json (v : value) : json :=
  match v with
  | VNone => JStr (lit "null")
  | VBool b => JBool b
  | VInt _ => JStr (lit "int")
  | VFloat _ => JStr (lit "float")
  | VStr s => JStr s
  | VList l => JList (map to_json l)
  | VDict d => JDict (map (fun kv : str * value => let (k, x) := kv in (k, to_json x)) d)
  end.

Definition sample_json_runtime : Runtime := {|
  sha256_hexdigest := sample_hexdigest;
  utf8_encode := sample_encode;
  utf8_decode_replace := sample_decode;
  json_dumps := tagged;
  container_repr := tagged;
  flushed := fun _ => [];
  stat_error := sample_stat_error;
  write_error := sample_stat_error
|}.

(** Options with two public URLs. *)
Definition sample_opts_urls (audio out : Path) : ConvertOptions := {|
  audio_path := audio;
  out_path := out;
  title := lit "Test";
  description := [];
  creation_mode := DEFAULT_MODE;
  tier := DEFAULT_TIER;
  author := lit "A. Author";
  contact := [];
  ownership_claim := true;
  ai_systems := [lit "Suno"];
  apps := [];
  toolchain_notes := [];
  prompt_path := Some [lit "m"; lit "prompt.txt"];
  negative_prompt_path := None;
  lyrics_path := None;
  stems_dir := Some [lit "m"; lit "stems"];
  persona_path := Some [lit "m"; lit "prompt.txt"];
  declaration_path := None;
  urls := [lit "https://a.example/1"; lit "https://b.example/2"]
|}.

(** The members of the archive these options give. *)
Definition sample_members : list (ZipInfo * bytes) :=
  match @convert_aifm sample_json_runtime sample_fs
          (sample_opts_urls [lit "m"; lit "song.wav"] [lit "m"; lit "out"])
          sample_now with
  | Ok zf => filelist zf
  | Raise _ => []
  end.

Fixpoint bytes_eqb (a b : bytes) : bool :=
  match a, b with
  | [], [] => true
  | x :: a', y :: b' => Byte.eqb x y && bytes_eqb a' b'
  | _, _ => false
  end.

(** The entry of the directory of an archive for a name. *)
Definition sample_info (name : string) : ZipInfo :=
  {| filename := lit name;
     date_time := (1980, 1, 1, 0, 0, 0)%N;
     compress_type := ZIP_DEFLATED |}.

(** An archive whose ledger lists the audio, which does not read back,
    and then a stem that is not there. *)
Definition sample_damaged : Archive := {|
  ar_members :=
    [ (sample_info "payload/audio/main.wav",
       Damaged (BadMember (lit "Bad CRC-32 for file 'payload/audio/main.wav'")));
      (sample_info "verification/checksums.sha256",
       Intact (sample_encode
         (sample_hexdigest (ascii_bytes "RIFF") ++ lit "  payload/audio/main.wav" ++ nl
          ++ sample_hexdigest (ascii_bytes "vv") ++ lit "  payload/stems/vocals.wav" ++ nl)));
      (sample_info "metadata/manifest.json", Intact (ascii_bytes "{}"));
      (sample_info "README.txt", Intact []) ]
|}.

(** The bytes ["PK"] stand for the file of the archive [sample_members],
    the bytes ["PKx"] for the file of [sample_damaged]. *)
Definition sample_reader : ReaderRuntime := {|
  utf8_decode := fun b => Ok (sample_decode b);
  json_loads := sample_loads;
  value_dumps := fun v => tagged (to_json v);
  value_repr := fun v => tagged (to_json v);
  exn_str := fun _ => lit "error";
  traceback := fun _ => lit "Traceback (most recent call last):";
  zip_open := fun data =>
    if bytes_eqb data (ascii_bytes "PK")
    then Some (ar_members (reopen {| zf_file := []; filelist := sample_members |}))
    else if bytes_eqb data (ascii_bytes "PKx")
    then Some (ar_members sample_damaged)
    else None
|}.


(** ** The clock: [utc_now_iso] *)

(** An aware [datetime] in UTC, as [datetime.now(timezone.utc)] gives. *)
Record datetime : Type := {
  year : N;
  month : N;
  day : N;
  hour : N;
  minute : N;
  second : N;
  microsecond : N
}.

(** The decimal digits of a number, the last one first. *)
Fixpoint decimal_rev (fuel : nat) (n : N) : str :=
  match fuel with
  | O => []
  | S fuel' =>
      if N.ltb n 10 then [ascii_of_N (48 + n)]
      else ascii_of_N (48 + n mod 10) :: decimal_rev fuel' (n / 10)
  end.

(** ["%d" % n]; a number has no more decimal digits than bits. *)
Definition decimal (n : N) : str := rev (decimal_rev (S (N.size_nat n)) n).

(** ["%0<width>d" % n]. *)
Definition format_d (width : nat) (n : N) : str :=
  repeat "0" (width - List.length (decimal n)) ++ decimal n.

(** [d.replace(microsecond=0)]. *)
Definition replace_microsecond (d : datetime) (us : N) : datetime :=
  {| year := year d; month := month d; day := day d;
     hour := hour d; minute := minute d; second := second d;
     microsecond := us |}.

(** [d.isoformat()] for a [datetime] in UTC: the fraction is written
    only when the microseconds are not zero. *)
Definition isoformat (d : datetime) : str :=
  format_d 4 (year d) ++ lit "-" ++ format_d 2 (month d) ++ lit "-"
  ++ format_d 2 (day d) ++ lit "T"
  ++ format_d 2 (hour d) ++ lit ":" ++ format_d 2 (minute d) ++ lit ":"
  ++ format_d 2 (second d)
  ++ (if N.eqb (microsecond d) 0 then [] else lit "." ++ format_d 6 (microsecond d))
  ++ lit "+00:00".

(** [s.replace(old, new)] for a non-empty [old]: the occurrences are
    replaced from the left, and [skip] counts the characters of an
    occurrence still to pass over. *)
Fixpoint replace_from (old new : str) (skip : nat) (s : str) : str :=
  match s with
  | [] => []
  | c :: r =>
      match skip with
      | S k => replace_from old new k r
      | O => if startswith old s
             then new ++ replace_from old new (List.length old - 1) r
             else c :: replace_from old new 0 r
      end
  end.

Definition str_replace (old new s : str) : str := replace_from old new 0 s.

(** [utc_now_iso()], with the reading of the clock. *)
Definition utc_now_iso (clock : datetime) : str :=
  str_replace (lit "+00:00") (lit "Z") (isoformat (replace_microsecond clock 0)).

(** A reading of the clock: the ranges of a [datetime]. *)
Definition valid_datetime (d : datetime) : Prop :=
  (1 <= year d <= 9999)%N /\ (1 <= month d <= 12)%N /\ (1 <= day d <= 31)%N
  /\ (hour d < 24)%N /\ (minute d < 60)%N /\ (second d < 60)%N
  /\ (microsecond d < 1000000)%N.

Definition is_digit (c : ascii) : bool := between 48 57 (code c).

Definition sample_clock : datetime :=
  {| year := 2026; month := 1; day := 2; hour := 3; minute := 4; second := 5;
     microsecond := 678901 |}.

(** A name that stays inside the directory it is unpacked in: its
    segments are not empty, are neither [.] nor [..] and hold no slash,
    so the name is relative and never steps up. *)
Definition safe_name (n : str) : Prop := Forall proper_segment (segments n).

(** The archive [zf] without the members of one name. *)
Definition without_member (zf : ZipFile) (name : str) : ZipFile :=
  {| zf_file := zf_file zf;
     filelist := filter (fun m => negb (str_eqb (filename (fst m)) name))
                   (filelist zf) |}.

(** The digits of a number in a field of fixed width, the first one
    first. *)
Fixpoint fixed_digits (width : nat) (n : N) : str :=
  match width with
  | O => []
  | S k => fixed_digits k (n / 10) ++ [ascii_of_N (48 + n mod 10)]
  end.

(** The order in time of two readings of the clock, to the second. *)
Definition datetime_compare (a b : datetime) : comparison :=
  match N.compare (year a) (year b) with
  | Eq =>
    match N.compare (month a) (month b) with
    | Eq =>
      match N.compare (day a) (day b) with
      | Eq =>
        match N.compare (hour a) (hour b) with
        | Eq =>
          match N.compare (minute a) (minute b) with
          | Eq => N.compare (second a) (second b)
          | c => c
          end
        | c => c
        end
      | c => c
      end
    | c => c
    end
  | c => c
  end.

Definition sample_clock_later : datetime :=
  {| year := 2026; month := 1; day := 10; hour := 0; minute := 0; second := 0;
     microsecond := 0 |}.

(** ** Discrepancies, as the specification names them *)

(** Modelled from the spec: a discrepancy is a payload file that is
    missing, or a hash mismatch that carries the expected and the
    computed digest. *)
Inductive Discrepancy : Type :=
| MissingPayloadFile (path : str)
| HashMismatch (path expected actual : str).

(** Modelled from the spec: the value of a hexadecimal digit, written in
    either case. *)
Definition hex_value (c : ascii) : option N :=
  if between 48 57 (code c) then Some (code c - 48)%N
  else if between 97 102 (code c) then Some (code c - 87)%N
  else if between 65 70 (code c) then Some (code c - 55)%N
  else None.

(** Modelled from the spec: two digests compared as hexadecimal
    numerals, digit by digit, whatever the case of the letters. *)
Fixpoint same_hex (a b : str) : bool :=
  match a, b with
  | [], [] => true
  | x :: a', y :: b' =>
      match hex_value x, hex_value y with
      | Some u, Some v => N.eqb u v && same_hex a' b'
      | _, _ => false
      end
  | _, _ => false
  end.

(** Modelled from the spec: what one ledger entry gives: a missing file
    when the archive has no member of that path, a mismatch when the
    member is there and its digest is another numeral than the expected
    one, and nothing when they are the same.  The specification says
    nothing of a member that does not read back; none is counted for
    it here. *)
Definition entry_discrepancy `{Runtime} (zf : Archive) (entry : str * str)
  : list Discrepancy :=
  let (expected, path) := entry in
  if existsb (str_eqb path) (namelist zf) then
    match zf_read zf path with
    | Ok content =>
        if same_hex (sha256_hexdigest content) expected then []
        else [HashMismatch path expected (sha256_hexdigest content)]
    | Raise _ => []
    end
  else [MissingPayloadFile path].

(** The line of the result that stands for a discrepancy. *)
Definition discrepancy_message (d : Discrepancy) : str :=
  match d with
  | MissingPayloadFile path =>
      lit "Missing payload file listed in checksums: " ++ path
  | HashMismatch path expected actual =>
      lit "Hash mismatch: " ++ path ++ ["010"]
      ++ lit "  expected: " ++ expected ++ ["010"]
      ++ lit "  actual:   " ++ actual
  end.

(** The letters a to f in upper case. *)
Definition upper_hex (s : str) : str :=
  map (fun c => if between 97 102 (code c) then ascii_of_N (code c - 32) else c) s.

(** An archive whose audio was altered, whose ledger lists the drums
    with the digest in upper case and a stem that is not there, and
    whose README does not read back. *)
Definition sample_checked : Archive := {|
  ar_members :=
    [ (sample_info "payload/audio/main.wav", Intact (ascii_bytes "RIFX"));
      (sample_info "payload/stems/drums.wav", Intact (ascii_bytes "dd"));
      (sample_info "README.txt",
       Damaged (BadMember (lit "Bad CRC-32 for file 'README.txt'")));
      (sample_info "verification/checksums.sha256",
       Intact (sample_encode
         (sample_hexdigest (ascii_bytes "RIFF") ++ lit "  payload/audio/main.wav" ++ nl
          ++ upper_hex (sample_hexdigest (ascii_bytes "dd"))
          ++ lit "  payload/stems/drums.wav" ++ nl
          ++ sample_hexdigest (ascii_bytes "vv") ++ lit "  payload/stems/vocals.wav" ++ nl))) ]
|}.




(* ================================================================== *)
(** * Part II. Properties                                              *)
(* ================================================================== *)

(** ** Equality tests and the error monad *)

Lemma str_eqb_eq (a b : str) : str_eqb a b = true <-> a = b.
Proof.
  revert b. induction a as [|x a IH]; intros [|y b]; simpl;
    try (split; [discriminate | congruence]); [tauto|].
  rewrite andb_true_iff, Ascii.eqb_eq, IH. split; [intros []|intros [=]]; subst; auto.
Qed.

Lemma str_eqb_refl (a : str) : str_eqb a a = true.
Proof. now apply str_eqb_eq. Qed.

Lemma str_eqb_neq (a b : str) : str_eqb a b = false <-> a <> b.
Proof.
  rewrite <- str_eqb_eq. destruct (str_eqb a b); split; congruence.
Qed.

Lemma path_eqb_eq (p q : Path) : path_eqb p q = true <-> p = q.
Proof.
  revert q. induction p as [|x p IH]; intros [|y q]; simpl;
    try (split; [discriminate | congruence]); [tauto|].
  rewrite andb_true_iff, str_eqb_eq, IH. split; [intros []|intros [=]]; subst; auto.
Qed.

Lemma path_eqb_neq (p q : Path) : path_eqb p q = false <-> p <> q.
Proof.
  rewrite <- path_eqb_eq. destruct (path_eqb p q); split; congruence.
Qed.

Lemma bind_ok {A B : Type} (r : result A) (k : A -> result B) (b : B) :
  bind r k = Ok b -> exists a, r = Ok a /\ k a = Ok b.
Proof. destruct r as [a|e]; simpl; [eauto | discriminate]. Qed.

(** Takes a successful [bind] apart into its two steps. *)
Ltac bind_inv H :=
  let x := fresh "x" in
  let Hx := fresh "Hx" in
  apply bind_ok in H; destruct H as (x & Hx & H).

Lemma for_each_app {A S : Type} (body : S -> A -> result S) (l1 l2 : list A) (s : S) :
  for_each body (l1 ++ l2) s = (s' <- for_each body l1 s ;; for_each body l2 s').
Proof.
  revert s. induction l1 as [|x l1 IH]; intros s; simpl; [reflexivity|].
  destruct (body s x); simpl; auto.
Qed.

(** ** C2: optional fields of the manifest *)

(** Every case of which optional inputs are given, evaluated. *)
Ltac manifest_cases opts :=
  destruct opts as [a o t d cm ti au co oc ais ap tn pp np lp sd pe de ur];
  destruct pe, de, lp, pp, np, sd, ur; vm_compute; reflexivity.

Lemma manifest_persona_ref (opts : ConvertOptions) (now : str) :
  dict_get (lit "persona_ref") (build_manifest opts now) =
  if given (persona_path opts) then Some (JStr (lit "metadata/persona.txt")) else None.
Proof. manifest_cases opts. Qed.

Lemma manifest_declaration (opts : ConvertOptions) (now : str) :
  dict_get (lit "declaration") (build_manifest opts now) =
  if given (declaration_path opts)
  then Some (JDict [ (lit "type", JStr (lit "Creator-Declared"));
                     (lit "text_ref", JStr (lit "metadata/declaration.txt")) ])
  else None.
Proof. manifest_cases opts. Qed.

Lemma manifest_lyrics_ref (opts : ConvertOptions) (now : str) :
  dict_get (lit "lyrics_ref") (build_manifest opts now) =
  if given (lyrics_path opts) then Some (JStr (lit "metadata/lyrics.txt")) else None.
Proof. manifest_cases opts. Qed.

Lemma manifest_prompt_refs (opts : ConvertOptions) (now : str) :
  dict_get (lit "prompt_refs") (build_manifest opts now) =
  if given (prompt_path opts) || given (negative_prompt_path opts)
  then Some (JDict
         [ (lit "prompt",
            JStr (if given (prompt_path opts)
                  then lit "metadata/prompt/prompt.txt" else []));
           (lit "negative_prompt",
            JStr (if given (negative_prompt_path opts)
                  then lit "metadata/prompt/negative_prompt.txt" else [])) ])
  else None.
Proof. manifest_cases opts. Qed.

Lemma manifest_public_attestation (opts : ConvertOptions) (now : str) :
  dict_get (lit "public_attestation") (build_manifest opts now) =
  match urls opts with
  | [] => None
  | _ :: _ => Some (JDict [ (lit "urls", JList (map JStr (urls opts)));
                            (lit "notes", JStr []) ])
  end.
Proof. manifest_cases opts. Qed.

Lemma manifest_stems_included (opts : ConvertOptions) (now : str) :
  dict_get (lit "stems_included") (build_manifest opts now)
  = Some (JBool (given (stems_dir opts))).
Proof. manifest_cases opts. Qed.

Lemma manifest_created_at (opts : ConvertOptions) (now : str) :
  dict_get (lit "created_at") (build_manifest opts now) = Some (JStr now).
Proof. manifest_cases opts. Qed.

Lemma manifest_title (opts : ConvertOptions) (now : str) :
  dict_get (lit "title") (build_manifest opts now)
  = Some (JStr (or_default (title opts) (lit "Untitled"))).
Proof. manifest_cases opts. Qed.

Lemma manifest_verification (opts : ConvertOptions) (now : str) :
  dict_get (lit "verification") (build_manifest opts now) =
  Some (JDict
    [ (lit "tier", JStr (tier opts));
      (lit "method", JStr (if str_eqb (tier opts) (lit "SDA")
                           then lit "self-declared" else lit "declared"));
      (lit "signing", JStr (lit "none")) ]).
Proof. manifest_cases opts. Qed.

(** C2, as stated, fails: with a prompt and no negative prompt the
    manifest carries [prompt_refs] with a [negative_prompt] reference
    that is the empty string. *)
Lemma prompt_refs_placeholder :
  dict_get (lit "prompt_refs")
    (build_manifest prompt_only_opts (lit "2026-01-01T00:00:00Z"))
  = Some (JDict [ (lit "prompt", JStr (lit "metadata/prompt/prompt.txt"));
                  (lit "negative_prompt", JStr []) ])
  /\ negative_prompt_path prompt_only_opts = None
  /\ ~ prompt_refs_exact prompt_only_opts
         (build_manifest prompt_only_opts (lit "2026-01-01T00:00:00Z")).
Proof.
  split; [vm_compute; reflexivity|]. split; [reflexivity|].
  intros H. destruct (H _ eq_refl) as [_ H2]. vm_compute in H2. discriminate.
Qed.

(** C2, amended: [persona_ref], [declaration], [lyrics_ref] and
    [public_attestation] are in the manifest exactly when their asset
    (for the last: at least one URL) was given, with the fixed value of
    that asset; [prompt_refs] is there exactly when a prompt or a
    negative prompt was given, and then always holds both references,
    the fixed path for a given one and the empty string for the other;
    [stems_included] is always there. *)
Theorem build_manifest_optional_fields (opts : ConvertOptions) (now : str) :
  let manifest := build_manifest opts now in
  dict_get (lit "persona_ref") manifest
  = (if given (persona_path opts)
     then Some (JStr (lit "metadata/persona.txt")) else None)
  /\ dict_get (lit "declaration") manifest
     = (if given (declaration_path opts)
        then Some (JDict [ (lit "type", JStr (lit "Creator-Declared"));
                           (lit "text_ref", JStr (lit "metadata/declaration.txt")) ])
        else None)
  /\ dict_get (lit "lyrics_ref") manifest
     = (if given (lyrics_path opts)
        then Some (JStr (lit "metadata/lyrics.txt")) else None)
  /\ dict_get (lit "prompt_refs") manifest
     = (if given (prompt_path opts) || given (negative_prompt_path opts)
        then Some (JDict
               [ (lit "prompt",
                  JStr (if given (prompt_path opts)
                        then lit "metadata/prompt/prompt.txt" else []));
                 (lit "negative_prompt",
                  JStr (if given (negative_prompt_path opts)
                        then lit "metadata/prompt/negative_prompt.txt" else [])) ])
        else None)
  /\ dict_get (lit "public_attestation") manifest
     = match urls opts with
       | [] => None
       | _ :: _ => Some (JDict [ (lit "urls", JList (map JStr (urls opts)));
                                 (lit "notes", JStr []) ])
       end
  /\ dict_get (lit "stems_included") manifest
     = Some (JBool (given (stems_dir opts))).
Proof.
  cbv zeta.
  rewrite manifest_persona_ref, manifest_declaration, manifest_lyrics_ref,
    manifest_prompt_refs, manifest_public_attestation, manifest_stems_included.
  repeat split.
Qed.

(** ** The steps of the write path *)

Section WritePath.
Context {rt : Runtime}.

Lemma zip_write_file_inv fs zf arcname src zf' :
  zip_write_file fs zf arcname src = Ok zf' ->
  exists data, read_source fs zf src = Ok data
               /\ zf' = writestr zf (member_info arcname) data.
Proof.
  unfold zip_write_file. intros H. bind_inv H. injection H as <-. eauto.
Qed.

Lemma write_optional_inv fs zf parts p zf' :
  write_optional fs zf parts p = Ok zf' ->
  match p with
  | None => zf' = zf
  | Some src => exists arcname data,
      normalize_zip_path parts = Ok arcname
      /\ read_source fs zf src = Ok data
      /\ zf' = writestr zf (member_info arcname) data
  end.
Proof.
  destruct p as [src|]; simpl; intros H.
  - bind_inv H. apply zip_write_file_inv in H. destruct H as (data & ? & ?). eauto.
  - congruence.
Qed.

(** The loop over the stem files adds one member per file, in order. *)
Lemma write_stems_inv fs (l : list (str * Path)) zf zf' :
  for_each (fun zf entry => zip_write_file fs zf (fst entry) (snd entry)) l zf
  = Ok zf' ->
  zf_file zf' = zf_file zf
  /\ map fst (filelist zf')
     = map fst (filelist zf) ++ map (fun e => member_info (fst e)) l.
Proof.
  revert zf. induction l as [|e l IH]; simpl; intros zf H.
  - injection H as <-. now rewrite app_nil_r.
  - bind_inv H. apply zip_write_file_inv in Hx. destruct Hx as (data & _ & ->).
    apply IH in H. destruct H as [H1 H2]. split; [exact H1|].
    rewrite H2. simpl. rewrite map_app, <- app_assoc. reflexivity.
Qed.

Lemma write_optional_infos fs zf parts name p zf' :
  normalize_zip_path parts = Ok name ->
  write_optional fs zf parts p = Ok zf' ->
  zf_file zf' = zf_file zf
  /\ map fst (filelist zf')
     = map fst (filelist zf) ++ (if given p then [member_info name] else []).
Proof.
  intros Hn H. apply write_optional_inv in H. destruct p as [src|]; simpl.
  - destruct H as (arcname & data & Ha & _ & ->). rewrite Hn in Ha.
    injection Ha as <-. simpl. now rewrite map_app.
  - subst zf'. now rewrite app_nil_r.
Qed.

Lemma write_optional_shape fs zf parts name p zf' :
  normalize_zip_path parts = Ok name ->
  write_optional fs zf parts p = Ok zf' ->
  exists added,
    zf_file zf' = zf_file zf
    /\ filelist zf' = filelist zf ++ added
    /\ map fst added = (if given p then [member_info name] else []).
Proof.
  intros Hn H. apply write_optional_inv in H. destruct p as [src|]; simpl.
  - destruct H as (arcname & data & Ha & _ & ->). rewrite Hn in Ha.
    injection Ha as <-. eexists. repeat split.
  - subst zf'. exists []. now rewrite app_nil_r.
Qed.

Lemma write_stems_shape fs (l : list (str * Path)) zf zf' :
  for_each (fun zf entry => zip_write_file fs zf (fst entry) (snd entry)) l zf
  = Ok zf' ->
  exists added,
    zf_file zf' = zf_file zf
    /\ filelist zf' = filelist zf ++ added
    /\ map fst added = map (fun e => member_info (fst e)) l
    /\ Forall2 (written fs (zf_file zf)) l added.
Proof.
  revert zf. induction l as [|e l IH]; simpl; intros zf H.
  - injection H as <-. exists []. rewrite app_nil_r. repeat split. constructor.
  - bind_inv H. apply zip_write_file_inv in Hx. destruct Hx as (data & Hd & ->).
    apply IH in H. destruct H as (added & H1 & H2 & H3 & H4).
    exists ((member_info (fst e), data) :: added). split; [exact H1|].
    split; [|split; [simpl; now rewrite H3|]].
    + rewrite H2. simpl. now rewrite <- app_assoc.
    + constructor; [|exact H4]. split; [reflexivity|].
      exists (filelist zf). destruct zf. exact Hd.
Qed.

(** The members written by the block: the payload, the manifest, the
    optional text assets, the ledger and the README. *)
Lemma write_members_shape fs opts zf azp stems mb cb rb zf' :
  write_members fs opts zf azp stems mb cb rb = Ok zf' ->
  exists payload optional,
    zf_file zf' = zf_file zf
    /\ filelist zf'
       = filelist zf ++ payload
         ++ (member_info (lit "metadata/manifest.json"), mb) :: optional
         ++ [(member_info (lit "verification/checksums.sha256"), cb);
             (member_info (lit "README.txt"), rb)]
    /\ map fst payload
       = member_info azp
         :: map (fun e => member_info (fst e)) (sorted_by fst str_ltb stems)
    /\ map fst optional = map member_info (optional_names opts)
    /\ Forall2 (written fs (zf_file zf))
         ((azp, audio_path opts) :: sorted_by fst str_ltb stems) payload.
Proof.
  unfold write_members. intros H.
  bind_inv H. apply zip_write_file_inv in Hx. destruct Hx as (d0 & Hd0 & ->).
  bind_inv H. apply write_stems_shape in Hx.
  destruct Hx as (a1 & F1 & L1 & M1 & W1).
  bind_inv H. vm_compute in Hx. injection Hx as <-.
  bind_inv H. eapply write_optional_shape in Hx; [|vm_compute; reflexivity].
  destruct Hx as (a2 & F2 & L2 & M2).
  bind_inv H. eapply write_optional_shape in Hx; [|vm_compute; reflexivity].
  destruct Hx as (a3 & F3 & L3 & M3).
  bind_inv H. eapply write_optional_shape in Hx; [|vm_compute; reflexivity].
  destruct Hx as (a4 & F4 & L4 & M4).
  bind_inv H. eapply write_optional_shape in Hx; [|vm_compute; reflexivity].
  destruct Hx as (a5 & F5 & L5 & M5).
  bind_inv H. eapply write_optional_shape in Hx; [|vm_compute; reflexivity].
  destruct Hx as (a6 & F6 & L6 & M6).
  bind_inv H. vm_compute in Hx. injection Hx as <-.
  injection H as <-.
  exists ((member_info azp, d0) :: a1), (a2 ++ a3 ++ a4 ++ a5 ++ a6).
  split; [|split; [|split; [|split]]].
  - simpl. rewrite F6, F5, F4, F3, F2. simpl. rewrite F1. reflexivity.
  - unfold zip_write_bytes, writestr at 1 2. cbn [filelist].
    rewrite L6, L5, L4, L3, L2.
    unfold zip_write_bytes, writestr at 1. cbn [filelist].
    rewrite L1. cbn [writestr filelist].
    rewrite <- !app_assoc. cbn [app]. reflexivity.
  - cbn [map fst]. now rewrite M1.
  - rewrite !map_app, M2, M3, M4, M5, M6. unfold optional_names.
    destruct (prompt_path opts), (negative_prompt_path opts), (lyrics_path opts),
      (persona_path opts), (declaration_path opts); reflexivity.
  - constructor; [|exact W1]. split; [reflexivity|].
    exists (filelist zf). destruct zf. exact Hd0.
Qed.

(** The same by the [ZipInfo] of the members alone. *)
Lemma write_members_infos fs opts zf azp stems mb cb rb zf' :
  write_members fs opts zf azp stems mb cb rb = Ok zf' ->
  zf_file zf' = zf_file zf
  /\ map fst (filelist zf')
     = map fst (filelist zf)
       ++ member_info azp
          :: map (fun e => member_info (fst e)) (sorted_by fst str_ltb stems)
       ++ member_info (lit "metadata/manifest.json")
          :: map member_info (optional_names opts)
       ++ [member_info (lit "verification/checksums.sha256");
           member_info (lit "README.txt")].
Proof.
  intros H. apply write_members_shape in H.
  destruct H as (payload & optional & F & L & Mp & Mo & _). split; [exact F|].
  rewrite L, !map_app. cbn [map fst]. rewrite !map_app, Mp, Mo. reflexivity.
Qed.

Lemma convert_aifm_io fs opts now zf :
  convert_aifm fs opts now = Ok zf ->
  exists out,
    output_path (out_path opts) = Ok out
    /\ mkdir_parents fs (path_parent out) = Ok tt
    /\ open_for_write fs out = Ok tt.
Proof.
  unfold convert_aifm. intros H.
  bind_inv H. bind_inv H. bind_inv H. bind_inv H. bind_inv H. bind_inv H.
  bind_inv H. bind_inv H. destruct x5, x6. eauto.
Qed.

Lemma convert_aifm_inv fs opts now zf :
  convert_aifm fs opts now = Ok zf ->
  exists out azp stems checksums readme,
    check_inputs fs opts = Ok tt
    /\ output_path (out_path opts) = Ok out
    /\ audio_zip_path_of (audio_path opts) = Ok azp
    /\ stems_files_of fs (stems_dir opts) = Ok stems
    /\ make_checksums_payload_only fs ((azp, audio_path opts) :: stems) = Ok checksums
    /\ build_readme (build_manifest opts now) = Ok readme
    /\ write_members fs opts {| zf_file := out; filelist := [] |} azp stems
         (utf8_encode (json_dumps (JDict (build_manifest opts now))))
         (utf8_encode checksums) (utf8_encode readme) = Ok zf.
Proof.
  unfold convert_aifm. intros H.
  bind_inv H. destruct x. bind_inv H. bind_inv H. bind_inv H. bind_inv H.
  bind_inv H. bind_inv H. bind_inv H.
  do 5 eexists. repeat (split; [eassumption|]). exact H.
Qed.
End WritePath.

(** ** C8: the output path *)

Lemma length_name_suffix (name : str) :
  List.length (name_suffix name) <= List.length name.
Proof.
  unfold name_suffix. destruct (rfind "." name) as [i|]; simpl; [|lia].
  destruct (Nat.ltb 0 i && Nat.ltb i (List.length name - 1)); simpl; [|lia].
  rewrite length_skipn. lia.
Qed.

Lemma name_stem_suffix (name : str) : name_stem name ++ name_suffix name = name.
Proof.
  unfold name_stem, name_suffix. destruct (rfind "." name) as [i|].
  - destruct (Nat.ltb 0 i && Nat.ltb i (List.length name - 1)) eqn:E.
    + apply andb_true_iff in E. destruct E as [_ E]. apply Nat.ltb_lt in E.
      rewrite length_skipn.
      replace (List.length name - (List.length name - i)) with i by lia.
      apply firstn_skipn.
    + simpl. rewrite Nat.sub_0_r, firstn_all. apply app_nil_r.
  - simpl. rewrite Nat.sub_0_r, firstn_all. apply app_nil_r.
Qed.

(** [with_suffix] raises on an empty name only, and otherwise puts the
    new suffix in place of the old one. *)
Lemma with_suffix_spec (p : Path) (suffix : str) :
  match with_suffix p suffix with
  | Ok p' => path_name p <> []
             /\ p' = path_parent p ++ [name_stem (path_name p) ++ suffix]
  | Raise e => path_name p = [] /\ e = ValueError
  end.
Proof.
  unfold with_suffix, path_suffix, name_stem, path_parent.
  destruct (path_name p) as [|c name] eqn:E; [now split|].
  split; [discriminate|].
  destruct (name_suffix (c :: name)) as [|d sfx] eqn:Hs; [|reflexivity].
  change (List.length (@nil ascii)) with 0. rewrite Nat.sub_0_r.
  now rewrite firstn_all.
Qed.

Lemma output_path_spec (out : Path) :
  match output_path out with
  | Ok out' =>
      path_name out <> []
      /\ out' = (if str_eqb (lower (path_suffix out)) (lit ".aifm") then out
                 else path_parent out ++ [name_stem (path_name out) ++ lit ".aifm"])
  | Raise e => path_name out = [] /\ e = ValueError
  end.
Proof.
  unfold output_path.
  destruct (str_eqb (lower (path_suffix out)) (lit ".aifm")) eqn:E; simpl.
  - split; [|reflexivity]. intros N. unfold path_suffix in E. rewrite N in E.
    discriminate.
  - apply with_suffix_spec.
Qed.

Section OutputPath.
Context {rt : Runtime}.

Lemma convert_aifm_zf_file fs opts now zf :
  convert_aifm fs opts now = Ok zf ->
  output_path (out_path opts) = Ok (zf_file zf).
Proof.
  intros H. apply convert_aifm_inv in H.
  destruct H as (out & azp & stems & cs & rd & _ & Ho & _ & _ & _ & _ & Hw).
  apply write_members_infos in Hw. destruct Hw as [-> _]. exact Ho.
Qed.

(** C8, amended: the archive is written at the output path itself when
    its suffix is [.aifm] in some letter case, and otherwise at the
    path whose last part has its suffix replaced by [.aifm]: the
    extension is appended only when the last part has no suffix, and
    a last part that is empty is refused with [ValueError]. *)
Theorem convert_aifm_output_path fs opts now zf :
  convert_aifm fs opts now = Ok zf ->
  let out := out_path opts in
  path_name out <> []
  /\ name_stem (path_name out) ++ path_suffix out = path_name out
  /\ zf_file zf
     = (if str_eqb (lower (path_suffix out)) (lit ".aifm") then out
        else path_parent out ++ [name_stem (path_name out) ++ lit ".aifm"])
  /\ (path_suffix out = [] -> zf_file zf = append_extension out (lit ".aifm"))
  /\ (forall p, path_name p <> [] -> exists p', output_path p = Ok p').
Proof.
  intros H out. apply convert_aifm_zf_file in H. fold out in H.
  pose proof (output_path_spec out) as S. rewrite H in S. destruct S as [N E].
  split; [exact N|]. split; [apply name_stem_suffix|]. split; [exact E|]. split.
  - intros S0. rewrite E. unfold append_extension, name_stem, path_suffix in *.
    rewrite S0. simpl. rewrite Nat.sub_0_r, firstn_all. reflexivity.
  - intros p Np. pose proof (output_path_spec p) as Sp.
    destruct (output_path p) as [p'|e]; [eauto|]. now destruct Sp.
Qed.
End OutputPath.

(** C8, as stated, fails: the output path [/m/out.zip] has an extension
    other than [.aifm], and the archive is written at [/m/out.aifm], not
    at the path with [.aifm] appended. *)
Lemma output_path_not_appended :
  exists zf,
    convert_aifm sample_fs
      (sample_opts [lit "m"; lit "song.wav"] [lit "m"; lit "out.zip"]) sample_now = Ok zf
    /\ lower (path_suffix [lit "m"; lit "out.zip"]) <> lit ".aifm"
    /\ zf_file zf = [lit "m"; lit "out.aifm"]
    /\ zf_file zf <> append_extension [lit "m"; lit "out.zip"] (lit ".aifm").
Proof.
  destruct (convert_aifm sample_fs
              (sample_opts [lit "m"; lit "song.wav"] [lit "m"; lit "out.zip"])
              sample_now) as [zf|e] eqn:E; [|vm_compute in E; discriminate].
  exists zf. split; [reflexivity|].
  assert (F : zf_file zf = [lit "m"; lit "out.aifm"]).
  { vm_compute in E. injection E as <-. reflexivity. }
  split; [vm_compute; discriminate|]. split; [exact F|].
  rewrite F. vm_compute. discriminate.
Qed.

Lemma convert_aifm_output_path_witness :
  exists zf,
    convert_aifm sample_fs
      (sample_opts [lit "m"; lit "song.wav"] [lit "m"; lit "out"]) sample_now = Ok zf
    /\ zf_file zf = [lit "m"; lit "out.aifm"].
Proof.
  destruct (convert_aifm sample_fs
              (sample_opts [lit "m"; lit "song.wav"] [lit "m"; lit "out"]) sample_now)
    as [zf|e] eqn:E; [|vm_compute in E; discriminate].
  exists zf. split; [reflexivity|].
  destruct (convert_aifm_output_path _ _ _ E) as (_ & _ & F & _).
  rewrite F. vm_compute. reflexivity.
Defined.

(** ** C6: the ledger parser *)

Lemma contains_find_sub (sub s : str) :
  contains sub s = match find_sub sub s with Some _ => true | None => false end.
Proof.
  induction s as [|c r IH]; simpl.
  - destruct (startswith sub []); reflexivity.
  - destruct (startswith sub (c :: r)); simpl; [reflexivity|].
    rewrite IH. destruct (find_sub sub r); reflexivity.
Qed.

Lemma split_once_find_sub (sub s : str) :
  split_once sub s =
  match find_sub sub s with
  | Some i => [firstn i s; skipn (i + List.length sub) s]
  | None => [s]
  end.
Proof.
  induction s as [|c r IH]; simpl.
  - destruct (startswith sub []); reflexivity.
  - destruct (startswith sub (c :: r)); simpl; [reflexivity|].
    rewrite IH. destruct (find_sub sub r); reflexivity.
Qed.

Section Parser.
Context {rt : Runtime}.

(** One turn of the loop adds what the line stands for. *)
Lemma parse_line_spec (entries : list (str * str)) (line : str) :
  parse_line entries line = Ok (entries ++ ledger_line_entry line).
Proof.
  unfold parse_line, ledger_line_entry.
  destruct (strip line) as [|c l]; [now rewrite app_nil_r|].
  rewrite contains_find_sub, split_once_find_sub.
  destruct (find_sub (lit "  ") (c :: l)) as [i|]; [reflexivity|].
  destruct (split_ws (c :: l)) as [|h [|p toks]]; try reflexivity;
    now rewrite app_nil_r.
Qed.

Lemma parse_lines_spec (lines : list str) (entries : list (str * str)) :
  for_each parse_line lines entries
  = Ok (entries ++ flat_map ledger_line_entry lines).
Proof.
  revert entries. induction lines as [|l lines IH]; intros entries; simpl.
  - now rewrite app_nil_r.
  - rewrite parse_line_spec. simpl. rewrite IH, <- app_assoc. reflexivity.
Qed.

Lemma parse_sha256sum_total (text : str) :
  parse_sha256sum text = Ok (flat_map ledger_line_entry (splitlines text)).
Proof. unfold parse_sha256sum. apply parse_lines_spec. Qed.

(** C6, amended: the parser never raises; every line is stripped; a
    blank line gives nothing; a line in which two consecutive spaces
    occur is split at the first such pair (a run of other whitespace
    does not count) into digest and path, both stripped; any other
    line gives its first two whitespace-separated tokens, or nothing
    when it has fewer; the pairs come in line order. *)
Theorem parse_sha256sum_spec (text : str) :
  parse_sha256sum text = Ok (flat_map ledger_line_entry (splitlines text)).
Proof. apply parse_sha256sum_total. Qed.
End Parser.

(** C6, as stated, fails: in the line [a<TAB><TAB>b  c] the first run of
    two or more whitespace characters is the pair of tabs, yet the
    parser splits at the two spaces. *)
Lemma parse_sha256sum_splits_at_spaces_only :
  parse_sha256sum (lit "a" ++ ["009"; "009"] ++ lit "b  c")
  = Ok [(lit "a" ++ ["009"; "009"] ++ lit "b", lit "c")]
  /\ flat_map ledger_line_entry_by_space_run
       (splitlines (lit "a" ++ ["009"; "009"] ++ lit "b  c"))
     = [(lit "a", lit "b  c")]
  /\ parse_sha256sum (lit "a" ++ ["009"; "009"] ++ lit "b  c")
     <> Ok (flat_map ledger_line_entry_by_space_run
              (splitlines (lit "a" ++ ["009"; "009"] ++ lit "b  c"))).
Proof.
  split; [vm_compute; reflexivity|]. split; [vm_compute; reflexivity|].
  vm_compute. discriminate.
Qed.

(** ** An archive that was written, read *)

Lemma namelist_reopen (zf : ZipFile) :
  namelist zf = map (fun m => filename (fst m)) (filelist zf).
Proof. unfold namelist, reopen. cbn [ar_members]. now rewrite map_map. Qed.

Lemma find_intact (name : str) (l : list (ZipInfo * bytes)) :
  find (fun m : ZipInfo * stored => str_eqb (filename (fst m)) name)
    (map (fun m => (fst m, Intact (snd m))) l)
  = option_map (fun m => (fst m, Intact (snd m)))
      (find (fun m => str_eqb (filename (fst m)) name) l).
Proof.
  induction l as [|m l IH]; [reflexivity|]. cbn [map find fst].
  destruct (str_eqb (filename (fst m)) name); [reflexivity | exact IH].
Qed.

(** Reading what was written gives the content of the last member of
    that name. *)
Lemma zf_read_reopen (zf : ZipFile) (name : str) :
  zf_read zf name
  = match find (fun m => str_eqb (filename (fst m)) name) (rev (filelist zf)) with
    | Some m => Ok (snd m)
    | None => Raise (KeyError name)
    end.
Proof.
  unfold zf_read, reopen. cbn [ar_members]. rewrite <- map_rev, find_intact.
  destruct (find _ (rev (filelist zf))) as [m|]; reflexivity.
Qed.

(** ** C4: verification *)

Lemma zf_read_absent (zf : ZipFile) (name : str) :
  ~ In name (namelist zf) <-> zf_read zf name = Raise (KeyError name).
Proof.
  rewrite zf_read_reopen, namelist_reopen.
  destruct (find _ (rev (filelist zf))) as [m|] eqn:F.
  - apply find_some in F. destruct F as [Hin Heq]. apply str_eqb_eq in Heq.
    split; [|discriminate]. intros N. exfalso. apply N. rewrite <- Heq.
    apply in_map_iff. exists m. split; [reflexivity|]. now apply in_rev.
  - split; [reflexivity|]. intros _ Hin. apply in_map_iff in Hin.
    destruct Hin as (m & Hm & Hin). apply in_rev in Hin.
    pose proof (find_none _ _ F _ Hin) as N. simpl in N.
    rewrite Hm, str_eqb_refl in N. discriminate.
Qed.

Lemma zf_read_present (zf : ZipFile) (name : str) :
  In name (namelist zf) <-> exists data, zf_read zf name = Ok data.
Proof.
  destruct (zf_read zf name) as [d|e] eqn:R.
  - split; [eauto|]. intros _.
    destruct (in_dec (list_eq_dec ascii_dec) name (namelist zf)) as [|N]; [easy|].
    apply zf_read_absent in N. congruence.
  - split.
    + intros Hin. rewrite zf_read_reopen in R.
      destruct (find _ (rev (filelist zf))) eqn:F; [discriminate|].
      exfalso. injection R as <-. revert Hin. apply zf_read_absent.
      rewrite zf_read_reopen. now rewrite F.
    + intros [d Hd]. discriminate.
Qed.

Lemma zf_read_key_error (zf : ZipFile) (name : str) (e : exn) :
  zf_read zf name = Raise e -> e = KeyError name.
Proof.
  rewrite zf_read_reopen.
  destruct (find _ (rev (filelist zf))); [discriminate | now intros [= <-]].
Qed.

(** What [zf.read] can give: the content of a member, the exception of
    a damaged one, or a [KeyError] for a name the archive lacks. *)
Lemma zf_read_cases (zf : Archive) (name : str) :
  (exists content, zf_read zf name = Ok content /\ In name (namelist zf))
  \/ (exists d, zf_read zf name = Raise (damage_exn d) /\ In name (namelist zf))
  \/ (zf_read zf name = Raise (KeyError name) /\ ~ In name (namelist zf)).
Proof.
  unfold zf_read, namelist.
  destruct (find _ (rev (ar_members zf))) as [[info [content|d]]|] eqn:F.
  - left. exists content. split; [reflexivity|]. apply find_some in F.
    destruct F as [Hin E]. apply str_eqb_eq in E. cbn [fst] in E. subst name.
    apply in_map_iff. exists (info, Intact content). split; [reflexivity|].
    now apply in_rev.
  - right. left. exists d. split; [reflexivity|]. apply find_some in F.
    destruct F as [Hin E]. apply str_eqb_eq in E. cbn [fst] in E. subst name.
    apply in_map_iff. exists (info, Damaged d). split; [reflexivity|].
    now apply in_rev.
  - right. right. split; [reflexivity|]. intros Hin. apply in_map_iff in Hin.
    destruct Hin as (m & Hm & Hin). apply in_rev in Hin.
    pose proof (find_none _ _ F _ Hin) as N. cbn beta in N.
    rewrite Hm, str_eqb_refl in N. discriminate.
Qed.

Lemma zf_read_lacking (zf : Archive) (name : str) :
  ~ In name (namelist zf) -> zf_read zf name = Raise (KeyError name).
Proof.
  intros N. destruct (zf_read_cases zf name)
    as [(c & _ & Hy)|[(d & _ & Hy)|(R & _)]]; [contradiction | contradiction | exact R].
Qed.

Lemma damage_not_key_error (d : damage) (name : str) : damage_exn d <> KeyError name.
Proof. destruct d; discriminate. Qed.

Lemma existsb_str_In (x : str) (l : list str) :
  existsb (str_eqb x) l = true <-> In x l.
Proof.
  rewrite existsb_exists. split.
  - intros (y & Hy & E). apply str_eqb_eq in E. now subst.
  - intros H. exists x. split; [exact H | apply str_eqb_refl].
Qed.

(** A digest of lowercase hexadecimal digits equals the lowercased
    expected text exactly when the two are the same numeral. *)
Lemma lower_hex_digit_eqb (x y : ascii) :
  is_lower_hex x = true ->
  Ascii.eqb (char_lower x) (char_lower y)
  = match hex_value x, hex_value y with
    | Some u, Some v => N.eqb u v
    | _, _ => false
    end.
Proof.
  destruct x as [[] [] [] [] [] [] [] []]; intros H;
    try discriminate H; clear H;
    destruct y as [[] [] [] [] [] [] [] []]; vm_compute; reflexivity.
Qed.

Lemma lower_same_hex (a b : str) :
  forallb is_lower_hex a = true ->
  str_eqb (lower a) (lower b) = same_hex a b.
Proof.
  revert b. induction a as [|x a IH]; intros [|y b] H; try reflexivity.
  cbn [forallb] in H. apply andb_true_iff in H. destruct H as [Hx Ha].
  cbn [lower map str_eqb same_hex]. fold (lower a) (lower b).
  rewrite (@lower_hex_digit_eqb x y Hx), (IH b Ha).
  destruct (hex_value x), (hex_value y); reflexivity.
Qed.

Section Verification.
Context {rt : Runtime}.

Lemma verify_entry_spec (zf : ZipFile) errors entry :
  verify_entry zf errors entry = Ok (errors ++ discrepancy zf entry).
Proof.
  unfold verify_entry, discrepancy, sha256_bytes. destruct entry as [expected path].
  destruct (zf_read zf path) as [data|e] eqn:R.
  - destruct (str_eqb _ _); simpl; [now rewrite app_nil_r | reflexivity].
  - apply zf_read_key_error in R. now subst e.
Qed.

Lemma verify_entries_spec (zf : ZipFile) entries errors :
  for_each (verify_entry zf) entries errors
  = Ok (errors ++ flat_map (discrepancy zf) entries).
Proof.
  revert errors. induction entries as [|e entries IH]; intros errors; simpl.
  - now rewrite app_nil_r.
  - rewrite verify_entry_spec. cbn [bind]. rewrite IH, <- app_assoc. reflexivity.
Qed.

(** One turn of the loop, on any archive. *)
Lemma verify_entry_cases (zf : Archive) errors (expected path : str) :
  (exists content,
     zf_read zf path = Ok content /\ In path (namelist zf)
     /\ verify_entry zf errors (expected, path)
        = Ok (errors
              ++ if str_eqb (lower (sha256_hexdigest content)) (lower expected)
                 then []
                 else [mismatch_message path expected (sha256_hexdigest content)]))
  \/ (exists d,
        zf_read zf path = Raise (damage_exn d) /\ In path (namelist zf)
        /\ verify_entry zf errors (expected, path) = Raise (damage_exn d))
  \/ (~ In path (namelist zf)
      /\ verify_entry zf errors (expected, path)
         = Ok (errors ++ [missing_message path])).
Proof.
  unfold verify_entry, sha256_bytes.
  destruct (zf_read_cases zf path) as [(c & R & Hin)|[(d & R & Hin)|(R & N)]];
    rewrite R.
  - left. exists c. split; [reflexivity|]. split; [exact Hin|].
    destruct (str_eqb _ _); cbn [negb]; [now rewrite app_nil_r | reflexivity].
  - right. left. exists d. split; [reflexivity|]. split; [exact Hin|].
    destruct d; reflexivity.
  - right. right. now split.
Qed.

Lemma verify_entries_intact {laws : RuntimeLaws rt} (zf : Archive) entries errors :
  (forall expected path, In (expected, path) entries -> In path (namelist zf) ->
     exists content, zf_read zf path = Ok content) ->
  for_each (verify_entry zf) entries errors
  = Ok (errors ++ map discrepancy_message (flat_map (entry_discrepancy zf) entries)).
Proof.
  revert errors. induction entries as [|[expected path] entries IH];
    intros errors H; cbn [for_each flat_map].
  - now rewrite app_nil_r.
  - assert (H' : forall expected path, In (expected, path) entries ->
                 In path (namelist zf) -> exists content, zf_read zf path = Ok content)
      by (intros x y Hin; apply (H x y); now right).
    rewrite map_app, app_assoc.
    destruct (verify_entry_cases zf errors expected path)
      as [(c & R & Hin & ->)|[(d & R & Hin & _)|(N & ->)]]; cbn [bind].
    + rewrite (IH _ H'). do 2 f_equal. unfold entry_discrepancy.
      rewrite (proj2 (existsb_str_In path (namelist zf)) Hin), R.
      rewrite (@lower_same_hex _ expected (hexdigest_lower_hex c)).
      destruct (same_hex _ _); reflexivity.
    + destruct (H expected path (or_introl eq_refl) Hin) as (c & R').
      rewrite R in R'. discriminate R'.
    + rewrite (IH _ H'). do 2 f_equal. unfold entry_discrepancy.
      destruct (existsb (str_eqb path) (namelist zf)) eqn:E; [|reflexivity].
      apply existsb_str_In in E. contradiction.
Qed.

(** C4, amended: on an archive whose ledger reads back and in which every
    listed member that is there reads back too, verification goes
    through every entry parsed from the ledger and returns, in ledger
    order, the message of each discrepancy: one missing payload file for
    an entry whose path names no member, one hash mismatch with the
    expected and the computed digest for an entry whose member has a
    digest that is another hexadecimal numeral than the expected one,
    whatever the case of the letters, and nothing for an entry whose
    digest is the same numeral. *)
Theorem verify_payload_checksums_complete {laws : RuntimeLaws rt}
  (zf : Archive) (data : bytes) :
  zf_read zf (lit "verification/checksums.sha256") = Ok data ->
  (forall entries expected path,
     parse_sha256sum (utf8_decode_replace data) = Ok entries ->
     In (expected, path) entries -> In path (namelist zf) ->
     exists content, zf_read zf path = Ok content) ->
  exists entries,
    parse_sha256sum (utf8_decode_replace data) = Ok entries
    /\ verify_payload_checksums zf
       = Ok (map discrepancy_message (flat_map (entry_discrepancy zf) entries)).
Proof.
  intros R H. eexists. split; [apply parse_sha256sum_total|].
  unfold verify_payload_checksums. rewrite R. cbn [bind].
  rewrite parse_sha256sum_total. cbn [bind].
  apply (verify_entries_intact (laws := laws)).
  intros expected path. apply H, parse_sha256sum_total.
Qed.
End Verification.

(** ** Order of strings and [sorted] *)

Lemma ascii_compare_eq (x y : ascii) : Ascii.compare x y = Eq <-> x = y.
Proof.
  split; [apply Ascii.compare_eq_iff|]. intros ->. apply N.compare_refl.
Qed.

Lemma ascii_compare_opp (x y : ascii) :
  Ascii.compare y x = CompOpp (Ascii.compare x y).
Proof. apply Ascii.compare_antisym. Qed.

Lemma ascii_compare_trans (x y z : ascii) (c : comparison) :
  Ascii.compare x y = c -> Ascii.compare y z = c -> Ascii.compare x z = c.
Proof.
  unfold Ascii.compare. destruct c; intros H1 H2.
  - apply N.compare_eq_iff in H1, H2. apply N.compare_eq_iff. congruence.
  - apply N.compare_lt_iff in H1, H2. apply N.compare_lt_iff.
    eapply N.lt_trans; eassumption.
  - apply N.compare_gt_iff in H1, H2. apply N.compare_gt_iff.
    eapply N.lt_trans; eassumption.
Qed.

Lemma str_compare_eq (a b : str) : str_compare a b = Eq <-> a = b.
Proof. apply list_compare_refl, ascii_compare_eq. Qed.

Lemma str_compare_opp (a b : str) : str_compare b a = CompOpp (str_compare a b).
Proof. apply list_compare_antisym; [apply ascii_compare_eq | apply ascii_compare_opp]. Qed.

Lemma str_compare_trans (a b c : str) (r : comparison) :
  str_compare a b = r -> str_compare b c = r -> str_compare a c = r.
Proof.
  apply list_compare_trans;
    [apply ascii_compare_eq | apply ascii_compare_trans | apply ascii_compare_opp].
Qed.




Section SortingFacts.
Variables (A K : Type) (key : A -> K) (ltb : K -> K -> bool).

Lemma insert_by_perm (x : A) (l : list A) :
  Permutation (x :: l) (insert_by key ltb x l).
Proof.
  induction l as [|y r IH]; simpl; [reflexivity|].
  destruct (ltb (key y) (key x)); [|reflexivity].
  rewrite perm_swap. now apply perm_skip.
Qed.

Lemma sorted_by_perm (l : list A) : Permutation l (sorted_by key ltb l).
Proof.
  induction l as [|x l IH]; simpl; [reflexivity|].
  rewrite <- insert_by_perm. now apply perm_skip.
Qed.


Lemma sorted_by_Forall (P : A -> Prop) (l : list A) :
  Forall P l -> Forall P (sorted_by key ltb l).
Proof.
  intros H. eapply Permutation_Forall; [apply sorted_by_perm | exact H].
Qed.

Lemma sorted_by_In (x : A) (l : list A) : In x (sorted_by key ltb l) <-> In x l.
Proof.
  split; apply Permutation_in; [symmetry|]; apply sorted_by_perm.
Qed.

Lemma sorted_by_NoDup (l : list A) : NoDup l -> NoDup (sorted_by key ltb l).
Proof. apply Permutation_NoDup, sorted_by_perm. Qed.

(** Sorting goes through a map that keeps the keys. *)
Lemma sorted_by_map (B : Type) (key' : B -> K) (f : A -> B) (l : list A) :
  (forall a, key' (f a) = key a) ->
  sorted_by key' ltb (map f l) = map f (sorted_by key ltb l).
Proof.
  intros Hk. induction l as [|x l IH]; simpl; [reflexivity|].
  rewrite IH. generalize (sorted_by key ltb l). intros s.
  induction s as [|y s IHs]; simpl; [reflexivity|].
  rewrite !Hk. destruct (ltb (key y) (key x)); [|reflexivity].
  now rewrite IHs.
Qed.

(** Two lists with the same keys at the same places are sorted alike. *)
Lemma sorted_by_Forall2 (B : Type) (key' : B -> K) (R : A -> B -> Prop)
  (l : list A) (l' : list B) :
  (forall a b, R a b -> key a = key' b) ->
  Forall2 R l l' ->
  Forall2 R (sorted_by key ltb l) (sorted_by key' ltb l').
Proof.
  intros Hk H. induction H as [|x x' l l' Hx Hl IH]; simpl; [constructor|].
  revert IH. generalize (sorted_by key ltb l) (sorted_by key' ltb l').
  intros s s' Hs. induction Hs as [|y y' s s' Hy Hs IHs]; simpl.
  - repeat constructor. exact Hx.
  - rewrite <- (Hk _ _ Hx), <- (Hk _ _ Hy).
    destruct (ltb (key y) (key x)); repeat (constructor; auto).
Qed.
End SortingFacts.


(** ** Lines of text *)

Lemma linebreak_isspace (c : ascii) : is_linebreak c = true -> isspace c = true.
Proof.
  destruct c as [[] [] [] [] [] [] [] []]; vm_compute; intros H;
    first [reflexivity | discriminate H].
Qed.

Lemma no_space_no_linebreak (s : str) : no_space s = true -> no_linebreak s = true.
Proof.
  unfold no_space, no_linebreak. rewrite !forallb_forall. intros H c Hc.
  specialize (H c Hc). destruct (is_linebreak c) eqn:E; [|reflexivity].
  apply linebreak_isspace in E. now rewrite E in H.
Qed.

Lemma no_linebreak_no_newline (s : str) : no_linebreak s = true -> no_newline s = true.
Proof.
  unfold no_newline, no_linebreak. rewrite !forallb_forall. intros H c Hc.
  specialize (H c Hc). destruct (Ascii.eqb_spec c "010"); [|reflexivity].
  subst c. discriminate H.
Qed.

Lemma last_app_nonempty (A : Type) (l p : list A) (d d' : A) :
  p <> [] -> last (l ++ p) d = last p d'.
Proof.
  intros Hp. destruct (exists_last Hp) as (q & x & ->).
  now rewrite app_assoc, !last_last.
Qed.

Lemma lstrip_by_keep (f : ascii -> bool) (c : ascii) (s : str) :
  f c = false -> lstrip_by f (c :: s) = c :: s.
Proof. intros H. simpl. now rewrite H. Qed.

Lemma rstrip_by_keep (f : ascii -> bool) (s : str) (c : ascii) :
  f c = false -> rstrip_by f (s ++ [c]) = s ++ [c].
Proof.
  intros H. unfold rstrip_by. rewrite rev_app_distr. simpl. rewrite H.
  change (c :: rev s) with (rev [c] ++ rev s).
  now rewrite <- rev_app_distr, rev_involutive.
Qed.

Lemma strip_id (s : str) : no_outer_space s = true -> strip s = s.
Proof.
  unfold no_outer_space, strip. destruct s as [|c r]; [discriminate|].
  intros H. apply andb_true_iff in H. destruct H as [H1 H2].
  apply negb_true_iff in H1, H2. rewrite lstrip_by_keep by exact H1.
  assert (N : c :: r <> []) by discriminate.
  rewrite (app_removelast_last c N). now apply rstrip_by_keep.
Qed.

(** The lines of a text made of lines without any line boundary, each
    ended by a line feed. *)
Lemma splitlines_line (l rest : str) :
  no_linebreak l = true -> splitlines (l ++ nl ++ rest) = l :: splitlines rest.
Proof.
  intros H. induction l as [|c l IH].
  - destruct rest; reflexivity.
  - simpl in H. apply andb_true_iff in H. destruct H as [Hc Hl].
    apply negb_true_iff in Hc.
    change ((c :: l) ++ nl ++ rest) with (c :: (l ++ nl ++ rest)).
    cbn [splitlines]. rewrite Hc. now rewrite (IH Hl).
Qed.

Lemma join_cons (sp x : str) (l : list str) :
  l <> [] -> join sp (x :: l) = x ++ sp ++ join sp l.
Proof. destruct l; [congruence | reflexivity]. Qed.

Lemma join_lines_cons (x : str) (l : list str) :
  join nl (x :: l) ++ nl
  = x ++ nl ++ match l with [] => [] | _ :: _ => join nl l ++ nl end.
Proof.
  destruct l as [|y l]; [reflexivity|].
  rewrite join_cons by discriminate. now rewrite <- !app_assoc.
Qed.

Lemma splitlines_joined (lines : list str) :
  lines <> [] ->
  Forall (fun l => no_linebreak l = true) lines ->
  splitlines (join nl lines ++ nl) = lines.
Proof.
  induction lines as [|x l IH]; [congruence|]. intros _ H.
  inversion H as [|? ? Hx Hl]; subst. rewrite join_lines_cons.
  rewrite splitlines_line by exact Hx. f_equal.
  destruct l as [|y l]; [reflexivity|]. apply IH; [discriminate | exact Hl].
Qed.

Lemma startswith_cons_neq (a c : ascii) (q s : str) :
  a <> c -> startswith (a :: q) (c :: s) = false.
Proof.
  intros N. cbn [startswith]. apply Ascii.eqb_neq in N. now rewrite N.
Qed.

(** The first pair of spaces after a digest without whitespace. *)
Lemma find_sub_after_digest (d p : str) :
  no_space d = true ->
  find_sub (lit "  ") (d ++ lit "  " ++ p) = Some (List.length d).
Proof.
  induction d as [|c d IH]; intros H; [reflexivity|].
  simpl in H. apply andb_true_iff in H. destruct H as [Hc Hd].
  apply negb_true_iff in Hc.
  change ((c :: d) ++ lit "  " ++ p) with (c :: (d ++ lit "  " ++ p)).
  cbn [find_sub]. change (lit "  ") with [" "; " "] at 1.
  rewrite startswith_cons_neq.
  - change [" "; " "] with (lit "  "). now rewrite (IH Hd).
  - intros <-. discriminate Hc.
Qed.

Lemma In_last (A : Type) (l : list A) (d : A) : l <> [] -> In (last l d) l.
Proof.
  intros N. destruct (exists_last N) as (q & x & ->). rewrite last_last.
  apply in_or_app. right. now left.
Qed.

Lemma no_space_no_outer_space (d : str) :
  d <> [] -> no_space d = true -> no_outer_space d = true.
Proof.
  intros N H. unfold no_space in H. rewrite forallb_forall in H.
  unfold no_outer_space. destruct d as [|c d]; [congruence|].
  rewrite (H c (or_introl eq_refl)). apply H, In_last. discriminate.
Qed.

Lemma no_outer_space_app (a m b : str) :
  no_outer_space a = true -> no_outer_space b = true ->
  no_outer_space (a ++ m ++ b) = true.
Proof.
  unfold no_outer_space. destruct a as [|c a]; [discriminate|].
  destruct b as [|x b]; [discriminate|]. intros Ha Hb.
  apply andb_true_iff in Ha, Hb. destruct Ha as [Ha _], Hb as [_ Hb].
  cbn [app]. apply andb_true_iff. split; [exact Ha|].
  replace (c :: a ++ m ++ x :: b) with (((c :: a) ++ m) ++ x :: b)
    by (now rewrite <- app_assoc).
  rewrite (@last_app_nonempty _ ((c :: a) ++ m) (x :: b) c x) by discriminate.
  exact Hb.
Qed.

(** A rendered line stands for its digest and path. *)
Lemma ledger_line_entry_rendered (d p : str) :
  digest_ok d = true -> no_outer_space p = true ->
  ledger_line_entry (d ++ lit "  " ++ p) = [(d, p)].
Proof.
  unfold digest_ok. intros Hd Hp. apply andb_true_iff in Hd.
  destruct Hd as [Hne Hd]. apply negb_true_iff, str_eqb_neq in Hne.
  pose proof (@no_space_no_outer_space d Hne Hd) as Hod.
  unfold ledger_line_entry.
  rewrite (@strip_id _ (@no_outer_space_app d (lit "  ") p Hod Hp)).
  rewrite find_sub_after_digest by exact Hd.
  destruct d as [|c d]; [congruence|]. cbn [app].
  change (c :: d ++ lit "  " ++ p) with ((c :: d) ++ lit "  " ++ p).
  rewrite firstn_app, Nat.sub_diag, firstn_all. cbn [firstn]. rewrite app_nil_r.
  rewrite skipn_app, skipn_all2 by lia.
  replace (List.length (c :: d) + 2 - List.length (c :: d)) with 2 by lia.
  cbn [skipn app lit list_ascii_of_string].
  now rewrite (@strip_id _ Hod), (@strip_id _ Hp).
Qed.

(** ** C9: the ledger, rendered and parsed *)

Section Ledger.
Context {rt : Runtime}.

Lemma checksum_lines_spec fs entries listed (acc : list str) :
  Forall2 (renders fs) entries listed ->
  for_each (checksum_line fs) entries acc
  = Ok (acc ++ map rendered_line listed).
Proof.
  intros H. revert acc.
  induction H as [|e x entries listed [Hp Hd] _ IH]; intros acc; simpl.
  - now rewrite app_nil_r.
  - destruct e as [zip_path local_path]. simpl in Hp, Hd. unfold checksum_line.
    rewrite Hd. simpl. rewrite IH, <- app_assoc. unfold rendered_line.
    now rewrite Hp.
Qed.

Lemma make_checksums_spec fs entries listed :
  Forall2 (renders fs) entries listed ->
  make_checksums_payload_only fs entries
  = Ok (join nl (map rendered_line (sorted_by fst str_ltb listed)) ++ nl).
Proof.
  intros H. unfold make_checksums_payload_only.
  rewrite (@checksum_lines_spec fs _ (sorted_by fst str_ltb listed)).
  - reflexivity.
  - apply sorted_by_Forall2; [|exact H]. now intros a b [Hk _].
Qed.

Lemma rendered_line_no_linebreak (x : str * str) :
  path_ok (fst x) = true -> digest_ok (snd x) = true ->
  no_linebreak (rendered_line x) = true.
Proof.
  unfold path_ok, digest_ok, rendered_line, no_linebreak. intros Hp Hd.
  apply andb_true_iff in Hp, Hd. destruct Hp as [_ Hp], Hd as [_ Hd].
  rewrite !forallb_app. apply no_space_no_linebreak in Hd.
  unfold no_linebreak in Hd, Hp. now rewrite Hd, Hp.
Qed.

Lemma parse_rendered (listed : list (str * str)) :
  Forall (fun x => path_ok (fst x) = true /\ digest_ok (snd x) = true) listed ->
  flat_map ledger_line_entry
    (splitlines (join nl (map rendered_line listed) ++ nl))
  = map swap listed.
Proof.
  intros H. destruct listed as [|x0 l0] eqn:E; [reflexivity|]. rewrite <- E in *.
  rewrite splitlines_joined.
  - clear E. induction H as [|x l [Hp Hd] _ IH]; [reflexivity|].
    cbn [map flat_map]. rewrite IH. unfold rendered_line at 1.
    rewrite ledger_line_entry_rendered; [reflexivity | exact Hd |].
    unfold path_ok in Hp. now apply andb_true_iff in Hp.
  - subst listed. discriminate.
  - apply Forall_map. eapply Forall_impl; [|exact H].
    intros x [Hp Hd]. now apply rendered_line_no_linebreak.
Qed.

(** C9, amended: for (archive path, digest) entries in which each path
    is non-empty, has no whitespace at either end and holds none of
    the line boundaries of [splitlines] (LF, VT, FF, CR, FS, GS, RS,
    NEL), and each digest is non-empty and without whitespace,
    parsing the rendered ledger returns exactly the (digest, path)
    pairs in ascending order of path. *)
Theorem ledger_roundtrip fs (entries : list (str * Path))
  (listed : list (str * str)) :
  Forall2 (renders fs) entries listed ->
  Forall (fun x => path_ok (fst x) = true /\ digest_ok (snd x) = true) listed ->
  exists text,
    make_checksums_payload_only fs entries = Ok text
    /\ parse_sha256sum text = Ok (map swap (sorted_by fst str_ltb listed)).
Proof.
  intros Hr Hok. eexists. split; [apply make_checksums_spec, Hr|].
  rewrite parse_sha256sum_total. f_equal. apply parse_rendered.
  now apply sorted_by_Forall.
Qed.
End Ledger.

(** C9, as stated, fails: the path [a<FF>b] has no line feed and no
    whitespace at its ends, yet the parser ends the line at the form
    feed and returns the path [a]. *)
Lemma ledger_roundtrip_breaks_at_form_feed :
  path_ok_claimed (lit "a" ++ ["012"] ++ lit "b") = true
  /\ digest_ok (sample_hexdigest (ascii_bytes "RIFF")) = true
  /\ renders sample_fs
       (lit "a" ++ ["012"] ++ lit "b", [lit "m"; lit "song.wav"])
       (lit "a" ++ ["012"] ++ lit "b", sample_hexdigest (ascii_bytes "RIFF"))
  /\ exists text,
       make_checksums_payload_only sample_fs
         [(lit "a" ++ ["012"] ++ lit "b", [lit "m"; lit "song.wav"])] = Ok text
       /\ parse_sha256sum text
          = Ok [(sample_hexdigest (ascii_bytes "RIFF"), lit "a")]
       /\ parse_sha256sum text
          <> Ok (map swap
                   (sorted_by fst str_ltb
                      [(lit "a" ++ ["012"] ++ lit "b",
                        sample_hexdigest (ascii_bytes "RIFF"))])).
Proof.
  split; [vm_compute; reflexivity|]. split; [vm_compute; reflexivity|].
  split; [split; vm_compute; reflexivity|].
  eexists. split; [vm_compute; reflexivity|].
  split; [vm_compute; reflexivity|]. vm_compute. discriminate.
Qed.

Lemma ledger_roundtrip_witness :
  exists text,
    make_checksums_payload_only sample_fs
      [(lit "payload/stems/vocals.wav", [lit "m"; lit "stems"; lit "vocals.wav"]);
       (lit "payload/audio/main.wav", [lit "m"; lit "song.wav"])] = Ok text
    /\ parse_sha256sum text
       = Ok [(sample_hexdigest (ascii_bytes "RIFF"), lit "payload/audio/main.wav");
             (sample_hexdigest (ascii_bytes "vv"), lit "payload/stems/vocals.wav")].
Proof.
  destruct (@ledger_roundtrip sample_runtime sample_fs
    [(lit "payload/stems/vocals.wav", [lit "m"; lit "stems"; lit "vocals.wav"]);
     (lit "payload/audio/main.wav", [lit "m"; lit "song.wav"])]
    [(lit "payload/stems/vocals.wav", sample_hexdigest (ascii_bytes "vv"));
     (lit "payload/audio/main.wav", sample_hexdigest (ascii_bytes "RIFF"))])
    as (text & Hm & Hp).
  - repeat constructor.
  - repeat constructor.
  - exists text. split; [exact Hm|]. rewrite Hp. vm_compute. reflexivity.
Defined.

(** ** C7: path normalization *)

Lemma split_char_nonempty (c : ascii) (s : str) : split_char c s <> [].
Proof.
  induction s as [|x r IH]; simpl; [discriminate|].
  destruct (Ascii.eqb x c); [discriminate|].
  destruct (split_char c r); [congruence | discriminate].
Qed.

(** No piece of a split holds the separator. *)
Lemma split_char_no_sep (c : ascii) (s piece : str) :
  In piece (split_char c s) -> ~ In c piece.
Proof.
  revert piece. induction s as [|x r IH]; simpl; intros piece H.
  - destruct H as [<-|[]]. intros [].
  - destruct (Ascii.eqb_spec x c) as [->|N].
    + destruct H as [<-|H]; [intros []|now apply IH].
    + destruct (split_char c r) as [|q qs] eqn:E.
      * destruct H as [<-|[]]. intros [?|[]]. congruence.
      * destruct H as [<-|H].
        -- intros [?|Hin]; [congruence|]. revert Hin. apply IH. now left.
        -- apply IH. now right.
Qed.

(** Splitting a text at a separator splits it there. *)
Lemma split_char_app_sep (c : ascii) (x y : str) :
  ~ In c x -> split_char c (x ++ c :: y) = x :: split_char c y.
Proof.
  induction x as [|a x IH]; intros N; simpl.
  - now rewrite Ascii.eqb_refl.
  - destruct (Ascii.eqb_spec a c) as [->|Na]; [exfalso; apply N; now left|].
    rewrite IH; [reflexivity|]. intros H. apply N. now right.
Qed.

Lemma split_char_none (c : ascii) (x : str) : ~ In c x -> split_char c x = [x].
Proof.
  induction x as [|a x IH]; intros N; simpl; [reflexivity|].
  destruct (Ascii.eqb_spec a c) as [->|Na]; [exfalso; apply N; now left|].
  rewrite IH; [reflexivity|]. intros H. apply N. now right.
Qed.

(** A text splits at a separator into the pieces of what is before it
    and the pieces of what is after it. *)
Lemma split_char_app (c : ascii) (x y : str) :
  split_char c (x ++ c :: y) = split_char c x ++ split_char c y.
Proof.
  induction x as [|a x IH]; simpl.
  - now rewrite Ascii.eqb_refl.
  - destruct (Ascii.eqb a c); [now rewrite IH|]. rewrite IH.
    destruct (split_char c x) as [|q qs] eqn:E;
      [now destruct (split_char_nonempty c x)|]. reflexivity.
Qed.

(** A joined list of pieces without the separator splits back. *)
Lemma split_char_join (c : ascii) (comps : list str) :
  comps <> [] -> Forall (fun x => ~ In c x) comps ->
  split_char c (join [c] comps) = comps.
Proof.
  induction comps as [|x l IH]; [congruence|]. intros _ H.
  inversion H as [|? ? Hx Hl]; subst. destruct l as [|y l].
  - simpl. now apply split_char_none.
  - rewrite join_cons by discriminate. cbn [app].
    rewrite split_char_app, split_char_none by exact Hx.
    cbn [app]. f_equal. apply IH; [discriminate | exact Hl].
Qed.

Lemma proper_segment_intro (comp : str) :
  str_eqb comp [] = false -> str_eqb comp dot = false ->
  str_eqb comp dotdot = false -> ~ In "/" comp -> proper_segment comp.
Proof.
  intros H1 H2 H3 H4. apply str_eqb_neq in H1, H2, H3. now repeat split.
Qed.

Lemma last_repeat (x : str) (k : nat) (d : str) : last (repeat x (S k)) d = x.
Proof.
  induction k as [|k IH]; [reflexivity|].
  change (repeat x (S (S k))) with (x :: repeat x (S k)).
  change (last (x :: repeat x (S k)) d) with (last (repeat x (S k)) d). exact IH.
Qed.

Lemma normpath_step_inv (slashes : nat) (D : Prop) (nc : list str) (comp : str) :
  ~ In "/" comp -> (comp = dotdot -> D) ->
  normal_form slashes D nc -> normal_form slashes D (normpath_step slashes nc comp).
Proof.
  intros Hs Hd (k & rest & -> & Hrest & Hk). unfold normpath_step.
  destruct (str_eqb comp []) eqn:E1; [exists k, rest; auto|].
  destruct (str_eqb comp dot) eqn:E2; [exists k, rest; auto|]. cbn [orb].
  destruct (str_eqb comp dotdot) eqn:E3; cbn [negb orb].
  2:{ exists k, (rest ++ [comp]). rewrite app_assoc. split; [reflexivity|].
      split; [|exact Hk]. apply Forall_app. split; [exact Hrest|].
      constructor; [|constructor]. now apply proper_segment_intro. }
  apply str_eqb_eq in E3. subst comp.
  destruct rest as [|r0 rest0] eqn:Er.
  - rewrite app_nil_r. destruct k as [|k].
    + cbn [repeat]. rewrite andb_true_r, orb_false_r.
      destruct (Nat.eqb slashes 0) eqn:Es.
      * exists 1, []. apply Nat.eqb_eq in Es. repeat split; auto.
      * exists 0, []. repeat split; auto. lia.
    + replace (match repeat dotdot (S k) with [] => true | _ :: _ => false end)
        with false by reflexivity.
      rewrite andb_false_r. cbn [orb].
      replace (match repeat dotdot (S k) with
               | [] => false
               | _ :: _ => str_eqb (last (repeat dotdot (S k)) []) dotdot
               end) with true by (now rewrite last_repeat).
      exists (S (S k)), []. rewrite app_nil_r. split.
      * change (repeat dotdot (S (S k))) with (dotdot :: repeat dotdot (S k)).
        now rewrite repeat_cons.
      * split; [constructor|]. intros _. apply Hk. lia.
  - rewrite <- Er in *. assert (Hne : rest <> []) by (subst; discriminate).
    destruct (exists_last Hne) as (rest' & x & Ex). rewrite Ex in *.
    apply Forall_app in Hrest. destruct Hrest as [Hr' Hx].
    inversion Hx as [|? ? (_ & _ & Hxd & _) _]; subst.
    rewrite app_assoc.
    destruct ((repeat dotdot k ++ rest') ++ [x]) as [|y l] eqn:El;
      [now destruct (app_cons_not_nil _ _ _ (eq_sym El))|].
    rewrite <- El, last_last. rewrite andb_false_r. cbn [orb].
    apply str_eqb_neq in Hxd. rewrite Hxd. rewrite removelast_last.
    exists k, rest'. auto.
Qed.

Lemma normpath_fold_inv (slashes : nat) (D : Prop) (comps nc : list str) :
  Forall (fun c => ~ In "/" c) comps -> (In dotdot comps -> D) ->
  normal_form slashes D nc ->
  normal_form slashes D (fold_left (normpath_step slashes) comps nc).
Proof.
  revert nc. induction comps as [|c comps IH]; intros nc Hs Hd Hn; [exact Hn|].
  inversion Hs; subst. simpl. apply IH; auto.
  - intros H. apply Hd. now right.
  - apply normpath_step_inv; auto. intros ->. apply Hd. now left.
Qed.

(** A text that does not begin with a slash is what [lstrip("/")] leaves
    of it. *)
Lemma lstrip_sep_keep (c : ascii) (s : str) :
  c <> "/" -> lstrip_chars sep (c :: s) = c :: s /\ startswith sep (c :: s) = false.
Proof.
  intros N. unfold lstrip_chars, sep. cbn [lit list_ascii_of_string].
  split.
  - apply lstrip_by_keep. cbn [existsb]. apply Ascii.eqb_neq in N. now rewrite N.
  - apply startswith_cons_neq. congruence.
Qed.

Lemma lstrip_sep_slashes (n : nat) (s : str) :
  lstrip_chars sep (concat (repeat sep n) ++ s) = lstrip_chars sep s.
Proof. induction n as [|n IH]; [reflexivity | exact IH]. Qed.

Lemma join_head (c : ascii) (x : str) (l : list str) :
  exists s, join sep ((c :: x) :: l) = c :: s.
Proof. destruct l; simpl; eauto. Qed.

Lemma join_normal_form_head (k : nat) (rest : list str) :
  Forall proper_segment rest ->
  join sep (repeat dotdot k ++ rest) = []
  \/ exists c s, join sep (repeat dotdot k ++ rest) = c :: s /\ c <> "/".
Proof.
  intros H. destruct k as [|k].
  - destruct H as [|x l (Hne & _ & _ & Hs) _]; [now left|]. right.
    destruct x as [|c x]; [congruence|].
    destruct (join_head c x l) as (s & Hj). exists c, s. split; [exact Hj|].
    intros ->. apply Hs. now left.
  - right. destruct (join_head "." ["."] (repeat dotdot k ++ rest)) as (s & Hj).
    exists ".", s. split; [exact Hj | discriminate].
Qed.

Lemma endswith_sep (path : str) :
  endswith sep path = true -> exists x, path = x ++ ["/"].
Proof.
  unfold endswith, sep. cbn [lit list_ascii_of_string rev app].
  destruct (rev path) as [|c y] eqn:E; [discriminate|]. cbn [startswith].
  rewrite andb_true_r. intros H. apply Ascii.eqb_eq in H. subst c.
  exists (rev y). rewrite <- (rev_involutive path), E. reflexivity.
Qed.

Lemma join_step_components (path b c : str) :
  In c (split_char "/" (join_step path b)) ->
  In c (split_char "/" path) \/ In c (split_char "/" b).
Proof.
  unfold join_step. destruct (startswith sep b); [now right|].
  destruct path as [|p0 path0] eqn:Ep; [now right|]. rewrite <- Ep. cbn [orb].
  destruct (endswith sep path) eqn:Ee.
  - apply endswith_sep in Ee. destruct Ee as (x & ->). rewrite <- app_assoc.
    cbn [app]. rewrite split_char_app.
    replace (x ++ ["/"]) with (x ++ "/" :: []) by reflexivity.
    rewrite split_char_app. intros H. apply in_app_or in H.
    destruct H; [left; apply in_or_app; now left | now right].
  - unfold sep. cbn [lit list_ascii_of_string app]. rewrite split_char_app.
    apply in_app_or.
Qed.

Lemma posix_join_components (p : list str) (a c : str) :
  In c (split_char "/" (posix_join a p)) ->
  exists part, In part (a :: p) /\ In c (split_char "/" part).
Proof.
  unfold posix_join. revert a. induction p as [|b p IH]; intros a; simpl.
  - intros H. exists a. auto.
  - intros H. apply IH in H. destruct H as (part & [<-|Hp] & Hc).
    + apply join_step_components in Hc. destruct Hc; eauto.
    + eauto.
Qed.

(** [normpath] leaves the text in normal form behind its slashes. *)
Lemma normpath_spec (path : str) :
  normpath path = dot
  \/ exists k rest,
       normpath path
       = concat (repeat sep (initial_slashes path))
         ++ join sep (repeat dotdot k ++ rest)
       /\ Forall proper_segment rest
       /\ (0 < k -> In dotdot (split_char "/" path)).
Proof.
  unfold normpath. destruct path as [|c0 path0] eqn:Ep; [now left|].
  rewrite <- Ep. clear Ep c0 path0.
  assert (N : normal_form (initial_slashes path) (In dotdot (split_char "/" path))
                (fold_left (normpath_step (initial_slashes path))
                   (split_char "/" path) [])).
  { apply normpath_fold_inv.
    - apply Forall_forall. intros piece. apply split_char_no_sep.
    - auto.
    - exists 0, []. repeat split; [constructor | lia | lia]. }
  destruct N as (k & rest & -> & Hrest & Hk).
  destruct (concat _ ++ join sep _) eqn:E; [now left|]. right.
  exists k, rest. rewrite E. split; [reflexivity|]. split; [exact Hrest|].
  intros Hpos. now apply Hk.
Qed.

(** C7, amended: for parts that are not empty as a sequence,
    [normalize_zip_path] returns a path that does not begin with a
    slash and is either [.] alone or the join by slashes of a run of
    [..] and then segments that are non-empty, hold no slash and are
    neither [.] nor [..]; the run of [..] is empty unless some part has
    a [..] segment of its own; without parts the call raises. *)
Theorem normalize_zip_path_spec (a : str) (p : list str) :
  exists r,
    normalize_zip_path (a :: p) = Ok r
    /\ startswith sep r = false
    /\ (r = dot
        \/ exists k rest,
             r = join sep (repeat dotdot k ++ rest)
             /\ Forall proper_segment rest
             /\ (0 < k ->
                 exists part, In part (a :: p) /\ In dotdot (segments part)))
    /\ normalize_zip_path [] = Raise TypeError.
Proof.
  eexists. split; [reflexivity|].
  destruct (normpath_spec (posix_join a p)) as [->|(k & rest & -> & Hrest & Hk)].
  - split; [reflexivity|]. split; [now left | reflexivity].
  - rewrite lstrip_sep_slashes.
    destruct (join_normal_form_head k Hrest) as [E|(c & s & E & Nc)]; rewrite E.
    + split; [reflexivity|]. split; [|reflexivity]. right. exists k, rest.
      split; [now rewrite E|]. split; [exact Hrest|].
      intros Hpos. now apply posix_join_components, Hk.
    + destruct (lstrip_sep_keep s Nc) as [-> ->].
      split; [reflexivity|]. split; [|reflexivity]. right. exists k, rest.
      split; [now rewrite E|]. split; [exact Hrest|].
      intros Hpos. now apply posix_join_components, Hk.
Qed.

(** C7, as stated, fails: a leading [..] stays in the result, and a part
    with [..] segments leaves the directory named by the parts before
    it. *)
Lemma normalize_zip_path_keeps_dotdot :
  normalize_zip_path [lit ".."; lit "x"] = Ok (lit "../x")
  /\ In dotdot (segments (lit "../x"))
  /\ normalize_zip_path [lit "payload"; lit "stems"; lit "../../metadata/manifest.json"]
     = Ok (lit "metadata/manifest.json")
  /\ normalize_zip_path [lit "a"; lit ".."] = Ok dot
  /\ In dot (segments dot).
Proof.
  split; [vm_compute; reflexivity|]. split; [vm_compute; now left|].
  split; [vm_compute; reflexivity|]. split; [vm_compute; reflexivity|].
  vm_compute. now left.
Qed.

(** ** Paths made of proper segments are left as they are *)

Lemma endswith_sep_false (x : str) (c : ascii) :
  c <> "/" -> endswith sep (x ++ [c]) = false.
Proof.
  intros N. unfold endswith. rewrite rev_app_distr.
  apply startswith_cons_neq. congruence.
Qed.

Lemma proper_segment_last (b : str) :
  proper_segment b -> exists x c, b = x ++ [c] /\ c <> "/".
Proof.
  intros (Hne & _ & _ & Hs). destruct (exists_last Hne) as (x & c & ->).
  exists x, c. split; [reflexivity|]. intros ->. apply Hs, in_or_app. right. now left.
Qed.

Lemma proper_segment_head (b : str) :
  proper_segment b -> exists c x, b = c :: x /\ c <> "/".
Proof.
  intros (Hne & _ & _ & Hs). destruct b as [|c x]; [congruence|].
  exists c, x. split; [reflexivity|]. intros ->. apply Hs. now left.
Qed.

Lemma join_step_proper (acc b : str) :
  acc <> [] -> endswith sep acc = false -> proper_segment b ->
  join_step acc b = acc ++ sep ++ b.
Proof.
  intros Hne He Hb. unfold join_step.
  destruct (proper_segment_head Hb) as (c & x & -> & Nc).
  destruct (lstrip_sep_keep x Nc) as [_ ->]. rewrite He.
  destruct acc; [congruence | reflexivity].
Qed.

Lemma fold_join_step_proper (p : list str) (acc : str) :
  acc <> [] -> endswith sep acc = false -> Forall proper_segment p ->
  fold_left join_step p acc = join sep (acc :: p).
Proof.
  revert acc. induction p as [|b p IH]; intros acc Hne He H; [reflexivity|].
  inversion H as [|? ? Hb Hp]; subst. cbn [fold_left].
  rewrite join_step_proper by assumption. rewrite IH.
  - destruct p as [|c p]; [reflexivity|].
    rewrite !join_cons by discriminate. now rewrite <- !app_assoc.
  - destruct acc; [congruence | discriminate].
  - destruct (proper_segment_last Hb) as (x & c & -> & Nc).
    rewrite !app_assoc. now apply endswith_sep_false.
  - exact Hp.
Qed.

Lemma posix_join_proper (a : str) (p : list str) :
  Forall proper_segment (a :: p) -> posix_join a p = join sep (a :: p).
Proof.
  intros H. inversion H as [|? ? Ha Hp]; subst. unfold posix_join.
  apply fold_join_step_proper; [now destruct Ha | | exact Hp].
  destruct (proper_segment_last Ha) as (x & c & -> & Nc).
  now apply endswith_sep_false.
Qed.

Lemma fold_normpath_step_proper (slashes : nat) (comps acc : list str) :
  Forall proper_segment comps ->
  fold_left (normpath_step slashes) comps acc = acc ++ comps.
Proof.
  revert acc. induction comps as [|c comps IH]; intros acc H;
    [now rewrite app_nil_r|].
  inversion H as [|? ? (H1 & H2 & H3 & _) Hp]; subst. cbn [fold_left].
  unfold normpath_step at 2. apply str_eqb_neq in H1, H2, H3.
  rewrite H1, H2, H3. cbn [orb negb]. rewrite IH by exact Hp.
  now rewrite <- app_assoc.
Qed.

Lemma normpath_nonempty (path : str) :
  path <> [] ->
  normpath path
  = match concat (repeat sep (initial_slashes path))
          ++ join sep (fold_left (normpath_step (initial_slashes path))
                         (split_char "/" path) []) with
    | [] => dot
    | c :: s => c :: s
    end.
Proof.
  destruct path as [|c0 path0] eqn:E; [congruence|]. rewrite <- E. intros _.
  unfold normpath. rewrite E at 1. cbv zeta.
  destruct (concat _ ++ join sep _); reflexivity.
Qed.

Lemma normpath_proper (comps : list str) :
  comps <> [] -> Forall proper_segment comps ->
  normpath (join sep comps) = join sep comps.
Proof.
  intros Hne H. destruct comps as [|a p]; [congruence|].
  inversion H as [|? ? Ha Hp]; subst.
  destruct (proper_segment_head Ha) as (c & x & -> & Nc).
  destruct (join_head c x p) as (s & Ej).
  rewrite normpath_nonempty by (rewrite Ej; discriminate).
  assert (Es : initial_slashes (join sep ((c :: x) :: p)) = 0).
  { rewrite Ej. unfold initial_slashes.
    now destruct (lstrip_sep_keep s Nc) as [_ ->]. }
  rewrite Es. change sep with ["/"] at 2. rewrite split_char_join.
  - rewrite fold_normpath_step_proper by exact H. cbn [repeat concat app].
    change ["/"] with sep. now rewrite Ej.
  - discriminate.
  - eapply Forall_impl; [|exact H]. now intros b (_ & _ & _ & Hs).
Qed.

(** On proper segments [normalize_zip_path] is the join by slashes. *)
Lemma normalize_zip_path_proper (a : str) (p : list str) :
  Forall proper_segment (a :: p) ->
  normalize_zip_path (a :: p) = Ok (join sep (a :: p)).
Proof.
  intros H. unfold normalize_zip_path.
  rewrite posix_join_proper, normpath_proper by (assumption || discriminate).
  f_equal. inversion H as [|? ? Ha Hp]; subst.
  destruct (proper_segment_head Ha) as (c & x & -> & Nc).
  destruct (join_head c x p) as (s & ->). now apply lstrip_sep_keep.
Qed.

(** ** Archive paths of the payload *)

Lemma plain_spec (s : str) :
  plain s = true <-> ~ In "/" s /\ ~ In "000" s.
Proof.
  unfold plain. rewrite forallb_forall. split.
  - intros H. split; intros Hin; specialize (H _ Hin); discriminate.
  - intros [H1 H2] c Hc. apply andb_true_iff. split; apply negb_true_iff.
    + destruct (Ascii.eqb_spec c "/"); [subst; contradiction | reflexivity].
    + destruct (Ascii.eqb_spec c "000"); [subst; contradiction | reflexivity].
Qed.

Lemma plain_app (a b : str) : plain (a ++ b) = plain a && plain b.
Proof. apply forallb_app. Qed.

Lemma plain_skipn (n : nat) (s : str) : plain s = true -> plain (skipn n s) = true.
Proof.
  intros H. rewrite <- (firstn_skipn n s), plain_app in H.
  now apply andb_true_iff in H.
Qed.

Lemma plain_lstrip (f : ascii -> bool) (s : str) :
  plain s = true -> plain (lstrip_by f s) = true.
Proof.
  induction s as [|c s IH]; simpl; [auto|]. intros H.
  destruct (f c); [|exact H]. apply IH. now apply andb_true_iff in H.
Qed.

Lemma char_lower_plain (c : ascii) :
  negb (Ascii.eqb c "/") && negb (Ascii.eqb c "000") = true ->
  negb (Ascii.eqb (char_lower c) "/") && negb (Ascii.eqb (char_lower c) "000") = true.
Proof.
  destruct c as [[] [] [] [] [] [] [] []]; vm_compute; intros H; exact H.
Qed.

Lemma plain_lower (s : str) : plain s = true -> plain (lower s) = true.
Proof.
  unfold plain, lower. rewrite !forallb_forall. intros H c Hc.
  apply in_map_iff in Hc. destruct Hc as (x & <- & Hx).
  now apply char_lower_plain, H.
Qed.

Lemma plain_name_suffix (name : str) :
  plain name = true -> plain (name_suffix name) = true.
Proof.
  intros H. unfold name_suffix. destruct (rfind "." name); [|reflexivity].
  destruct (_ && _); [now apply plain_skipn | reflexivity].
Qed.

Lemma valid_name_spec (n : str) :
  valid_name n = true -> proper_segment n /\ plain n = true.
Proof.
  unfold valid_name. rewrite !andb_true_iff, !negb_true_iff, !str_eqb_neq.
  intros [[[H1 H2] H3] H4]. split; [|exact H4].
  repeat split; auto. now apply plain_spec in H4.
Qed.

Lemma until_nul_id (s : str) : ~ In "000" s -> until_nul s = s.
Proof.
  induction s as [|c s IH]; [reflexivity|]. intros N. simpl.
  destruct (Ascii.eqb_spec c "000") as [->|_]; [exfalso; apply N; now left|].
  rewrite IH; [reflexivity|]. intros H. apply N. now right.
Qed.

Lemma In_join (c : ascii) (sp : str) (l : list str) :
  In c (join sp l) -> In c sp \/ exists x, In x l /\ In c x.
Proof.
  induction l as [|x l IH]; [intros []|].
  destruct l as [|y l].
  - simpl. intros H. right. exists x. auto.
  - rewrite join_cons by discriminate. intros H.
    apply in_app_or in H. destruct H as [H|H]; [right; exists x; simpl; auto|].
    apply in_app_or in H. destruct H as [H|H]; [now left|].
    destruct (IH H) as [?|(z & Hz & Hc)]; [now left|].
    right. exists z. split; [now right | exact Hc].
Qed.

Lemma audio_zip_path_no_nul (ext : str) :
  plain ext = true ->
  until_nul (lit "payload/audio/main." ++ ext) = lit "payload/audio/main." ++ ext.
Proof.
  intros Hext. apply until_nul_id. apply plain_spec in Hext.
  destruct Hext as [_ Hn0]. intros Hin. apply in_app_or in Hin.
  destruct Hin as [Hin|Hin]; [simpl in Hin; intuition discriminate | auto].
Qed.

(** The archive path of the audio: below [payload/audio/], with the
    lowercased extension of the file or [wav]. *)
Lemma audio_zip_path_spec (audio : Path) :
  forallb valid_name audio = true ->
  exists ext,
    plain ext = true
    /\ audio_zip_path_of audio = Ok (lit "payload/audio/main." ++ ext).
Proof.
  intros Hv. unfold audio_zip_path_of.
  set (ext := or_default (lstrip_chars dot (lower (path_suffix audio))) (lit "wav")).
  assert (Hp : plain ext = true).
  { subst ext. unfold or_default.
    destruct (lstrip_chars dot (lower (path_suffix audio))) eqn:E; [reflexivity|].
    rewrite <- E. apply plain_lstrip, plain_lower, plain_name_suffix.
    unfold path_name. destruct audio as [|n0 rest]; [reflexivity|].
    rewrite forallb_forall in Hv. apply valid_name_spec, Hv, In_last. discriminate. }
  exists ext. split; [exact Hp|].
  rewrite normalize_zip_path_proper; [reflexivity|].
  apply plain_spec in Hp. destruct Hp as [Hs _].
  repeat constructor; try discriminate;
    intros H; simpl in H; intuition discriminate.
Qed.

Lemma is_strict_prefix_spec (root f : Path) :
  is_strict_prefix root f = true ->
  f = root ++ skipn (List.length root) f /\ skipn (List.length root) f <> [].
Proof.
  revert f. induction root as [|x root IH]; intros [|y f]; simpl; try discriminate.
  - intros _. split; [reflexivity | discriminate].
  - intros H. apply andb_true_iff in H. destruct H as [Hx Hf].
    apply str_eqb_eq in Hx. subst y. destruct (IH _ Hf) as [E N].
    split; [now rewrite <- E | exact N].
Qed.

Lemma relative_to_strict (root f : Path) :
  is_strict_prefix root f = true ->
  relative_to f root = Ok (skipn (List.length root) f).
Proof.
  revert f. induction root as [|x root IH]; intros [|y f]; simpl; try discriminate;
    [reflexivity|].
  intros H. apply andb_true_iff in H. destruct H as [Hx Hf].
  apply str_eqb_eq in Hx. subst y. rewrite str_eqb_refl. now apply IH.
Qed.

Lemma replace_os_sep (s : str) : replace_char os_sep "/" s = s.
Proof.
  unfold replace_char, os_sep. induction s as [|c s IH]; [reflexivity|].
  simpl. rewrite IH. now destruct (Ascii.eqb_spec c "/") as [->|].
Qed.

Lemma join_step_rel (acc : str) (c : ascii) (s : str) :
  acc <> [] -> endswith sep acc = false -> c <> "/" ->
  join_step acc (c :: s) = acc ++ sep ++ c :: s.
Proof.
  intros Hne He Nc. unfold join_step.
  destruct (lstrip_sep_keep s Nc) as [_ ->]. rewrite He.
  destruct acc; [congruence | reflexivity].
Qed.

(** A relative path of proper segments goes below [payload/stems/]
    unchanged. *)
Lemma normalize_stems (rel : Path) :
  rel <> [] -> Forall proper_segment rel ->
  normalize_zip_path [lit "payload"; lit "stems"; join sep rel]
  = Ok (lit "payload/stems/" ++ join sep rel).
Proof.
  intros Hne H.
  assert (Hall : Forall proper_segment (lit "payload" :: lit "stems" :: rel)).
  { repeat constructor; try discriminate; try exact H;
      intros Hin; simpl in Hin; intuition discriminate. }
  assert (Ej : join sep (lit "payload" :: lit "stems" :: rel)
               = lit "payload/stems/" ++ join sep rel).
  { destruct rel; [congruence | reflexivity]. }
  assert (Hh : exists c s, join sep rel = c :: s /\ c <> "/").
  { destruct H as [|r0 rel0 Hp _]; [congruence|].
    destruct (proper_segment_head Hp) as (c1 & x1 & -> & Nc).
    destruct (join_head c1 x1 rel0) as (s1 & ->). eauto. }
  destruct Hh as (c & s & Eh & Nc).
  unfold normalize_zip_path, posix_join. cbn [fold_left].
  change (join_step (lit "payload") (lit "stems")) with (lit "payload/stems").
  rewrite Eh. rewrite join_step_rel by (discriminate || reflexivity || exact Nc).
  rewrite <- Eh.
  change (lit "payload/stems" ++ sep ++ join sep rel)
    with (lit "payload/stems/" ++ join sep rel).
  rewrite <- Ej. rewrite normpath_proper by (discriminate || exact Hall).
  rewrite Ej. reflexivity.
Qed.

Lemma valid_names_proper (p : Path) :
  forallb valid_name p = true -> Forall proper_segment p.
Proof.
  rewrite forallb_forall. intros H. apply Forall_forall. intros n Hn.
  now apply valid_name_spec, H.
Qed.

Lemma stem_entry_spec (root f : Path) (acc : list (str * Path)) :
  is_strict_prefix root f = true -> forallb valid_name f = true ->
  stem_entry root acc f = Ok (acc ++ [(stem_zip_path root f, f)]).
Proof.
  intros Hp Hv. unfold stem_entry. rewrite relative_to_strict by exact Hp.
  destruct (is_strict_prefix_spec _ _ Hp) as [E N]. cbn [bind].
  rewrite replace_os_sep. unfold rel_str.
  destruct (skipn (List.length root) f) as [|r0 rel0] eqn:Er; [congruence|].
  rewrite <- Er in *. rewrite normalize_stems; [reflexivity | exact N |].
  apply valid_names_proper in Hv. rewrite E in Hv.
  now apply Forall_app in Hv.
Qed.

Lemma stems_loop_spec (root : Path) (l : list Path) (acc : list (str * Path)) :
  Forall (fun f => is_strict_prefix root f = true /\ forallb valid_name f = true) l ->
  for_each (stem_entry root) l acc
  = Ok (acc ++ map (fun f => (stem_zip_path root f, f)) l).
Proof.
  intros H. revert acc. induction H as [|f l [Hp Hv] _ IH]; intros acc; simpl.
  - now rewrite app_nil_r.
  - rewrite stem_entry_spec by assumption. cbn [bind].
    now rewrite IH, <- app_assoc.
Qed.

Lemma iter_files_recursive_In (fs : filesystem) (root f : Path) :
  In f (iter_files_recursive fs root) ->
  In f (map fst fs) /\ is_strict_prefix root f = true /\ is_file fs f = true.
Proof.
  unfold iter_files_recursive, rglob. intros H.
  apply filter_In in H. destruct H as [H Hf].
  apply sorted_by_In, filter_In in H. tauto.
Qed.

Lemma iter_files_recursive_NoDup (fs : filesystem) (root : Path) :
  NoDup (map fst fs) -> NoDup (iter_files_recursive fs root).
Proof.
  intros H. unfold iter_files_recursive, rglob.
  now apply NoDup_filter, sorted_by_NoDup, NoDup_filter.
Qed.

(** The payload entries of the stems under a well-formed file system. *)
Lemma stems_files_of_spec (fs : filesystem) (stems : option Path) :
  wf_fs fs ->
  stems_files_of fs stems
  = Ok match stems with
       | Some root => map (fun f => (stem_zip_path root f, f))
                        (iter_files_recursive fs root)
       | None => []
       end.
Proof.
  intros [_ Hv]. destruct stems as [root|]; [|reflexivity]. simpl.
  apply (@stems_loop_spec root _ []). apply Forall_forall. intros f Hf.
  apply iter_files_recursive_In in Hf. destruct Hf as (Hin & Hp & _).
  split; [exact Hp|]. rewrite Forall_forall in Hv. now apply Hv.
Qed.

(** ** C10: no archive path is written twice *)

Lemma distinct_NoDup (l : list str) : distinct l = true -> NoDup l.
Proof.
  induction l as [|x r IH]; simpl; intros H; constructor.
  - apply andb_true_iff in H. destruct H as [H _]. apply negb_true_iff in H.
    intros Hin. assert (E : existsb (str_eqb x) r = true).
    { apply existsb_exists. exists x. split; [exact Hin | apply str_eqb_refl]. }
    congruence.
  - apply IH. now apply andb_true_iff in H.
Qed.

Lemma fixed_names_facts (opts : ConvertOptions) :
  NoDup (fixed_names opts)
  /\ map until_nul (fixed_names opts) = fixed_names opts
  /\ Forall (fun n => startswith (lit "payload/") n = false) (fixed_names opts).
Proof.
  unfold fixed_names, optional_names.
  destruct (prompt_path opts), (negative_prompt_path opts), (lyrics_path opts),
    (persona_path opts), (declaration_path opts);
    (split; [apply distinct_NoDup; vm_compute; reflexivity|]);
    (split; [vm_compute; reflexivity|]); repeat constructor.
Qed.

Lemma fs_lookup_In (fs : filesystem) (p : Path) (n : node) :
  fs_lookup fs p = Some n -> In p (map fst fs).
Proof.
  induction fs as [|[q m] fs IH]; simpl; [discriminate|].
  destruct (path_eqb q p) eqn:E; [|auto].
  intros _. left. now apply path_eqb_eq.
Qed.

Lemma is_file_In (fs : filesystem) (p : Path) :
  is_file fs p = true -> In p (map fst fs).
Proof.
  unfold is_file. destruct (fs_lookup fs p) as [n|] eqn:E; [|discriminate].
  intros _. eapply fs_lookup_In; eassumption.
Qed.

Lemma stem_zip_path_inj (root f1 f2 : Path) :
  is_strict_prefix root f1 = true -> forallb valid_name f1 = true ->
  is_strict_prefix root f2 = true -> forallb valid_name f2 = true ->
  stem_zip_path root f1 = stem_zip_path root f2 -> f1 = f2.
Proof.
  intros P1 V1 P2 V2 E. unfold stem_zip_path in E. apply app_inv_head in E.
  destruct (is_strict_prefix_spec _ _ P1) as [E1 N1].
  destruct (is_strict_prefix_spec _ _ P2) as [E2 N2].
  assert (S : forall f, forallb valid_name f = true ->
              f = root ++ skipn (List.length root) f ->
              Forall (fun x => ~ In "/" x) (skipn (List.length root) f)).
  { intros f V Ef. apply valid_names_proper in V. rewrite Ef in V.
    apply Forall_app in V. destruct V as [_ V].
    eapply Forall_impl; [|exact V]. now intros x (_ & _ & _ & Hs). }
  apply (f_equal (split_char "/")) in E. change sep with ["/"] in E.
  rewrite !split_char_join in E by auto. rewrite E1, E2. now rewrite E.
Qed.

Lemma stem_zip_path_no_nul (root f : Path) :
  forallb valid_name f = true -> until_nul (stem_zip_path root f) = stem_zip_path root f.
Proof.
  intros V. apply until_nul_id. unfold stem_zip_path. intros H.
  apply in_app_or in H. destruct H as [H|H]; [simpl in H; intuition discriminate|].
  apply In_join in H. destruct H as [H|(x & Hx & Hc)];
    [simpl in H; intuition discriminate|].
  rewrite forallb_forall in V.
  assert (Hv : valid_name x = true).
  { apply V. rewrite <- (firstn_skipn (List.length root) f).
    apply in_or_app. now right. }
  apply valid_name_spec in Hv. destruct Hv as [_ Hp].
  apply plain_spec in Hp. now destruct Hp.
Qed.

Lemma NoDup_map_on (A B : Type) (g : A -> B) (l : list A) :
  NoDup l -> (forall x y, In x l -> In y l -> g x = g y -> x = y) ->
  NoDup (map g l).
Proof.
  induction 1 as [|x l Hx Hl IH]; intros Hg; simpl; constructor.
  - intros Hin. apply in_map_iff in Hin. destruct Hin as (y & Ey & Hy).
    apply Hx. rewrite (Hg x y); auto; [now left | now right].
  - apply IH. intros a b Ha Hb. apply Hg; now right.
Qed.

Lemma startswith_app (p q s : str) :
  startswith (p ++ q) s = true -> startswith p s = true.
Proof.
  revert s. induction p as [|a p IH]; intros s; [reflexivity|].
  destruct s as [|b s]; simpl; [discriminate|].
  rewrite !andb_true_iff. intros [H1 H2]. split; [exact H1 | now apply IH].
Qed.

Section NoDuplicates.
Context {rt : Runtime}.

Lemma check_inputs_audio fs opts :
  check_inputs fs opts = Ok tt -> is_file fs (audio_path opts) = true.
Proof.
  unfold check_inputs. intros H. bind_inv H. bind_inv H.
  destruct (is_file fs (audio_path opts)); [reflexivity|].
  rewrite orb_true_r in Hx0. discriminate.
Qed.

Lemma valid_audio fs opts :
  wf_fs fs -> check_inputs fs opts = Ok tt ->
  forallb valid_name (audio_path opts) = true.
Proof.
  intros [_ Hv] H. apply check_inputs_audio, is_file_In in H.
  rewrite Forall_forall in Hv. now apply Hv.
Qed.

(** The names in the archive: the audio below [payload/audio/], the
    stems below [payload/stems/], then the fixed names. *)
Lemma convert_aifm_namelist fs opts now zf :
  wf_fs fs -> convert_aifm fs opts now = Ok zf ->
  exists ext files,
    plain ext = true
    /\ NoDup files
    /\ (forall f, In f files ->
          forallb valid_name f = true
          /\ exists root, stems_dir opts = Some root
                          /\ is_strict_prefix root f = true)
    /\ namelist zf
       = (lit "payload/audio/main." ++ ext)
         :: map (fun f => match stems_dir opts with
                          | Some root => stem_zip_path root f
                          | None => []
                          end) files
         ++ fixed_names opts.
Proof.
  intros Hwf H. apply convert_aifm_inv in H.
  destruct H as (out & azp & stems & cs & rd & Hc & _ & Ha & Hs & _ & _ & Hw).
  destruct (@audio_zip_path_spec _ (@valid_audio fs opts Hwf Hc))
    as (ext & Hext & Ea).
  assert (Eazp : azp = lit "payload/audio/main." ++ ext)
    by (rewrite Ea in Ha; now injection Ha).
  subst azp. clear Ha.
  rewrite stems_files_of_spec in Hs by exact Hwf. injection Hs as <-.
  apply write_members_infos in Hw. destruct Hw as [_ Hw]. cbn [filelist map app] in Hw.
  destruct (fixed_names_facts opts) as (_ & Hn & _).
  assert (Hnames : namelist zf = map filename (map fst (filelist zf))).
  { rewrite namelist_reopen. now rewrite map_map. }
  rewrite Hnames, Hw. clear Hnames Hw.
  repeat (rewrite ?map_app, ?map_map; cbn [map member_info filename]).
  assert (Eaudio : until_nul (lit "payload/audio/main." ++ ext)
                   = lit "payload/audio/main." ++ ext).
  { apply until_nul_id. apply plain_spec in Hext. destruct Hext as [_ Hn0].
    intros Hin. apply in_app_or in Hin.
    destruct Hin as [Hin|Hin]; [simpl in Hin; intuition discriminate | auto]. }
  rewrite Eaudio.
  assert (Efixed :
    until_nul (lit "metadata/manifest.json")
    :: map (fun x => until_nul x) (optional_names opts)
    ++ [until_nul (lit "verification/checksums.sha256");
        until_nul (lit "README.txt")] = fixed_names opts).
  { rewrite <- Hn. unfold fixed_names. cbn [map].
    rewrite map_app. reflexivity. }
  destruct (stems_dir opts) as [root|] eqn:Es.
  - set (files := iter_files_recursive fs root).
    set (entries := map (fun f => (stem_zip_path root f, f)) files).
    assert (Hfiles : forall f, In f files ->
              forallb valid_name f = true /\ is_strict_prefix root f = true).
    { intros f Hf. apply iter_files_recursive_In in Hf.
      destruct Hf as (Hin & Hp & _). split; [|exact Hp].
      destruct Hwf as [_ Hv]. rewrite Forall_forall in Hv. now apply Hv. }
    exists ext, (map snd (sorted_by fst str_ltb entries)).
    split; [exact Hext|].
    assert (Hperm : Permutation files (map snd (sorted_by fst str_ltb entries))).
    { rewrite <- (sorted_by_perm fst str_ltb entries). subst entries.
      rewrite map_map. cbn [snd]. now rewrite map_id. }
    split; [|split].
    + eapply Permutation_NoDup; [exact Hperm|].
      apply iter_files_recursive_NoDup. now destruct Hwf.
    + intros f Hf. apply (Permutation_in _ (Permutation_sym Hperm)) in Hf.
      destruct (Hfiles f Hf). split; [assumption|]. exists root. auto.
    + f_equal. rewrite Efixed. f_equal. rewrite map_map.
      apply map_ext_in. intros [zp f] He. cbn [fst snd].
      apply sorted_by_In in He. subst entries. apply in_map_iff in He.
      destruct He as (f' & [= <- <-] & Hf').
      apply stem_zip_path_no_nul. now apply Hfiles.
  - exists ext, []. split; [exact Hext|]. split; [constructor|].
    split; [intros f []|]. cbn [map app sorted_by fold_right]. f_equal. exact Efixed.
Qed.

Lemma namelist_NoDup fs opts now zf :
  wf_fs fs -> convert_aifm fs opts now = Ok zf -> NoDup (namelist zf).
Proof.
  intros Hwf H.
  destruct (@convert_aifm_namelist fs opts now zf Hwf H)
    as (ext & files & Hext & Hnd & Hf & ->).
  destruct (fixed_names_facts opts) as (Hfn & _ & Hfp).
  rewrite Forall_forall in Hfp.
  assert (Hstem : forall n,
            In n (map (fun f => match stems_dir opts with
                                | Some root => stem_zip_path root f
                                | None => []
                                end) files) ->
            startswith (lit "payload/stems/") n = true).
  { intros n Hn. apply in_map_iff in Hn. destruct Hn as (f & <- & Hin).
    destruct (Hf f Hin) as (_ & root & -> & _). reflexivity. }
  constructor.
  - intros Hin. apply in_app_or in Hin. destruct Hin as [Hin|Hin].
    + apply Hstem in Hin. discriminate Hin.
    + apply Hfp in Hin. discriminate Hin.
  - apply NoDup_app; [|exact Hfn|].
    + apply NoDup_map_on; [exact Hnd|]. intros f1 f2 H1 H2.
      destruct (Hf f1 H1) as (V1 & root & Er & P1).
      destruct (Hf f2 H2) as (V2 & root' & Er' & P2).
      rewrite Er in *. injection Er' as <-. now apply stem_zip_path_inj.
    + intros n Hn Hin. apply Hstem in Hn. apply Hfp in Hin.
      change (lit "payload/stems/") with (lit "payload/" ++ lit "stems/") in Hn.
      apply startswith_app in Hn. congruence.
Qed.

(** C10: in the archive of a successful conversion from a well-formed
    file system no two members have the same archive path. *)
Theorem convert_aifm_paths_distinct fs opts now zf :
  wf_fs fs -> convert_aifm fs opts now = Ok zf -> NoDup (namelist zf).
Proof. apply namelist_NoDup. Qed.
End NoDuplicates.

(** ** C5: the format of the ledger *)

Lemma lower_hex_not_newline (c : ascii) : is_lower_hex c = true -> c <> "010".
Proof.
  destruct c as [[] [] [] [] [] [] [] []]; vm_compute; intros H;
    first [discriminate H | discriminate].
Qed.

Lemma lower_hex_no_newline (d : str) :
  forallb is_lower_hex d = true -> no_newline d = true.
Proof.
  unfold no_newline. rewrite !forallb_forall. intros H c Hc.
  apply negb_true_iff, Ascii.eqb_neq, lower_hex_not_newline, H, Hc.
Qed.

Lemma no_newline_In (s : str) : no_newline s = true <-> ~ In "010" s.
Proof.
  unfold no_newline. rewrite forallb_forall. split.
  - intros H Hin. specialize (H _ Hin). discriminate.
  - intros N c Hc. apply negb_true_iff, Ascii.eqb_neq. intros ->. contradiction.
Qed.






Section LedgerFormat.
Context {rt : Runtime} {laws : RuntimeLaws rt}.


End LedgerFormat.

Lemma zf_read_ledger (zf : ZipFile) (front : list (ZipInfo * bytes))
  (ledger readme : ZipInfo) (cb rb : bytes) :
  filelist zf = front ++ [(ledger, cb); (readme, rb)] ->
  filename ledger = lit "verification/checksums.sha256" ->
  filename readme = lit "README.txt" ->
  zf_read zf (lit "verification/checksums.sha256") = Ok cb.
Proof.
  intros E El Er. rewrite zf_read_reopen. rewrite E, rev_app_distr.
  cbn [rev app find fst snd]. rewrite Er, El. reflexivity.
Qed.

Section PayloadOnly.
Context {rt : Runtime} {laws : RuntimeLaws rt}.



End PayloadOnly.



(** ** The sample runtime and file system meet what is assumed *)

Lemma hex_digits_length (k : nat) (n : N) : List.length (hex_digits k n) = k.
Proof.
  revert n. induction k as [|k IH]; intros n; simpl; [reflexivity|].
  rewrite length_app, IH. simpl. lia.
Qed.

Lemma hex_digit_lower_hex (n : N) : (n < 16)%N -> is_lower_hex (hex_digit n) = true.
Proof.
  intros H. unfold hex_digit.
  assert (Hm : N.to_nat n < 16) by lia.
  revert Hm. generalize (N.to_nat n). intros m Hm.
  do 16 (destruct m as [|m]; [reflexivity|]). lia.
Qed.

Lemma hex_digits_lower_hex (k : nat) (n : N) :
  forallb is_lower_hex (hex_digits k n) = true.
Proof.
  revert n. induction k as [|k IH]; intros n; simpl; [reflexivity|].
  rewrite forallb_app, IH. simpl. rewrite hex_digit_lower_hex; [reflexivity|].
  apply N.mod_upper_bound. discriminate.
Qed.

Lemma sample_decode_char (c : ascii) (rest : bytes) :
  sample_decode
    ((if N.ltb (code c) 128 then [byte_of_code (code c)]
      else [byte_of_code (192 + code c / 64); byte_of_code (128 + code c mod 64)])
     ++ rest)
  = c :: sample_decode rest.
Proof. destruct c as [[] [] [] [] [] [] [] []]; reflexivity. Qed.

Lemma sample_decode_encode (s : str) : sample_decode (sample_encode s) = s.
Proof.
  induction s as [|c s IH]; [reflexivity|]. unfold sample_encode. cbn [flat_map].
  fold (sample_encode s). now rewrite sample_decode_char, IH.
Qed.

Lemma sample_laws : RuntimeLaws sample_runtime.
Proof.
  split.
  - intros data. apply hex_digits_length.
  - intros data. apply hex_digits_lower_hex.
  - apply sample_decode_encode.
Qed.

Lemma sample_fs_wf : wf_fs sample_fs.
Proof.
  split.
  - repeat constructor; simpl; intuition discriminate.
  - repeat constructor.
Qed.


Lemma convert_aifm_paths_distinct_witness :
  exists zf,
    convert_aifm sample_fs
      (sample_opts_stems [lit "m"; lit "song.wav"] [lit "m"; lit "out"]
         [lit "m"; lit "stems"]) sample_now = Ok zf
    /\ NoDup (namelist zf).
Proof.
  destruct (convert_aifm sample_fs
              (sample_opts_stems [lit "m"; lit "song.wav"] [lit "m"; lit "out"]
                 [lit "m"; lit "stems"]) sample_now) as [zf|e] eqn:E;
    [|vm_compute in E; discriminate].
  exists zf. split; [reflexivity|].
  exact (@convert_aifm_paths_distinct sample_runtime _ _ _ _ sample_fs_wf E).
Defined.

Lemma verify_payload_checksums_complete_witness :
  verify_payload_checksums sample_checked
  = Ok [ lit "Hash mismatch: payload/audio/main.wav" ++ nl
         ++ lit "  expected: " ++ sample_hexdigest (ascii_bytes "RIFF") ++ nl
         ++ lit "  actual:   " ++ sample_hexdigest (ascii_bytes "RIFX");
         lit "Missing payload file listed in checksums: payload/stems/vocals.wav" ].
Proof.
  destruct (zf_read sample_checked (lit "verification/checksums.sha256"))
    as [data|e] eqn:R; [|vm_compute in R; discriminate].
  destruct (@verify_payload_checksums_complete sample_runtime sample_laws
              sample_checked data R) as (entries & Hp & Hv).
  - intros entries expected path Hp Hin Hn.
    vm_compute in R. injection R as <-. vm_compute in Hp. injection Hp as <-.
    destruct Hin as [E|[E|[E|[]]]]; injection E as <- <-.
    + eexists. vm_compute. reflexivity.
    + eexists. vm_compute. reflexivity.
    + exfalso. vm_compute in Hn. intuition discriminate.
  - rewrite Hv. vm_compute in R. injection R as <-.
    vm_compute in Hp. injection Hp as <-. vm_compute. reflexivity.
Defined.

(** C4, as stated, fails: the audio of this archive does not read back,
    [zf.read] raises [BadZipFile], which the loop does not catch, and
    verification ends there without a list; the stem that the ledger
    lists next and that the archive lacks is never reported. *)
Lemma verify_stops_at_damaged_member :
  verify_payload_checksums sample_damaged
  = Raise (BadZipFile (lit "Bad CRC-32 for file 'payload/audio/main.wav'"))
  /\ exists data expected,
       zf_read sample_damaged (lit "verification/checksums.sha256") = Ok data
       /\ parse_sha256sum (utf8_decode_replace data)
          = Ok [ (sample_hexdigest (ascii_bytes "RIFF"), lit "payload/audio/main.wav");
                 (expected, lit "payload/stems/vocals.wav") ]
       /\ ~ In (lit "payload/stems/vocals.wav") (namelist sample_damaged).
Proof.
  split; [vm_compute; reflexivity|]. do 2 eexists.
  split; [vm_compute; reflexivity|]. split; [vm_compute; reflexivity|].
  vm_compute. intuition discriminate.
Qed.

(** ** C1: writing, then verifying *)

Lemma lstrip_by_app_all (f : ascii -> bool) (a b : str) :
  forallb f a = true -> lstrip_by f (a ++ b) = lstrip_by f b.
Proof.
  induction a as [|c a IH]; [reflexivity|]. simpl. intros H.
  apply andb_true_iff in H. destruct H as [Hc Ha]. rewrite Hc. now apply IH.
Qed.

(** Whitespace after a text is stripped away. *)
Lemma strip_trailing (s ws : str) :
  no_outer_space s = true -> forallb isspace ws = true -> strip (s ++ ws) = s.
Proof.
  intros Hs Hw. pose proof (strip_id _ Hs) as E. unfold strip in *.
  unfold no_outer_space in Hs. destruct s as [|c s]; [discriminate|].
  apply andb_true_iff in Hs. destruct Hs as [Hc _]. apply negb_true_iff in Hc.
  cbn [app]. rewrite lstrip_by_keep in * by exact Hc.
  change (c :: s ++ ws) with ((c :: s) ++ ws).
  unfold rstrip_by in *. rewrite rev_app_distr, lstrip_by_app_all; [exact E|].
  rewrite forallb_forall in *. intros x Hx. apply Hw. now apply in_rev.
Qed.

Lemma ledger_line_entry_trailing (d p ws : str) :
  digest_ok d = true -> no_outer_space p = true -> forallb isspace ws = true ->
  ledger_line_entry ((d ++ lit "  " ++ p) ++ ws) = [(d, p)].
Proof.
  intros Hd Hp Hw. rewrite <- (ledger_line_entry_rendered d p Hd Hp).
  unfold ledger_line_entry. rewrite strip_trailing; [|
    | exact Hw].
  - rewrite strip_id; [reflexivity|].
    apply no_outer_space_app; [|exact Hp]. apply andb_true_iff in Hd.
    destruct Hd as [Hne Hd]. apply negb_true_iff, str_eqb_neq in Hne.
    now apply no_space_no_outer_space.
  - apply no_outer_space_app; [|exact Hp]. apply andb_true_iff in Hd.
    destruct Hd as [Hne Hd]. apply negb_true_iff, str_eqb_neq in Hne.
    now apply no_space_no_outer_space.
Qed.

Lemma lower_hex_not_space (c : ascii) : is_lower_hex c = true -> isspace c = false.
Proof.
  destruct c as [[] [] [] [] [] [] [] []]; vm_compute; intros H;
    first [discriminate H | reflexivity].
Qed.

Section RoundTrip.
Context {rt : Runtime} {laws : RuntimeLaws rt}.

Lemma hexdigest_ok (data : bytes) : digest_ok (sha256_hexdigest data) = true.
Proof.
  unfold digest_ok. apply andb_true_iff. split.
  - apply negb_true_iff, str_eqb_neq. intros E.
    pose proof (hexdigest_length data) as L. rewrite E in L. discriminate.
  - unfold no_space. apply forallb_forall. intros c Hc.
    apply negb_true_iff, lower_hex_not_space.
    pose proof (hexdigest_lower_hex data) as H.
    rewrite forallb_forall in H. now apply H.
Qed.

(** An audio file whose extension ends in a space: the archive holds
    [payload/audio/main.wav ] with the space, the reader strips the
    ledger line, looks for the path without the space and reports the
    file as missing.  This holds whatever the digest function is, when
    the operating system does not refuse the path of the archive. *)
Lemma roundtrip_fails_on_trailing_space :
  write_error [lit "m"; lit "song.aifm"] = None ->
  exists zf,
    convert_aifm sample_fs
      (sample_opts [lit "m"; lit "song.wav "] [lit "m"; lit "song.aifm"])
      sample_now = Ok zf
    /\ In (lit "payload/audio/main.wav ") (namelist zf)
    /\ verify_payload_checksums zf
       = Ok [missing_message (lit "payload/audio/main.wav")].
Proof.
  intros Hst.
  set (opts := sample_opts [lit "m"; lit "song.wav "] [lit "m"; lit "song.aifm"]).
  destruct (convert_aifm sample_fs opts sample_now) as [zf|e] eqn:E;
    [|vm_compute in E, Hst; rewrite Hst in E; discriminate].
  exists zf. split; [reflexivity|].
  pose proof E as E'. apply convert_aifm_inv in E'.
  destruct E' as (out & azp & stems & cs & rd & _ & _ & Ha & Hs & Hm & _ & Hw).
  vm_compute in Ha. injection Ha as <-. vm_compute in Hs. injection Hs as <-.
  set (D := sha256_hexdigest (ascii_bytes "RIFF")).
  assert (Ecs : cs = ((D ++ lit "  " ++ lit "payload/audio/main.wav") ++ lit " ")
                     ++ nl ++ []).
  { rewrite (@make_checksums_spec rt sample_fs _
               [(lit "payload/audio/main.wav ", D)]) in Hm.
    - injection Hm as Hcs. rewrite <- Hcs.
      cbn [sorted_by fold_right insert_by map join]. unfold rendered_line.
      cbn [fst snd]. rewrite <- !app_assoc. reflexivity.
    - repeat constructor. }
  pose proof (write_members_infos _ _ _ _ _ _ _ _ Hw) as [_ Hn].
  assert (Hnames : namelist zf
                   = [lit "payload/audio/main.wav "; lit "metadata/manifest.json";
                      lit "verification/checksums.sha256"; lit "README.txt"]).
  { rewrite namelist_reopen. rewrite <- map_map, Hn. reflexivity. }
  split; [rewrite Hnames; now left|].
  apply write_members_shape in Hw.
  destruct Hw as (payload & optional & _ & L & _ & _). cbn [filelist app] in L.
  assert (R : zf_read zf (lit "verification/checksums.sha256") = Ok (utf8_encode cs)).
  { eapply (@zf_read_ledger zf
              (payload ++ (member_info (lit "metadata/manifest.json"),
                           utf8_encode (json_dumps (JDict (build_manifest opts sample_now))))
                       :: optional));
      [rewrite L, <- app_assoc; reflexivity | reflexivity | reflexivity]. }
  unfold verify_payload_checksums. rewrite R. cbn [bind].
  rewrite decode_encode, parse_sha256sum_total. cbn [bind].
  rewrite verify_entries_spec. cbn [app]. f_equal. rewrite Ecs.
  rewrite splitlines_line.
  - cbn [splitlines flat_map]. rewrite app_nil_r.
    rewrite ledger_line_entry_trailing;
      [|apply hexdigest_ok | reflexivity | reflexivity].
    cbn [flat_map app]. rewrite app_nil_r. unfold discrepancy.
    rewrite (proj1 (zf_read_absent zf (lit "payload/audio/main.wav"))); [reflexivity|].
    rewrite Hnames. simpl. intuition discriminate.
  - subst D. rewrite <- !app_assoc. unfold no_linebreak. rewrite !forallb_app.
    pose proof (no_space_no_linebreak (sha256_hexdigest (ascii_bytes "RIFF"))) as N.
    unfold no_linebreak in N. rewrite N; [reflexivity|].
    pose proof (hexdigest_ok (ascii_bytes "RIFF")) as H.
    unfold digest_ok in H. now apply andb_true_iff in H.
Qed.
End RoundTrip.

(** C1, as stated, fails: the audio file [/m/song.wav ] exists, the
    conversion succeeds, and verification of the archive written
    reports its audio as missing. *)
Lemma roundtrip_breaks_on_trailing_space :
  is_file sample_fs [lit "m"; lit "song.wav "] = true
  /\ exists zf,
       @convert_aifm sample_runtime sample_fs
         (sample_opts [lit "m"; lit "song.wav "] [lit "m"; lit "song.aifm"])
         sample_now = Ok zf
       /\ @verify_payload_checksums sample_runtime zf
          = Ok [missing_message (lit "payload/audio/main.wav")]
       /\ @verify_payload_checksums sample_runtime zf <> Ok [].
Proof.
  split; [reflexivity|].
  destruct (@roundtrip_fails_on_trailing_space sample_runtime sample_laws eq_refl)
    as (zf & E & _ & V).
  exists zf. split; [exact E|]. split; [exact V|]. rewrite V. discriminate.
Qed.

(** ** C3: two runs at different times *)

(** The manifests of two runs differ in [created_at] only. *)
Lemma build_manifest_clock (opts : ConvertOptions) (now1 now2 : str) :
  build_manifest opts now1
  = dict_set (lit "created_at") (JStr now1) (build_manifest opts now2).
Proof. manifest_cases opts. Qed.

Section Determinism.
Context {rt : Runtime}.

Lemma build_readme_spec (opts : ConvertOptions) (now : str) :
  build_readme (build_manifest opts now)
  = Ok (readme_text (or_default (title opts) (lit "Untitled")) now (tier opts)).
Proof.
  unfold build_readme.
  rewrite manifest_verification, manifest_title, manifest_created_at.
  reflexivity.
Qed.

(** A source other than the archive file is read the same whatever
    the archive holds so far. *)
Lemma zip_write_file_frame fs out (l l' : list (ZipInfo * bytes)) arcname src zf1 :
  src <> out ->
  zip_write_file fs {| zf_file := out; filelist := l |} arcname src = Ok zf1 ->
  exists data,
    zf1 = {| zf_file := out; filelist := l ++ [(member_info arcname, data)] |}
    /\ zip_write_file fs {| zf_file := out; filelist := l' |} arcname src
       = Ok {| zf_file := out; filelist := l' ++ [(member_info arcname, data)] |}.
Proof.
  intros N. unfold zip_write_file, read_source. cbn [zf_file filelist].
  apply path_eqb_neq in N. rewrite N.
  destruct (read_bytes fs src) as [data|e]; [|discriminate].
  cbn [bind]. intros [= <-]. exists data. split; reflexivity.
Qed.

Lemma write_optional_frame fs out (l l' : list (ZipInfo * bytes)) parts p zf1 :
  p <> Some out ->
  write_optional fs {| zf_file := out; filelist := l |} parts p = Ok zf1 ->
  exists added,
    zf1 = {| zf_file := out; filelist := l ++ added |}
    /\ write_optional fs {| zf_file := out; filelist := l' |} parts p
       = Ok {| zf_file := out; filelist := l' ++ added |}
    /\ Forall pinned added.
Proof.
  intros N. destruct p as [src|]; cbn [write_optional].
  - destruct (normalize_zip_path parts) as [arcname|e]; [|discriminate].
    cbn [bind]. intros H.
    apply (@zip_write_file_frame fs out l l') in H; [|congruence].
    destruct H as (data & -> & H'). exists [(member_info arcname, data)].
    split; [reflexivity|]. split; [exact H'|]. repeat constructor.
  - intros [= <-]. exists []. rewrite !app_nil_r. repeat split. constructor.
Qed.

(** The block writes the same members whatever the manifest and the
    README are, when no text asset is the archive file itself. *)
Lemma write_members_clock fs opts out azp stems mb cb rb mb' rb' zf :
  ~ In (Some out) (text_sources opts) ->
  write_members fs opts {| zf_file := out; filelist := [] |} azp stems mb cb rb
  = Ok zf ->
  exists payload optional,
    zf = {| zf_file := out;
            filelist := payload
              ++ (member_info (lit "metadata/manifest.json"), mb) :: optional
              ++ [(member_info (lit "verification/checksums.sha256"), cb);
                  (member_info (lit "README.txt"), rb)] |}
    /\ write_members fs opts {| zf_file := out; filelist := [] |} azp stems
         mb' cb rb'
       = Ok {| zf_file := out;
               filelist := payload
                 ++ (member_info (lit "metadata/manifest.json"), mb') :: optional
                 ++ [(member_info (lit "verification/checksums.sha256"), cb);
                     (member_info (lit "README.txt"), rb')] |}
    /\ Forall pinned payload /\ Forall pinned optional.
Proof.
  intros N. unfold text_sources in N. cbn [In] in N.
  unfold write_members. intros H.
  bind_inv H. rewrite Hx. cbn [bind].
  pose proof (zip_write_file_inv _ _ _ _ Hx) as (d0 & _ & ->). clear Hx.
  bind_inv H. rewrite Hx. cbn [bind].
  apply write_stems_shape in Hx. destruct Hx as (a1 & F1 & L1 & M1 & _).
  destruct x as [out1 l1]. cbn [zf_file filelist writestr app] in F1, L1.
  subst out1 l1.
  bind_inv H. vm_compute in Hx. injection Hx as <-.
  replace (normalize_zip_path [lit "metadata"; lit "manifest.json"])
    with (@Ok (list ascii) (lit "metadata/manifest.json")) by reflexivity.
  cbn [bind]. unfold zip_write_bytes, writestr in *. cbn [zf_file filelist] in *.
  bind_inv H.
  eapply write_optional_frame in Hx; [|intros Ep; apply N; rewrite Ep; tauto].
  destruct Hx as (a2 & -> & Hx & P2). rewrite Hx. cbn [bind]. clear Hx.
  bind_inv H.
  eapply write_optional_frame in Hx; [|intros Ep; apply N; rewrite Ep; tauto].
  destruct Hx as (a3 & -> & Hx & P3). rewrite Hx. cbn [bind]. clear Hx.
  bind_inv H.
  eapply write_optional_frame in Hx; [|intros Ep; apply N; rewrite Ep; tauto].
  destruct Hx as (a4 & -> & Hx & P4). rewrite Hx. cbn [bind]. clear Hx.
  bind_inv H.
  eapply write_optional_frame in Hx; [|intros Ep; apply N; rewrite Ep; tauto].
  destruct Hx as (a5 & -> & Hx & P5). rewrite Hx. cbn [bind]. clear Hx.
  bind_inv H.
  eapply write_optional_frame in Hx; [|intros Ep; apply N; rewrite Ep; tauto].
  destruct Hx as (a6 & -> & Hx & P6). rewrite Hx. cbn [bind]. clear Hx.
  bind_inv H. vm_compute in Hx. injection Hx as <-.
  replace (normalize_zip_path [lit "verification"; lit "checksums.sha256"])
    with (@Ok (list ascii) (lit "verification/checksums.sha256")) by reflexivity.
  cbn [bind zf_file filelist] in *. injection H as <-.
  exists ((member_info azp, d0) :: a1), (a2 ++ a3 ++ a4 ++ a5 ++ a6).
  split; [|split; [|split]].
  - f_equal. rewrite <- !app_assoc. reflexivity.
  - f_equal. f_equal. rewrite <- !app_assoc. reflexivity.
  - constructor; [reflexivity|]. apply Forall_forall. intros m Hm.
    unfold pinned. apply (in_map fst) in Hm. rewrite M1 in Hm.
    apply in_map_iff in Hm. destruct Hm as (e & <- & _). reflexivity.
  - repeat (apply Forall_app; split); assumption.
Qed.

(** C3, amended: a run at another time on the same sources succeeds as
    well and writes the same archive file with the same members in the
    same order, all with the pinned time stamp and all with the same
    bytes except two: the manifest, whose document differs in
    [created_at] only, and [README.txt], whose text differs in its
    [Created At] line only.  This is for a conversion in which no
    optional text asset is the archive file itself. *)
Theorem convert_aifm_deterministic fs opts now1 now2 zf1 :
  convert_aifm fs opts now1 = Ok zf1 ->
  ~ In (Some (zf_file zf1)) (text_sources opts) ->
  exists zf2 payload optional ledger,
    convert_aifm fs opts now2 = Ok zf2
    /\ zf_file zf2 = zf_file zf1
    /\ filelist zf1
       = payload
         ++ (member_info (lit "metadata/manifest.json"),
             utf8_encode (json_dumps (JDict (build_manifest opts now1))))
         :: optional
         ++ [(member_info (lit "verification/checksums.sha256"), ledger);
             (member_info (lit "README.txt"),
              utf8_encode (readme_text (or_default (title opts) (lit "Untitled"))
                             now1 (tier opts)))]
    /\ filelist zf2
       = payload
         ++ (member_info (lit "metadata/manifest.json"),
             utf8_encode (json_dumps (JDict (build_manifest opts now2))))
         :: optional
         ++ [(member_info (lit "verification/checksums.sha256"), ledger);
             (member_info (lit "README.txt"),
              utf8_encode (readme_text (or_default (title opts) (lit "Untitled"))
                             now2 (tier opts)))]
    /\ build_manifest opts now1
       = dict_set (lit "created_at") (JStr now1) (build_manifest opts now2)
    /\ Forall pinned (filelist zf1) /\ Forall pinned (filelist zf2).
Proof.
  intros H N. pose proof H as H0. pose proof (convert_aifm_zf_file _ _ _ H) as Ho.
  apply convert_aifm_inv in H.
  destruct H as (out & azp & stems & cs & rd & Hc & Hout & Ha & Hs & Hm & Hr & Hw).
  rewrite Hout in Ho. injection Ho as Ho. rewrite <- Ho in N.
  rewrite build_readme_spec in Hr. injection Hr as <-.
  eapply write_members_clock in Hw; [|exact N].
  destruct Hw as (payload & optional & -> & Hw' & Pp & Po).
  eexists. exists payload, optional, (utf8_encode cs).
  split; [|split; [|split; [|split; [|split; [|split]]]]].
  - unfold convert_aifm. rewrite Hc. cbn [bind]. rewrite Hout. cbn [bind].
    rewrite Ha. cbn [bind]. rewrite Hs. cbn [bind]. rewrite Hm. cbn [bind].
    rewrite build_readme_spec. cbn [bind].
    destruct (convert_aifm_io _ _ _ H0) as (out' & Hout' & Hmk & Hop).
    rewrite Hout in Hout'. injection Hout' as <-.
    rewrite Hmk. cbn [bind]. rewrite Hop. cbn [bind]. exact Hw'.
  - reflexivity.
  - reflexivity.
  - reflexivity.
  - apply build_manifest_clock.
  - cbn [filelist]. apply Forall_app. split; [exact Pp|].
    constructor; [reflexivity|]. apply Forall_app. split; [exact Po|].
    repeat constructor.
  - cbn [filelist]. apply Forall_app. split; [exact Pp|].
    constructor; [reflexivity|]. apply Forall_app. split; [exact Po|].
    repeat constructor.
Qed.
End Determinism.

(** C3, as stated, fails: [README.txt] carries the time stamp too, so
    two runs one second apart differ in that member as well. *)
Lemma readme_carries_the_clock :
  exists zf1 zf2 r1 r2,
    convert_aifm sample_fs
      (sample_opts [lit "m"; lit "song.wav"] [lit "m"; lit "song.aifm"])
      sample_now = Ok zf1
    /\ convert_aifm sample_fs
         (sample_opts [lit "m"; lit "song.wav"] [lit "m"; lit "song.aifm"])
         sample_later = Ok zf2
    /\ zf_read zf1 (lit "README.txt") = Ok r1
    /\ zf_read zf2 (lit "README.txt") = Ok r2
    /\ r1 <> r2.
Proof.
  do 4 eexists. split; [vm_compute; reflexivity|].
  split; [vm_compute; reflexivity|]. split; [vm_compute; reflexivity|].
  split; [vm_compute; reflexivity|]. vm_compute. discriminate.
Qed.

Lemma convert_aifm_deterministic_witness :
  exists zf1 zf2,
    convert_aifm sample_fs
      (sample_opts_stems [lit "m"; lit "song.wav"] [lit "m"; lit "out"]
         [lit "m"; lit "stems"]) sample_now = Ok zf1
    /\ convert_aifm sample_fs
         (sample_opts_stems [lit "m"; lit "song.wav"] [lit "m"; lit "out"]
            [lit "m"; lit "stems"]) sample_later = Ok zf2
    /\ map fst (filelist zf1) = map fst (filelist zf2).
Proof.
  destruct (convert_aifm sample_fs
              (sample_opts_stems [lit "m"; lit "song.wav"] [lit "m"; lit "out"]
                 [lit "m"; lit "stems"]) sample_now) as [zf1|e] eqn:E;
    [|vm_compute in E; discriminate].
  destruct (@convert_aifm_deterministic sample_runtime _ _ sample_now sample_later
              zf1 E) as (zf2 & payload & optional & ledger & E2 & _ & L1 & L2 & _).
  - simpl. intuition discriminate.
  - exists zf1, zf2. split; [reflexivity|]. split; [exact E2|].
    rewrite L1, L2, !map_app. cbn [map fst]. now rewrite !map_app.
Defined.

(** ** C1, positively: when writing then verifying finds nothing *)

Lemma NoDup_map_eq (A B : Type) (f : A -> B) (l : list A) (a b : A) :
  NoDup (map f l) -> In a l -> In b l -> f a = f b -> a = b.
Proof.
  induction l as [|x l IH]; simpl; [intros _ []|].
  intros H Ha Hb E. inversion H as [|? ? Hx Hl]; subst.
  destruct Ha as [<-|Ha], Hb as [<-|Hb]; auto.
  - exfalso. apply Hx. rewrite E. now apply in_map.
  - exfalso. apply Hx. rewrite <- E. now apply in_map.
Qed.

(** With distinct names, reading a name gives the member of that name. *)
Lemma zf_read_member (zf : ZipFile) (m : ZipInfo * bytes) :
  NoDup (namelist zf) -> In m (filelist zf) ->
  zf_read zf (filename (fst m)) = Ok (snd m).
Proof.
  intros Hnd Hin. rewrite zf_read_reopen.
  destruct (find _ (rev (filelist zf))) as [m'|] eqn:F.
  - apply find_some in F. destruct F as [Hin' Heq]. apply str_eqb_eq in Heq.
    apply in_rev in Hin'. f_equal. f_equal. rewrite namelist_reopen in Hnd.
    now apply (NoDup_map_eq (fun m => filename (fst m)) (filelist zf)).
  - exfalso. apply in_rev in Hin. pose proof (find_none _ _ F _ Hin) as N.
    cbn beta in N. now rewrite str_eqb_refl in N.
Qed.

Lemma flat_map_nil (A B : Type) (f : A -> list B) (l : list A) :
  (forall x, In x l -> f x = []) -> flat_map f l = [].
Proof.
  induction l as [|x l IH]; intros H; [reflexivity|]. simpl.
  rewrite (H x (or_introl eq_refl)), IH; [reflexivity|].
  intros y Hy. apply H. now right.
Qed.

Lemma Forall2_In_l (A B : Type) (R : A -> B -> Prop) (l : list A) (l' : list B)
  (x : A) :
  Forall2 R l l' -> In x l -> exists y, In y l' /\ R x y.
Proof.
  induction 1 as [|a b l l' Hab _ IH]; [intros []|].
  intros [<-|Hx]; [exists b; split; [now left | exact Hab]|].
  destruct (IH Hx) as (y & Hy & Hr). exists y. split; [now right | exact Hr].
Qed.

Section Verified.
Context {rt : Runtime} {laws : RuntimeLaws rt}.

(** The payload entries of a conversion, each with the member written
    for it. *)
Lemma payload_members fs opts now zf :
  wf_fs fs -> convert_aifm fs opts now = Ok zf ->
  ~ In (zf_file zf) (payload_sources fs opts) ->
  exists entries text,
    make_checksums_payload_only fs entries = Ok text
    /\ zf_read zf (lit "verification/checksums.sha256") = Ok (utf8_encode text)
    /\ forall e, In e entries ->
         exists data,
           read_bytes fs (snd e) = Ok data
           /\ In (member_info (fst e), data) (filelist zf)
           /\ until_nul (fst e) = fst e
           /\ startswith (lit "payload/") (fst e) = true.
Proof.
  intros Hwf H N. pose proof (convert_aifm_zf_file _ _ _ H) as Hzf.
  pose proof H as H0. apply convert_aifm_inv in H.
  destruct H as (out & azp & stems & cs & rd & Hc & Hout & Ha & Hs & Hm & _ & Hw).
  rewrite Hout in Hzf. injection Hzf as Hzf. subst out.
  exists ((azp, audio_path opts) :: stems), cs. split; [exact Hm|].
  pose proof (write_members_shape _ _ _ _ _ _ _ _ Hw)
    as (payload & optional & _ & L & _ & _ & W).
  cbn [filelist app zf_file] in L, W. split.
  - eapply (@zf_read_ledger zf
              (payload ++ (member_info (lit "metadata/manifest.json"),
                           utf8_encode (json_dumps (JDict (build_manifest opts now))))
                       :: optional));
      [rewrite L, <- app_assoc; reflexivity | reflexivity | reflexivity].
  - destruct (@audio_zip_path_spec _ (@valid_audio _ fs opts Hwf Hc))
      as (ext & Hext & Ea).
    assert (Eazp : azp = lit "payload/audio/main." ++ ext)
      by (rewrite Ea in Ha; now injection Ha).
    rewrite stems_files_of_spec in Hs by exact Hwf. injection Hs as Hs.
    assert (Hsrc : forall e, In e ((azp, audio_path opts) :: stems) ->
                     In (snd e) (payload_sources fs opts)
                     /\ until_nul (fst e) = fst e
                     /\ startswith (lit "payload/") (fst e) = true).
    { intros e [<-|He].
      - cbn [fst snd]. split; [now left|]. subst azp.
        split; [now apply audio_zip_path_no_nul | reflexivity].
      - rewrite <- Hs in He. unfold payload_sources.
        destruct (stems_dir opts) as [root|]; [|destruct He].
        apply in_map_iff in He. destruct He as (f & <- & Hf). cbn [fst snd].
        split; [now right|]. split; [|reflexivity].
        apply stem_zip_path_no_nul. apply iter_files_recursive_In in Hf.
        destruct Hf as (Hin & _ & _). destruct Hwf as [_ Hv].
        rewrite Forall_forall in Hv. now apply Hv. }
    intros e He. destruct (Hsrc e He) as (Hs1 & Hs2 & Hs3).
    assert (He' : In e ((azp, audio_path opts) :: sorted_by fst str_ltb stems)).
    { destruct He as [<-|He]; [now left|]. right. now apply sorted_by_In. }
    destruct (@Forall2_In_l _ _ _ _ _ _ W He') as (m & Hm' & Hfst & l & Hread).
    unfold read_source in Hread. cbn [zf_file] in Hread.
    assert (Hne : path_eqb (snd e) (zf_file zf) = false).
    { apply path_eqb_neq. intros E. apply N. now rewrite <- E. }
    rewrite Hne in Hread. exists (snd m). split; [exact Hread|].
    split; [|split; assumption]. rewrite L. apply in_or_app. left.
    rewrite <- Hfst. now destruct m.
Qed.

(** C1, amended: for a conversion from a well-formed file system whose
    archive file is not itself the audio or a stem file, and whose
    payload paths in the archive have no whitespace at either end and
    hold no line boundary of [splitlines], verifying the archive
    written finds nothing. *)
Theorem convert_then_verify fs opts now zf :
  wf_fs fs -> convert_aifm fs opts now = Ok zf ->
  ~ In (zf_file zf) (payload_sources fs opts) ->
  Forall (fun n => startswith (lit "payload/") n = true -> path_ok n = true)
    (namelist zf) ->
  verify_payload_checksums zf = Ok [].
Proof.
  intros Hwf H N Hok.
  destruct (@payload_members _ _ _ _ Hwf H N) as (entries & text & Hm & R & He).
  pose proof (@namelist_NoDup _ _ _ _ _ Hwf H) as Hnd.
  set (listed := map (fun e => (fst e, file_digest fs (snd e))) entries).
  assert (Hr : Forall2 (renders fs) entries listed).
  { subst listed. clear Hm. induction entries as [|e entries IH]; [constructor|].
    cbn [map]. constructor; [|apply IH; intros e' He'; apply He; now right].
    destruct (He e (or_introl eq_refl)) as (data & Hd & _).
    split; [reflexivity|]. cbn [fst snd]. unfold sha256_file, file_digest.
    now rewrite Hd. }
  rewrite (make_checksums_spec Hr) in Hm. injection Hm as <-.
  unfold verify_payload_checksums. rewrite R. cbn [bind].
  rewrite decode_encode, parse_sha256sum_total. cbn [bind].
  rewrite verify_entries_spec. cbn [app]. f_equal.
  assert (Hl : forall x, In x listed ->
             path_ok (fst x) = true /\ digest_ok (snd x) = true
             /\ discrepancy zf (swap x) = []).
  { intros x Hx. subst listed. apply in_map_iff in Hx.
    destruct Hx as (e & <- & Hin). unfold swap. cbn [fst snd].
    destruct (He e Hin) as (data & Hd & Hmem & Hnul & Hpay).
    assert (Hread : zf_read zf (fst e) = Ok data).
    { pose proof (zf_read_member zf _ Hnd Hmem) as Z.
      cbn [fst snd member_info filename] in Z. now rewrite Hnul in Z. }
    unfold file_digest. rewrite Hd. split; [|split].
    - rewrite Forall_forall in Hok. apply Hok; [|exact Hpay].
      apply zf_read_present. eauto.
    - apply hexdigest_ok.
    - unfold discrepancy. rewrite Hread. now rewrite str_eqb_refl. }
  rewrite parse_rendered.
  - apply flat_map_nil. intros x Hx. apply in_map_iff in Hx.
    destruct Hx as (y & <- & Hy). apply sorted_by_In in Hy. now apply Hl.
  - apply sorted_by_Forall, Forall_forall. intros x Hx.
    destruct (Hl x Hx) as (H1 & H2 & _). now split.
Qed.
End Verified.

Lemma convert_then_verify_witness :
  exists zf,
    @convert_aifm sample_runtime sample_fs
      (sample_opts_stems [lit "m"; lit "song.wav"] [lit "m"; lit "out"]
         [lit "m"; lit "stems"]) sample_now = Ok zf
    /\ @verify_payload_checksums sample_runtime zf = Ok [].
Proof.
  destruct (@convert_aifm sample_runtime sample_fs
              (sample_opts_stems [lit "m"; lit "song.wav"] [lit "m"; lit "out"]
                 [lit "m"; lit "stems"]) sample_now) as [zf|e] eqn:E;
    [|vm_compute in E; discriminate].
  exists zf. split; [reflexivity|].
  apply (@convert_then_verify sample_runtime sample_laws _ _ _ _ sample_fs_wf E).
  - vm_compute in E. injection E as <-. vm_compute. intuition discriminate.
  - vm_compute in E. injection E as <-. repeat constructor.
Defined.

(* ================================================================== *)
(** * Part III. Further properties of the converter and the reader     *)
(* ================================================================== *)

(** ** When a conversion goes through *)

Section Success.
Context {rt : Runtime}.

Lemma exists_answer fs p :
  exists_ fs p
  = match stat_answer fs p with
    | Found _ => Ok true
    | Refused errno => Raise (OSError errno)
    | Absent => Ok false
    end.
Proof.
  unfold exists_, stat_answer. destruct (fs_lookup fs p); [reflexivity|].
  destruct (stat_error p); reflexivity.
Qed.

Lemma stat_answer_found fs p :
  (exists n, stat_answer fs p = Found n) <-> fs_lookup fs p <> None.
Proof.
  unfold stat_answer. destruct (fs_lookup fs p) as [n|].
  - split; [discriminate | eauto].
  - split; [|congruence]. intros [n H]. destruct (stat_error p); discriminate.
Qed.

Lemma first_missing_cons fs what p l :
  first_missing fs ((what, p) :: l)
  = match check_exists fs what p with
    | Raise e => Some e
    | Ok _ => first_missing fs l
    end.
Proof.
  unfold check_exists. destruct p as [q|]; [|reflexivity].
  cbn [first_missing]. rewrite exists_answer.
  destruct (stat_answer fs q); reflexivity.
Qed.

(** The checks pass exactly when no check fails, and raise what the
    first one that fails raises. *)
Lemma check_inputs_spec fs opts :
  check_inputs fs opts =
  match input_error fs opts with
  | Some e => Raise e
  | None => Ok tt
  end.
Proof.
  unfold check_inputs, input_error, checked_inputs. rewrite exists_answer.
  unfold is_file.
  assert (L : forall n, stat_answer fs (audio_path opts) = Found n ->
                        fs_lookup fs (audio_path opts) = Some n).
  { unfold stat_answer. intros n.
    destruct (fs_lookup fs (audio_path opts)); [now intros [= ->]|].
    destruct (stat_error (audio_path opts)); discriminate. }
  destruct (stat_answer fs (audio_path opts)) as [[d|]|errno|] eqn:Ea;
    cbn [bind negb orb]; try reflexivity.
  - rewrite (L _ eq_refl). cbn [bind negb]. rewrite !first_missing_cons.
    destruct (check_exists fs _ (stems_dir opts)) as [[]|e]; [|reflexivity].
    destruct (check_exists fs _ (persona_path opts)) as [[]|e]; [|reflexivity].
    destruct (check_exists fs _ (declaration_path opts)) as [[]|e]; [|reflexivity].
    destruct (check_exists fs _ (prompt_path opts)) as [[]|e]; [|reflexivity].
    destruct (check_exists fs _ (negative_prompt_path opts)) as [[]|e]; [|reflexivity].
    cbn [bind].
    destruct (check_exists fs _ (lyrics_path opts)) as [[]|e]; reflexivity.
  - rewrite (L _ eq_refl). reflexivity.
Qed.

Lemma first_missing_none fs l :
  first_missing fs l = None <->
  (forall what q, In (what, Some q) l -> fs_lookup fs q <> None).
Proof.
  induction l as [|[what [q|]] l IH]; cbn [first_missing].
  - split; [intros _ ? ? [] | reflexivity].
  - pose proof (stat_answer_found fs q) as F.
    destruct (stat_answer fs q) as [n|errno|].
    + rewrite IH. split; intros H w q' Hin.
      * destruct Hin as [[= <- <-]|Hin]; [apply F; eauto | eauto].
      * apply (H w). now right.
    + split; [discriminate|]. intros H.
      destruct (proj2 F (H what q (or_introl eq_refl))) as [n Hn]. discriminate.
    + split; [discriminate|]. intros H.
      destruct (proj2 F (H what q (or_introl eq_refl))) as [n Hn]. discriminate.
  - rewrite IH. split; intros H w q' Hin.
    + destruct Hin as [[=]|Hin]. eauto.
    + apply (H w). now right.
Qed.

Lemma input_error_none fs opts :
  input_error fs opts = None ->
  is_file fs (audio_path opts) = true
  /\ first_missing fs (checked_inputs opts) = None.
Proof.
  unfold input_error, stat_answer, is_file.
  destruct (fs_lookup fs (audio_path opts)) as [[d|]|]; try discriminate; [auto|].
  destruct (stat_error (audio_path opts)); discriminate.
Qed.

Lemma read_source_file fs zf p data :
  read_source fs zf p = Ok data -> is_file fs p = true \/ p = zf_file zf.
Proof.
  unfold read_source. destruct (path_eqb p (zf_file zf)) eqn:E.
  - apply path_eqb_eq in E. auto.
  - unfold read_bytes, is_file. destruct (fs_lookup fs p) as [[d|]|]; try discriminate.
    auto.
Qed.
End Success.

Section SuccessConditions.
Context {rt : Runtime} {laws : RuntimeLaws rt}.

Lemma write_optional_written fs zf parts name p zf' :
  normalize_zip_path parts = Ok name ->
  write_optional fs zf parts p = Ok zf' ->
  exists added,
    zf_file zf' = zf_file zf
    /\ filelist zf' = filelist zf ++ added
    /\ Forall2 (written fs (zf_file zf))
         (match p with Some q => [(name, q)] | None => [] end) added.
Proof.
  intros Hn H. apply write_optional_inv in H. destruct p as [src|].
  - destruct H as (arcname & data & Ha & Hd & ->). rewrite Hn in Ha.
    injection Ha as <-. exists [(member_info name, data)].
    split; [reflexivity|]. split; [reflexivity|].
    constructor; [|constructor]. split; [reflexivity|].
    exists (filelist zf). destruct zf. exact Hd.
  - subst zf'. exists []. rewrite app_nil_r. repeat split. constructor.
Qed.

(** The members written by the block, each with the source it was read
    from. *)
Lemma write_members_full fs opts zf azp stems mb cb rb zf' :
  write_members fs opts zf azp stems mb cb rb = Ok zf' ->
  exists payload optional,
    zf_file zf' = zf_file zf
    /\ filelist zf'
       = filelist zf ++ payload
         ++ (member_info (lit "metadata/manifest.json"), mb) :: optional
         ++ [(member_info (lit "verification/checksums.sha256"), cb);
             (member_info (lit "README.txt"), rb)]
    /\ Forall2 (written fs (zf_file zf))
         ((azp, audio_path opts) :: sorted_by fst str_ltb stems) payload
    /\ Forall2 (written fs (zf_file zf)) (optional_entries opts) optional.
Proof.
  unfold write_members. intros H.
  bind_inv H. apply zip_write_file_inv in Hx. destruct Hx as (d0 & Hd0 & ->).
  bind_inv H. apply write_stems_shape in Hx.
  destruct Hx as (a1 & F1 & L1 & _ & W1).
  bind_inv H. vm_compute in Hx. injection Hx as <-.
  bind_inv H. eapply write_optional_written in Hx; [|vm_compute; reflexivity].
  destruct Hx as (a2 & F2 & L2 & W2).
  bind_inv H. eapply write_optional_written in Hx; [|vm_compute; reflexivity].
  destruct Hx as (a3 & F3 & L3 & W3).
  bind_inv H. eapply write_optional_written in Hx; [|vm_compute; reflexivity].
  destruct Hx as (a4 & F4 & L4 & W4).
  bind_inv H. eapply write_optional_written in Hx; [|vm_compute; reflexivity].
  destruct Hx as (a5 & F5 & L5 & W5).
  bind_inv H. eapply write_optional_written in Hx; [|vm_compute; reflexivity].
  destruct Hx as (a6 & F6 & L6 & W6).
  bind_inv H. vm_compute in Hx. injection Hx as <-.
  injection H as <-.
  cbn [zip_write_bytes writestr zf_file] in F1, F2, W1, W2.
  rewrite F1 in F2, W2. rewrite F2 in F3, W3. rewrite F3 in F4, W4.
  rewrite F4 in F5, W5. rewrite F5 in F6, W6.
  exists ((member_info azp, d0) :: a1), (a2 ++ a3 ++ a4 ++ a5 ++ a6).
  split; [|split; [|split]].
  - cbn. exact F6.
  - unfold zip_write_bytes, writestr at 1 2. cbn [filelist].
    rewrite L6, L5, L4, L3, L2.
    unfold zip_write_bytes, writestr at 1. cbn [filelist].
    rewrite L1. cbn [writestr filelist].
    rewrite <- !app_assoc. cbn [app]. reflexivity.
  - constructor; [|exact W1]. split; [reflexivity|].
    exists (filelist zf). destruct zf. exact Hd0.
  - unfold optional_entries.
    repeat (apply Forall2_app; [assumption|]). assumption.
Qed.

Lemma written_source fs out e m :
  written fs out e m -> is_file fs (snd e) = true \/ snd e = out.
Proof.
  intros (_ & l & H). apply read_source_file in H. exact H.
Qed.

Lemma optional_entries_sources (opts : ConvertOptions) (p : Path) :
  In (Some p) (text_sources opts) <-> In p (map snd (optional_entries opts)).
Proof.
  unfold text_sources, optional_entries.
  destruct (prompt_path opts), (negative_prompt_path opts), (lyrics_path opts),
    (persona_path opts), (declaration_path opts); cbn;
    intuition (try discriminate; try congruence).
Qed.

Lemma ancestors_firstn (p : Path) (n : nat) :
  n < List.length p -> In (firstn n p) (ancestors p).
Proof.
  intros H. unfold ancestors. apply in_map_iff. exists n. split; [reflexivity|].
  apply in_seq. lia.
Qed.

Lemma mkdir_parents_spec fs (p : Path) :
  mkdir_parents fs p = Ok tt <-> forall n, is_file fs (firstn n p) = false.
Proof.
  unfold mkdir_parents. split.
  - intros H n. destruct (existsb (is_file fs) (ancestors p)) eqn:E; [discriminate|].
    destruct (is_file fs p) eqn:Ep; [discriminate|].
    destruct (Nat.lt_ge_cases n (List.length p)) as [Hn|Hn].
    + destruct (is_file fs (firstn n p)) eqn:Ef; [|reflexivity].
      assert (X : existsb (is_file fs) (ancestors p) = true).
      { apply existsb_exists. exists (firstn n p). split; [|exact Ef].
        now apply ancestors_firstn. }
      congruence.
    + now rewrite firstn_all2.
  - intros H. destruct (existsb (is_file fs) (ancestors p)) eqn:E.
    + apply existsb_exists in E. destruct E as (q & Hin & Hq).
      unfold ancestors in Hin. apply in_map_iff in Hin.
      destruct Hin as (n & <- & _). rewrite H in Hq. discriminate.
    + specialize (H (List.length p)). rewrite firstn_all in H. now rewrite H.
Qed.

Lemma open_for_write_ok fs (p : Path) :
  open_for_write fs p = Ok tt -> fs_lookup fs p <> Some Dir.
Proof.
  unfold open_for_write. destruct (fs_lookup fs p) as [[d|]|]; intros H;
    try discriminate; congruence.
Qed.

Lemma convert_aifm_needs fs opts now zf :
  convert_aifm fs opts now = Ok zf ->
  output_path (out_path opts) = Ok (zf_file zf)
  /\ convertible fs opts (zf_file zf).
Proof.
  intros H. pose proof (convert_aifm_zf_file _ _ _ H) as Hout.
  split; [exact Hout|].
  destruct (convert_aifm_io _ _ _ H) as (out & Hout' & Hmk & Hop).
  rewrite Hout in Hout'. injection Hout' as <-.
  apply convert_aifm_inv in H.
  destruct H as (out & azp & stems & cs & rd & Hc & Ho & _ & _ & _ & _ & Hw).
  rewrite Hout in Ho. injection Ho as <-.
  pose proof Hc as Hc'. rewrite check_inputs_spec in Hc'.
  destruct (input_error fs opts) eqn:Ei; [discriminate|].
  apply input_error_none in Ei. destruct Ei as [Haudio Em].
  pose proof (proj1 (first_missing_none fs _) Em) as Hex.
  apply open_for_write_ok in Hop.
  split; [exact Haudio|]. split; [|split; [|split]].
  - intros root E. apply (Hex (lit "Stems directory not found: ")).
    unfold checked_inputs. rewrite E. now left.
  - intros p Hp.
    assert (Hx : fs_lookup fs p <> None).
    { unfold text_sources in Hp. cbn [In] in Hp. unfold checked_inputs in Hex.
      destruct Hp as [E|[E|[E|[E|[E|[]]]]]].
      - apply (Hex (lit "Prompt file not found: ")). rewrite E. cbn. tauto.
      - apply (Hex (lit "Negative prompt file not found: ")). rewrite E. cbn. tauto.
      - apply (Hex (lit "Lyrics file not found: ")). rewrite E. cbn. tauto.
      - apply (Hex (lit "Persona file not found: ")). rewrite E. cbn. tauto.
      - apply (Hex (lit "Declaration file not found: ")). rewrite E. cbn. tauto. }
    apply write_members_full in Hw.
    destruct Hw as (payload & optional & _ & _ & _ & Wo). cbn [zf_file] in Wo.
    apply optional_entries_sources, in_map_iff in Hp.
    destruct Hp as (e & <- & He).
    destruct (@Forall2_In_l _ _ _ _ _ _ Wo He) as (m & _ & Hm).
    apply written_source in Hm. destruct Hm as [Hm|Hm]; [exact Hm|].
    rewrite Hm in *. unfold is_file.
    destruct (fs_lookup fs (zf_file zf)) as [[d|]|];
      [reflexivity | contradiction | contradiction].
  - now apply mkdir_parents_spec.
  - exact Hop.
Qed.


(** X2: the first check that fails decides the exception: for the audio,
    then for the optional inputs given, in the order stems, persona,
    declaration, prompt, negative prompt, lyrics, a path that the
    operating system refuses raises its [OSError], and a path that is
    not there (for the audio also one that is no regular file) raises
    [FileNotFoundError] with the message of that input; nothing else of
    the inputs or of the output path is looked at. *)
Theorem convert_aifm_input_error fs opts now e :
  input_error fs opts = Some e ->
  convert_aifm fs opts now = Raise e.
Proof.
  intros H. unfold convert_aifm. rewrite check_inputs_spec, H. reflexivity.
Qed.
End SuccessConditions.


Lemma convert_aifm_input_error_witness :
  @convert_aifm sample_runtime sample_fs
    (sample_opts_texts [lit "m"; lit "song.wav"] [lit "m"; lit "out"]
       (Some [lit "m"; lit "persona.txt"]) (Some [lit "m"; lit "lyrics.txt"]))
    sample_now
  = Raise (FileNotFoundError (lit "Persona file not found: /m/persona.txt"))
  /\ @convert_aifm sample_runtime sample_fs
       (sample_opts [lit "m"; repeat "a"%char 256 ++ lit ".wav"] [lit "m"; lit "out"])
       sample_now
     = Raise (OSError 36).
Proof.
  split; apply (@convert_aifm_input_error sample_runtime); reflexivity.
Defined.

(** ** What the archive holds *)

Lemma startswith_inv (p s : str) :
  startswith p s = true -> exists y, s = p ++ y.
Proof.
  revert s. induction p as [|a p IH]; intros s H; [exists s; reflexivity|].
  destruct s as [|b s]; [discriminate|]. cbn [startswith] in H.
  apply andb_true_iff in H. destruct H as [E H]. apply Ascii.eqb_eq in E. subst b.
  destruct (IH s H) as (y & ->). exists y. reflexivity.
Qed.

(** The audio comes first in the order of the archive paths. *)
Lemma sorted_audio_first (A : Type) (ext : str) (a : A) (stems : list (str * A)) :
  Forall (fun e => startswith (lit "payload/stems/") (fst e) = true) stems ->
  sorted_by fst str_ltb ((lit "payload/audio/main." ++ ext, a) :: stems)
  = (lit "payload/audio/main." ++ ext, a) :: sorted_by fst str_ltb stems.
Proof.
  intros H. apply (sorted_by_Forall fst str_ltb) in H.
  change (sorted_by fst str_ltb ((lit "payload/audio/main." ++ ext, a) :: stems))
    with (insert_by fst str_ltb (lit "payload/audio/main." ++ ext, a)
            (sorted_by fst str_ltb stems)).
  destruct (sorted_by fst str_ltb stems) as [|y r]; [reflexivity|].
  inversion H as [|? ? Hy _]; subst. apply startswith_inv in Hy.
  destruct Hy as (s & Hy). cbn [insert_by fst]. rewrite Hy. reflexivity.
Qed.

Section Contents.
Context {rt : Runtime} {laws : RuntimeLaws rt}.

Lemma stems_entries_facts fs opts :
  wf_fs fs ->
  Forall (fun e => startswith (lit "payload/stems/") (fst e) = true
                   /\ until_nul (fst e) = fst e
                   /\ is_file fs (snd e) = true
                   /\ In (snd e) (payload_sources fs opts))
    (stems_entries fs opts).
Proof.
  intros [_ Hv]. unfold stems_entries, payload_sources.
  destruct (stems_dir opts) as [root|]; [|constructor].
  apply Forall_forall. intros e He. apply in_map_iff in He.
  destruct He as (f & <- & Hf). cbn [fst snd].
  pose proof (iter_files_recursive_In _ _ _ Hf) as (Hin & _ & Hfile).
  split; [reflexivity|]. split; [|split; [exact Hfile | now right]].
  apply stem_zip_path_no_nul. rewrite Forall_forall in Hv. now apply Hv.
Qed.

(** The archive of a successful conversion, member by member. *)
Lemma archive_contents fs opts now zf :
  wf_fs fs -> convert_aifm fs opts now = Ok zf ->
  exists ext cs payload optional,
    plain ext = true
    /\ audio_zip_path_of (audio_path opts) = Ok (lit "payload/audio/main." ++ ext)
    /\ make_checksums_payload_only fs
         ((lit "payload/audio/main." ++ ext, audio_path opts)
          :: stems_entries fs opts) = Ok cs
    /\ filelist zf
       = payload
         ++ (member_info (lit "metadata/manifest.json"),
             utf8_encode (json_dumps (JDict (build_manifest opts now))))
            :: optional
         ++ [(member_info (lit "verification/checksums.sha256"), utf8_encode cs);
             (member_info (lit "README.txt"),
              utf8_encode (readme_text (or_default (title opts) (lit "Untitled"))
                             now (tier opts)))]
    /\ Forall2 (written fs (zf_file zf))
         (sorted_by fst str_ltb
            ((lit "payload/audio/main." ++ ext, audio_path opts)
             :: stems_entries fs opts)) payload
    /\ Forall2 (written fs (zf_file zf)) (optional_entries opts) optional.
Proof.
  intros Hwf H. pose proof (convert_aifm_zf_file _ _ _ H) as Hzf.
  apply convert_aifm_inv in H.
  destruct H as (out & azp & stems & cs & rd & Hc & Hout & Ha & Hs & Hm & Hr & Hw).
  rewrite Hout in Hzf. injection Hzf as Hzf. subst out.
  destruct (@audio_zip_path_spec _ (@valid_audio _ fs opts Hwf Hc))
    as (ext & Hext & Ea).
  assert (Eazp : azp = lit "payload/audio/main." ++ ext)
    by (rewrite Ea in Ha; now injection Ha).
  rewrite stems_files_of_spec in Hs by exact Hwf. injection Hs as Hs.
  fold (stems_entries fs opts) in Hs. subst stems.
  rewrite build_readme_spec in Hr. injection Hr as <-.
  apply write_members_full in Hw.
  destruct Hw as (payload & optional & _ & L & Wp & Wo). cbn [filelist app zf_file] in *.
  exists ext, cs, payload, optional. subst azp.
  split; [exact Hext|]. split; [exact Ea|]. split; [exact Hm|].
  split; [exact L|]. split; [|exact Wo].
  rewrite sorted_audio_first; [exact Wp|].
  eapply Forall_impl; [|apply (stems_entries_facts opts Hwf)]. cbn beta. tauto.
Qed.

Lemma filename_member_info (n : str) :
  until_nul n = n -> filename (member_info n) = n.
Proof. intros H. exact H. Qed.

Lemma optional_entries_names (opts : ConvertOptions) :
  map fst (optional_entries opts) = optional_names opts.
Proof.
  unfold optional_entries, optional_names.
  destruct (prompt_path opts), (negative_prompt_path opts), (lyrics_path opts),
    (persona_path opts), (declaration_path opts); reflexivity.
Qed.

Lemma written_names fs out (l : list (str * Path)) (ms : list (ZipInfo * bytes)) :
  Forall2 (written fs out) l ms -> map fst ms = map (fun e => member_info (fst e)) l.
Proof.
  induction 1 as [|e m l ms (Hm & _) _ IH]; [reflexivity|].
  cbn [map]. now rewrite Hm, IH.
Qed.

End Contents.


Section Members.
Context {rt : Runtime} {laws : RuntimeLaws rt}.

(** A member written for an entry is what reading the archive at the
    entry's path gives. *)
Lemma written_member_read fs (zf : ZipFile) (l : list (str * Path))
  (ms : list (ZipInfo * bytes)) (e : str * Path) :
  NoDup (namelist zf) -> incl ms (filelist zf) ->
  Forall2 (written fs (zf_file zf)) l ms ->
  In e l -> until_nul (fst e) = fst e -> snd e <> zf_file zf ->
  exists data, read_bytes fs (snd e) = Ok data /\ zf_read zf (fst e) = Ok data.
Proof.
  intros Hnd Hincl W He Hnul Hne.
  destruct (@Forall2_In_l _ _ _ _ _ _ W He) as (m & Hm & Hfst & l0 & Hread).
  unfold read_source in Hread. cbn [zf_file] in Hread.
  apply path_eqb_neq in Hne. rewrite Hne in Hread.
  exists (snd m). split; [exact Hread|].
  pose proof (zf_read_member zf m Hnd (Hincl _ Hm)) as Z.
  rewrite Hfst in Z. cbn [member_info filename] in Z. now rewrite Hnul in Z.
Qed.

(** X4: payload bytes are preserved: reading the archive at the path of the
    audio, or of a stem file, gives the bytes of that file. *)
Theorem payload_bytes_preserved fs opts now zf :
  wf_fs fs -> convert_aifm fs opts now = Ok zf ->
  ~ In (zf_file zf) (payload_sources fs opts) ->
  exists azp,
    audio_zip_path_of (audio_path opts) = Ok azp
    /\ forall e, In e ((azp, audio_path opts) :: stems_entries fs opts) ->
         exists data,
           read_bytes fs (snd e) = Ok data /\ zf_read zf (fst e) = Ok data.
Proof.
  intros Hwf H N.
  destruct (@archive_contents _ fs opts now zf Hwf H)
    as (ext & cs & payload & optional & Hext & Ha & _ & L & Wp & _).
  exists (lit "payload/audio/main." ++ ext). split; [exact Ha|].
  intros e He.
  assert (Hfacts : until_nul (fst e) = fst e /\ In (snd e) (payload_sources fs opts)).
  { destruct He as [<-|He].
    - split; [now apply audio_zip_path_no_nul | now left].
    - pose proof (stems_entries_facts opts Hwf) as F. rewrite Forall_forall in F.
      destruct (F e He) as (_ & F1 & _ & F2). now split. }
  destruct Hfacts as [Hnul Hsrc].
  eapply written_member_read; [| |exact Wp| | |].
  - exact (@namelist_NoDup _ fs opts now zf Hwf H).
  - rewrite L. intros m Hm. apply in_or_app. now left.
  - now apply sorted_by_In.
  - exact Hnul.
  - intros E. apply N. now rewrite <- E.
Qed.

Lemma optional_written_not_payload fs out (opts : ConvertOptions)
  (ms : list (ZipInfo * bytes)) :
  Forall2 (written fs out) (optional_entries opts) ms ->
  Forall (fun m => is_payload m = false) ms.
Proof.
  intros W. apply written_names in W.
  assert (F : Forall (fun i => startswith (lit "payload/") (filename i) = false)
                (map fst ms)).
  { rewrite W. unfold optional_entries.
    destruct (prompt_path opts), (negative_prompt_path opts), (lyrics_path opts),
      (persona_path opts), (declaration_path opts); cbn [map app fst];
      repeat constructor. }
  clear W. induction ms as [|m ms IH]; constructor; inversion F; subst; auto.
Qed.

Lemma filter_all (A : Type) (f : A -> bool) (l : list A) :
  Forall (fun x => f x = true) l -> filter f l = l.
Proof.
  induction 1 as [|x l Hx _ IH]; [reflexivity|]. cbn [filter]. now rewrite Hx, IH.
Qed.

Lemma filter_none (A : Type) (f : A -> bool) (l : list A) :
  Forall (fun x => f x = false) l -> filter f l = [].
Proof.
  induction 1 as [|x l Hx _ IH]; [reflexivity|]. cbn [filter]. now rewrite Hx, IH.
Qed.

Lemma filter_not_payload_tail (mb cb rb : bytes) (optional : list (ZipInfo * bytes)) :
  Forall (fun m => is_payload m = false) optional ->
  filter is_payload
    ((member_info (lit "metadata/manifest.json"), mb) :: optional
     ++ [(member_info (lit "verification/checksums.sha256"), cb);
         (member_info (lit "README.txt"), rb)]) = [].
Proof.
  intros H. cbn [filter].
  replace (is_payload (member_info (lit "metadata/manifest.json"), mb))
    with false by reflexivity.
  rewrite filter_app, (filter_none _ H). reflexivity.
Qed.

(** The names of the archive: the payload paths, then the fixed names. *)
Lemma archive_names fs opts now zf :
  wf_fs fs -> convert_aifm fs opts now = Ok zf ->
  exists ext payload_names,
    audio_zip_path_of (audio_path opts) = Ok (lit "payload/audio/main." ++ ext)
    /\ payload_names
       = map fst (sorted_by fst str_ltb
                    ((lit "payload/audio/main." ++ ext, audio_path opts)
                     :: stems_entries fs opts))
    /\ Forall (fun n => startswith (lit "payload/") n = true) payload_names
    /\ namelist zf
       = payload_names
         ++ lit "metadata/manifest.json"
            :: optional_names opts
         ++ [lit "verification/checksums.sha256"; lit "README.txt"]
    /\ map fst (filelist zf) = map member_info (namelist zf).
Proof.
  intros Hwf H.
  destruct (@archive_contents _ fs opts now zf Hwf H)
    as (ext & cs & payload & optional & Hext & Ha & _ & L & Wp & Wo).
  exists ext. eexists. split; [exact Ha|]. split; [reflexivity|].
  set (entries := sorted_by fst str_ltb
         ((lit "payload/audio/main." ++ ext, audio_path opts)
          :: stems_entries fs opts)) in *.
  assert (Hent : Forall (fun e : str * Path =>
                   until_nul (fst e) = fst e
                   /\ startswith (lit "payload/") (fst e) = true) entries).
  { apply sorted_by_Forall. constructor.
    - split; [now apply audio_zip_path_no_nul | reflexivity].
    - eapply Forall_impl; [|apply (stems_entries_facts opts Hwf)]. cbn beta.
      intros e (S1 & S2 & _). split; [exact S2|].
      change (lit "payload/stems/") with (lit "payload/" ++ lit "stems/") in S1.
      now apply startswith_app in S1. }
  assert (Hinfos : map fst (filelist zf)
            = map member_info
                (map fst entries
                 ++ lit "metadata/manifest.json"
                    :: optional_names opts
                 ++ [lit "verification/checksums.sha256"; lit "README.txt"])).
  { rewrite L, !map_app. cbn [map fst]. rewrite !map_app.
    rewrite (written_names Wp), (written_names Wo), map_map.
    rewrite <- optional_entries_names, map_map. reflexivity. }
  assert (Hnames : namelist zf
            = map fst entries
              ++ lit "metadata/manifest.json"
                 :: optional_names opts
              ++ [lit "verification/checksums.sha256"; lit "README.txt"]).
  { rewrite namelist_reopen. rewrite <- (map_map fst filename), Hinfos, map_map.
    rewrite map_app. f_equal.
    - rewrite map_map. apply map_ext_in. intros e He.
      rewrite Forall_forall in Hent. now apply Hent.
    - destruct (fixed_names_facts opts) as (_ & Hn & _).
      unfold fixed_names in Hn. cbn [map] in *. rewrite map_app in *.
      cbn [map member_info filename] in *. exact Hn. }
  split; [|split; [exact Hnames|rewrite Hinfos, Hnames; reflexivity]].
  apply Forall_forall. intros n Hn. apply in_map_iff in Hn.
  destruct Hn as (e & <- & He). rewrite Forall_forall in Hent. now apply Hent.
Qed.

Lemma written_lines fs out (l : list (str * Path)) (ms : list (ZipInfo * bytes)) :
  Forall2 (written fs out) l ms ->
  Forall (fun e => until_nul (fst e) = fst e /\ snd e <> out) l ->
  map member_line ms
  = map rendered_line (map (fun e => (fst e, file_digest fs (snd e))) l).
Proof.
  induction 1 as [|e m l ms (Hfst & l0 & Hread) _ IH]; intros Hent; [reflexivity|].
  inversion Hent as [|? ? (Hnul & Hne) Hent']; subst.
  cbn [map]. rewrite (IH Hent'). f_equal.
  unfold member_line, rendered_line. cbn [fst snd].
  rewrite Hfst. cbn [member_info filename]. rewrite Hnul.
  unfold read_source in Hread. cbn [zf_file] in Hread.
  apply path_eqb_neq in Hne. rewrite Hne in Hread.
  unfold file_digest. rewrite Hread. reflexivity.
Qed.

Lemma written_payload fs out (l : list (str * Path)) (ms : list (ZipInfo * bytes)) :
  Forall2 (written fs out) l ms ->
  Forall (fun e => startswith (lit "payload/") (fst e) = true
                   /\ until_nul (fst e) = fst e) l ->
  Forall (fun m => is_payload m = true) ms.
Proof.
  induction 1 as [|e m l ms (Hfst & _) _ IH]; intros Hent; constructor.
  - inversion Hent as [|? ? (Hp & Hnul) _]; subst.
    unfold is_payload. rewrite Hfst. cbn [member_info filename]. now rewrite Hnul.
  - apply IH. now inversion Hent.
Qed.

Lemma archive_ledger fs opts now zf :
  wf_fs fs -> convert_aifm fs opts now = Ok zf ->
  ~ In (zf_file zf) (payload_sources fs opts) ->
  zf_read zf (lit "verification/checksums.sha256")
  = Ok (utf8_encode (ledger_of zf)).
Proof.
  intros Hwf H N.
  destruct (@archive_contents _ fs opts now zf Hwf H)
    as (ext & cs & payload & optional & Hext & Ha & Hm & L & Wp & Wo).
  set (entries := (lit "payload/audio/main." ++ ext, audio_path opts)
                  :: stems_entries fs opts) in *.
  assert (Hent : Forall (fun e : str * Path =>
                    startswith (lit "payload/") (fst e) = true
                    /\ until_nul (fst e) = fst e
                    /\ is_file fs (snd e) = true
                    /\ snd e <> zf_file zf) entries).
  { constructor.
    - cbn [fst snd]. split; [reflexivity|].
      split; [now apply audio_zip_path_no_nul|]. split.
      + apply convert_aifm_needs in H. destruct H as (_ & Hf & _). exact Hf.
      + intros E. apply N. rewrite <- E. now left.
    - eapply Forall_impl; [|apply (stems_entries_facts opts Hwf)].
      cbn beta. intros e (S1 & S2 & S3 & S4).
      split; [|split; [exact S2|split; [exact S3|]]].
      + change (lit "payload/stems/") with (lit "payload/" ++ lit "stems/") in S1.
        now apply startswith_app in S1.
      + intros E. apply N. now rewrite <- E. }
  set (g := fun e : str * Path => (fst e, file_digest fs (snd e))).
  assert (Hr : Forall2 (renders fs) entries (map g entries)).
  { clear - Hent. induction Hent as [|e l (_ & _ & He & _) _ IH]; cbn [map];
      constructor; [|exact IH].
    split; [reflexivity|]. cbn [g fst snd]. unfold sha256_file, file_digest, read_bytes.
    unfold is_file in He. destruct (fs_lookup fs (snd e)) as [[d|]|];
      try discriminate. reflexivity. }
  rewrite (make_checksums_spec Hr) in Hm.
  rewrite (@sorted_by_map _ _ fst str_ltb _ fst g entries) in Hm by reflexivity.
  injection Hm as <-.
  assert (Hlines : map member_line payload
                   = map rendered_line (map g (sorted_by fst str_ltb entries))).
  { apply (written_lines Wp). apply sorted_by_Forall.
    eapply Forall_impl; [|exact Hent]. cbn beta. tauto. }
  assert (Hfilter : filter is_payload (filelist zf) = payload).
  { rewrite L, filter_app, filter_not_payload_tail
      by exact (optional_written_not_payload _ Wo).
    rewrite app_nil_r. apply filter_all. apply (written_payload Wp).
    apply sorted_by_Forall. eapply Forall_impl; [|exact Hent]. cbn beta. tauto. }
  unfold ledger_of. rewrite Hfilter, Hlines.
  eapply (@zf_read_ledger zf
            (payload ++ (member_info (lit "metadata/manifest.json"),
                         utf8_encode (json_dumps (JDict (build_manifest opts now))))
                     :: optional));
    [rewrite L, <- app_assoc; reflexivity | reflexivity | reflexivity].
Qed.

(** X6: what the reader shows of a text asset of a converted archive: the
    text of the file that was given, and the empty string when none was
    given.  On any archive [read_optional_text] gives the empty string
    for a member that is not there, and raises exactly when the data of
    the member do not read back, with the exception [zf.read] raised. *)
Theorem read_optional_text_converted fs opts now zf :
  wf_fs fs -> convert_aifm fs opts now = Ok zf ->
  (forall e, In e (optional_entries opts) -> snd e <> zf_file zf ->
     exists data, read_bytes fs (snd e) = Ok data
                  /\ read_optional_text zf (fst e) = Ok (utf8_decode_replace data))
  /\ (forall name, startswith (lit "metadata/") name = true ->
        name <> lit "metadata/manifest.json" ->
        ~ In name (optional_names opts) ->
        read_optional_text zf name = Ok [])
  /\ (forall (ar : Archive) path,
        (~ In path (namelist ar) -> read_optional_text ar path = Ok [])
        /\ (forall e,
              read_optional_text ar path = Raise e <->
              exists d, zf_read ar path = Raise (damage_exn d) /\ e = damage_exn d)).
Proof.
  intros Hwf H. split; [|split].
  - intros e He Hne.
    destruct (@archive_contents _ fs opts now zf Hwf H)
      as (ext & cs & payload & optional & _ & _ & _ & L & _ & Wo).
    assert (Hnul : until_nul (fst e) = fst e).
    { unfold optional_entries in He.
      destruct (prompt_path opts), (negative_prompt_path opts), (lyrics_path opts),
        (persona_path opts), (declaration_path opts); cbn [app In] in He;
        repeat (destruct He as [<-|He]; [reflexivity|]); destruct He. }
    destruct (@written_member_read fs zf _ _ e
                (@namelist_NoDup _ fs opts now zf Hwf H)
                (fun m Hm => eq_ind_r (fun l => In m l)
                   (in_or_app _ _ m (or_intror (in_cons _ m _
                      (in_or_app _ _ m (or_introl Hm))))) L)
                Wo He Hnul Hne) as (data & Hd & Hr).
    exists data. split; [exact Hd|]. unfold read_optional_text. now rewrite Hr.
  - intros name Hmeta Hman Hno.
    destruct (@archive_names fs opts now zf Hwf H) as (ext & pn & _ & _ & Hp & Hn & _).
    assert (Habs : ~ In name (namelist zf)).
    { rewrite Hn. intros Hin. apply in_app_or in Hin. destruct Hin as [Hin|Hin].
      - rewrite Forall_forall in Hp. apply Hp in Hin.
        apply startswith_inv in Hin. destruct Hin as (y & ->). discriminate Hmeta.
      - destruct Hin as [Hin|Hin]; [now apply Hman|].
        apply in_app_or in Hin. destruct Hin as [Hin|Hin]; [now apply Hno|].
        destruct Hin as [<-|[<-|[]]]; discriminate Hmeta. }
    apply zf_read_absent in Habs. unfold read_optional_text. now rewrite Habs.
  - intros ar path. unfold read_optional_text.
    destruct (zf_read_cases ar path) as [(c & R & Hin)|[(d & R & Hin)|(R & N)]];
      rewrite R.
    + split; [contradiction|]. intros e. split; [discriminate|].
      intros (d & Hd & _). discriminate Hd.
    + split; [contradiction|]. intros e.
      split.
      * intros E. exists d. split; [reflexivity|]. destruct d; now injection E as <-.
      * intros (d' & [= Hd] & ->). rewrite <- Hd. now destruct d.
    + split; [reflexivity|]. intros e. split; [discriminate|].
      intros (d & Hd & _). injection Hd as Hd. symmetry in Hd.
      now apply damage_not_key_error in Hd.
Qed.
End Members.

Lemma payload_bytes_preserved_witness :
  exists zf,
    @convert_aifm sample_runtime sample_fs
      (sample_opts_stems [lit "m"; lit "song.wav"] [lit "m"; lit "out"]
         [lit "m"; lit "stems"]) sample_now = Ok zf
    /\ zf_read zf (lit "payload/audio/main.wav") = Ok (ascii_bytes "RIFF")
    /\ zf_read zf (lit "payload/stems/vocals.wav") = Ok (ascii_bytes "vv").
Proof.
  destruct (@convert_aifm sample_runtime sample_fs
              (sample_opts_stems [lit "m"; lit "song.wav"] [lit "m"; lit "out"]
                 [lit "m"; lit "stems"]) sample_now) as [zf|e] eqn:E;
    [|vm_compute in E; discriminate].
  exists zf. split; [reflexivity|].
  assert (N : ~ In (zf_file zf)
                (payload_sources sample_fs
                   (sample_opts_stems [lit "m"; lit "song.wav"] [lit "m"; lit "out"]
                      [lit "m"; lit "stems"]))).
  { pose proof E as E'. vm_compute in E'. injection E' as <-. vm_compute.
    intuition discriminate. }
  destruct (@payload_bytes_preserved sample_runtime sample_fs _ _ _ sample_fs_wf E N)
    as (azp & Ha & Hp).
  vm_compute in Ha. injection Ha as <-. split.
  - destruct (Hp (lit "payload/audio/main.wav", [lit "m"; lit "song.wav"]))
      as (data & Hd & Hr); [now left|].
    vm_compute in Hd. injection Hd as <-. exact Hr.
  - destruct (Hp (lit "payload/stems/vocals.wav", [lit "m"; lit "stems"; lit "vocals.wav"]))
      as (data & Hd & Hr); [right; vm_compute; tauto|].
    vm_compute in Hd. injection Hd as <-. exact Hr.
Defined.

Lemma read_optional_text_converted_witness :
  exists zf,
    @convert_aifm sample_runtime sample_fs
      (sample_opts_texts [lit "m"; lit "song.wav"] [lit "m"; lit "out"]
         (Some [lit "m"; lit "prompt.txt"]) None) sample_now = Ok zf
    /\ read_optional_text zf (lit "metadata/persona.txt") = Ok (lit "a calm tune")
    /\ read_optional_text zf (lit "metadata/declaration.txt") = Ok [].
Proof.
  destruct (@convert_aifm sample_runtime sample_fs
              (sample_opts_texts [lit "m"; lit "song.wav"] [lit "m"; lit "out"]
                 (Some [lit "m"; lit "prompt.txt"]) None) sample_now) as [zf|e] eqn:E;
    [|vm_compute in E; discriminate].
  exists zf. split; [reflexivity|].
  destruct (@read_optional_text_converted sample_runtime sample_fs _ _ _ sample_fs_wf E)
    as (Hgiven & Habsent & _).
  split.
  - destruct (Hgiven (lit "metadata/persona.txt", [lit "m"; lit "prompt.txt"]))
      as (data & Hd & Hr); [now left | |].
    + pose proof E as E'. vm_compute in E'. injection E' as <-. discriminate.
    + vm_compute in Hd. injection Hd as <-. exact Hr.
  - apply Habsent; [reflexivity | discriminate |].
    vm_compute. intuition discriminate.
Defined.

(** ** What verification looks at *)

Lemma zf_read_writestr (zf : ZipFile) (info : ZipInfo) (data : bytes) (name : str) :
  zf_read (writestr zf info data) name
  = if str_eqb (filename info) name then Ok data else zf_read zf name.
Proof.
  rewrite !zf_read_reopen. unfold writestr. cbn [filelist]. rewrite rev_app_distr.
  cbn [rev app find fst snd]. destruct (str_eqb (filename info) name); reflexivity.
Qed.

Lemma flat_map_ext_in (A B : Type) (f g : A -> list B) (l : list A) :
  (forall x, In x l -> f x = g x) -> flat_map f l = flat_map g l.
Proof.
  induction l as [|x l IH]; intros H; [reflexivity|]. cbn [flat_map].
  rewrite (H x (or_introl eq_refl)), IH; [reflexivity|].
  intros y Hy. apply H. now right.
Qed.

(** All but one element contribute nothing. *)
Lemma flat_map_single (A B : Type) (f : A -> list B) (l : list A) (x : A) :
  NoDup l -> In x l -> (forall y, In y l -> y <> x -> f y = []) ->
  flat_map f l = f x.
Proof.
  induction l as [|a l IH]; intros Hnd Hin H; [destruct Hin|].
  inversion Hnd as [|? ? Ha Hl]; subst. cbn [flat_map].
  destruct Hin as [->|Hin].
  - rewrite flat_map_nil; [now rewrite app_nil_r|].
    intros y Hy. apply H; [now right|]. intros ->. contradiction.
  - rewrite (H a (or_introl eq_refl)); [|intros ->; contradiction].
    cbn [app]. apply IH; auto. intros y Hy. apply H. now right.
Qed.

Lemma lower_hex_lower (d : str) : forallb is_lower_hex d = true -> lower d = d.
Proof.
  induction d as [|c d IH]; [reflexivity|]. cbn [forallb lower map].
  intros H. apply andb_true_iff in H. destruct H as [Hc Hd].
  fold (lower d). rewrite (IH Hd). f_equal. clear - Hc.
  destruct c as [[] [] [] [] [] [] [] []]; vm_compute in Hc |- *;
    first [discriminate Hc | reflexivity].
Qed.

Section Verifier.
Context {rt : Runtime} {laws : RuntimeLaws rt}.

(** Verification reads the ledger and the members the ledger lists, and
    nothing else: two archives that agree on those verify alike. *)
Lemma verify_reads_listed (zf zf' : ZipFile) :
  zf_read zf' (lit "verification/checksums.sha256")
  = zf_read zf (lit "verification/checksums.sha256") ->
  (forall data entries,
     zf_read zf (lit "verification/checksums.sha256") = Ok data ->
     parse_sha256sum (utf8_decode_replace data) = Ok entries ->
     forall e, In e entries -> zf_read zf' (snd e) = zf_read zf (snd e)) ->
  verify_payload_checksums zf' = verify_payload_checksums zf.
Proof.
  intros Hl Hm. unfold verify_payload_checksums. rewrite Hl.
  destruct (zf_read zf (lit "verification/checksums.sha256")) as [data|e] eqn:E;
    [|reflexivity].
  cbn [bind]. rewrite parse_sha256sum_total. cbn [bind].
  rewrite !verify_entries_spec. cbn [app]. f_equal.
  apply flat_map_ext_in. intros [h p] Hin. unfold discrepancy.
  pose proof (Hm data _ eq_refl (parse_sha256sum_total _) (h, p) Hin) as R.
  cbn [snd] in R. now rewrite R.
Qed.

(** X7: a member that is not the ledger and is not listed in it is never
    checked: adding it, or writing it again with other content, changes
    nothing in the result of verification.  The manifest, the text
    assets and the README are such members. *)
Theorem unlisted_member_unchecked (zf : ZipFile) (info : ZipInfo) (data : bytes) :
  filename info <> lit "verification/checksums.sha256" ->
  (forall ledger entries,
     zf_read zf (lit "verification/checksums.sha256") = Ok ledger ->
     parse_sha256sum (utf8_decode_replace ledger) = Ok entries ->
     ~ In (filename info) (map snd entries)) ->
  verify_payload_checksums (writestr zf info data) = verify_payload_checksums zf.
Proof.
  intros Hn Hu. apply verify_reads_listed.
  - rewrite zf_read_writestr. apply str_eqb_neq in Hn. now rewrite Hn.
  - intros ledger entries Hl Hp e He. rewrite zf_read_writestr.
    destruct (str_eqb (filename info) (snd e)) eqn:E; [|reflexivity].
    apply str_eqb_eq in E. exfalso. apply (Hu ledger entries Hl Hp).
    rewrite E. now apply in_map.
Qed.

(** The entries read back from the ledger of an archive. *)
Lemma parse_ledger_of (zf : ZipFile) :
  Forall (fun n => startswith (lit "payload/") n = true -> path_ok n = true)
    (namelist zf) ->
  parse_sha256sum (ledger_of zf)
  = Ok (map (fun m => (sha256_hexdigest (snd m), filename (fst m)))
          (filter is_payload (filelist zf))).
Proof.
  intros Hok. rewrite parse_sha256sum_total. f_equal. unfold ledger_of.
  set (ms := filter is_payload (filelist zf)).
  replace (map member_line ms)
    with (map rendered_line
            (map (fun m => (filename (fst m), sha256_hexdigest (snd m))) ms))
    by (rewrite map_map; reflexivity).
  rewrite parse_rendered.
  - rewrite map_map. reflexivity.
  - apply Forall_forall. intros x Hx. apply in_map_iff in Hx.
    destruct Hx as (m & <- & Hm). cbn [fst snd]. subst ms.
    apply filter_In in Hm. destruct Hm as [Hin Hp]. split; [|apply hexdigest_ok].
    rewrite Forall_forall in Hok. apply Hok; [|exact Hp].
    rewrite namelist_reopen. apply in_map_iff. exists m. now split.
Qed.

(** The lines of the ledger of an archive with payload, when no name of
    a payload member holds a line feed. *)
Lemma ledger_of_lines (zf : ZipFile) :
  filter is_payload (filelist zf) <> [] ->
  Forall (fun n => no_newline n = true) (namelist zf) ->
  split_char "010" (ledger_of zf)
  = map member_line (filter is_payload (filelist zf)) ++ [[]].
Proof.
  intros Hne Hn. unfold ledger_of.
  replace (join nl (map member_line (filter is_payload (filelist zf))) ++ nl)
    with (join nl (map member_line (filter is_payload (filelist zf))) ++ "010" :: [])
    by reflexivity.
  rewrite split_char_app. f_equal. change nl with ["010"%char].
  apply split_char_join.
  - destruct (filter is_payload (filelist zf)); [congruence | discriminate].
  - apply Forall_map, Forall_forall. intros m Hm. apply filter_In in Hm.
    destruct Hm as [Hin _]. apply no_newline_In. unfold member_line, no_newline.
    rewrite !forallb_app.
    pose proof (lower_hex_no_newline _ (hexdigest_lower_hex (snd m))) as H1.
    unfold no_newline in H1. rewrite H1. cbn [forallb andb].
    rewrite Forall_forall in Hn. apply (Hn (filename (fst m))).
    rewrite namelist_reopen. apply in_map_iff. exists m. now split.
Qed.

(** A converted archive has payload. *)
Lemma payload_nonempty fs opts now zf :
  wf_fs fs -> convert_aifm fs opts now = Ok zf ->
  filter is_payload (filelist zf) <> [].
Proof.
  intros Hwf H.
  destruct (@archive_names _ fs opts now zf Hwf H)
    as (ext & pn & _ & Hpn & Hp & Hn & _).
  assert (Hin : In (lit "payload/audio/main." ++ ext) (namelist zf)).
  { rewrite Hn. apply in_or_app. left. subst pn. apply in_map_iff.
    exists (lit "payload/audio/main." ++ ext, audio_path opts).
    split; [reflexivity|]. apply sorted_by_In. now left. }
  rewrite namelist_reopen in Hin. apply in_map_iff in Hin.
  destruct Hin as (m & Em & Hm). intros E.
  assert (X : In m (filter is_payload (filelist zf))).
  { apply filter_In. split; [exact Hm|]. unfold is_payload. now rewrite Em. }
  rewrite E in X. destruct X.
Qed.

(** X5: the ledger in the archive is the ledger of the archive: the digest
    of the bytes stored, two spaces and the name, for each member stored
    below [payload/], in the order stored, each followed by a line feed.
    When no member name holds a line feed these are its lines, one for
    each payload member and no other; and when the payload names have no
    whitespace at either end and no line boundary, the reader parses
    from it one entry for each payload member. *)
Theorem ledger_matches_archive fs opts now zf :
  wf_fs fs -> convert_aifm fs opts now = Ok zf ->
  ~ In (zf_file zf) (payload_sources fs opts) ->
  zf_read zf (lit "verification/checksums.sha256")
  = Ok (utf8_encode (ledger_of zf))
  /\ (Forall (fun n => no_newline n = true) (namelist zf) ->
      split_char "010" (ledger_of zf)
      = map member_line (filter is_payload (filelist zf)) ++ [[]])
  /\ (Forall (fun n => startswith (lit "payload/") n = true -> path_ok n = true)
        (namelist zf) ->
      parse_sha256sum (ledger_of zf)
      = Ok (map (fun m => (sha256_hexdigest (snd m), filename (fst m)))
              (filter is_payload (filelist zf)))).
Proof.
  intros Hwf H N. split; [exact (@archive_ledger rt fs opts now zf Hwf H N)|]. split.
  - apply ledger_of_lines. exact (@payload_nonempty fs opts now zf Hwf H).
  - apply parse_ledger_of.
Qed.

(** X8: tampering is found: in an archive whose ledger is the ledger of its
    payload, writing other content over one payload member makes
    verification report exactly that member, with the digest listed
    and the digest found. *)
Theorem tampered_payload_detected (zf : ZipFile) (m : ZipInfo * bytes)
  (data' : bytes) :
  zf_read zf (lit "verification/checksums.sha256")
  = Ok (utf8_encode (ledger_of zf)) ->
  NoDup (namelist zf) ->
  Forall (fun n => startswith (lit "payload/") n = true -> path_ok n = true)
    (namelist zf) ->
  In m (filelist zf) -> is_payload m = true ->
  sha256_hexdigest data' <> sha256_hexdigest (snd m) ->
  verify_payload_checksums (writestr zf (fst m) data')
  = Ok [mismatch_message (filename (fst m)) (sha256_hexdigest (snd m))
          (sha256_hexdigest data')].
Proof.
  intros Hl Hnd Hok Hin Hp Hne.
  assert (Hnl : str_eqb (filename (fst m)) (lit "verification/checksums.sha256") = false).
  { apply str_eqb_neq. intros E. unfold is_payload in Hp. rewrite E in Hp.
    discriminate Hp. }
  unfold verify_payload_checksums. rewrite zf_read_writestr, Hnl, Hl. cbn [bind].
  rewrite decode_encode, (@parse_ledger_of zf Hok). cbn [bind].
  rewrite verify_entries_spec. cbn [app]. f_equal. rewrite flat_map_concat_map, map_map,
    <- flat_map_concat_map.
  assert (Hnd' : NoDup (filter is_payload (filelist zf))).
  { apply NoDup_filter. rewrite namelist_reopen in Hnd. now apply NoDup_map_inv in Hnd. }
  rewrite (@flat_map_single _ _ _ _ m Hnd').
  - unfold discrepancy. rewrite zf_read_writestr, str_eqb_refl.
    rewrite !lower_hex_lower by apply hexdigest_lower_hex.
    apply str_eqb_neq in Hne. now rewrite Hne.
  - apply filter_In. now split.
  - intros y Hy Hym. apply filter_In in Hy. destruct Hy as [Hy _].
    unfold discrepancy. rewrite zf_read_writestr.
    assert (En : str_eqb (filename (fst m)) (filename (fst y)) = false).
    { apply str_eqb_neq. intros E. apply Hym. rewrite namelist_reopen in Hnd.
      now apply (NoDup_map_eq (fun m => filename (fst m)) (filelist zf)). }
    rewrite En, (zf_read_member zf y Hnd Hy). now rewrite str_eqb_refl.
Qed.
End Verifier.

Lemma ledger_matches_archive_witness :
  exists zf,
    @convert_aifm sample_runtime sample_fs
      (sample_opts_stems [lit "m"; lit "song.wav"] [lit "m"; lit "out"]
         [lit "m"; lit "stems"]) sample_now = Ok zf
    /\ zf_read zf (lit "verification/checksums.sha256")
       = Ok (utf8_encode (ledger_of zf))
    /\ split_char "010" (ledger_of zf)
       = [ sample_hexdigest (ascii_bytes "RIFF") ++ lit "  payload/audio/main.wav";
           sample_hexdigest (ascii_bytes "dd") ++ lit "  payload/stems/drums.wav";
           sample_hexdigest (ascii_bytes "vv") ++ lit "  payload/stems/vocals.wav";
           [] ].
Proof.
  destruct (@convert_aifm sample_runtime sample_fs
              (sample_opts_stems [lit "m"; lit "song.wav"] [lit "m"; lit "out"]
                 [lit "m"; lit "stems"]) sample_now) as [zf|e] eqn:E;
    [|vm_compute in E; discriminate].
  exists zf.
  destruct (@ledger_matches_archive sample_runtime sample_laws _ _ _ _
              sample_fs_wf E) as (Hl & Hs & _).
  - vm_compute in E. injection E as <-. vm_compute. intuition discriminate.
  - split; [reflexivity|]. split; [exact Hl|]. rewrite Hs.
    + vm_compute in E. injection E as <-. vm_compute. reflexivity.
    + vm_compute in E. injection E as <-. vm_compute. repeat constructor.
Defined.

Lemma unlisted_member_unchecked_witness :
  exists zf,
    @convert_aifm sample_runtime sample_fs
      (sample_opts [lit "m"; lit "song.wav"] [lit "m"; lit "out"]) sample_now = Ok zf
    /\ @verify_payload_checksums sample_runtime
         (writestr zf (member_info (lit "metadata/manifest.json")) (ascii_bytes "{}"))
       = Ok [].
Proof.
  destruct (@convert_aifm sample_runtime sample_fs
              (sample_opts [lit "m"; lit "song.wav"] [lit "m"; lit "out"])
              sample_now) as [zf|e] eqn:E;
    [|vm_compute in E; discriminate].
  exists zf. split; [reflexivity|].
  rewrite (@unlisted_member_unchecked sample_runtime zf).
  - vm_compute in E. injection E as <-. vm_compute. reflexivity.
  - discriminate.
  - vm_compute in E. injection E as <-. intros ledger entries Hl Hp.
    vm_compute in Hl. injection Hl as <-. vm_compute in Hp. injection Hp as <-.
    cbn. intuition discriminate.
Defined.

Lemma tampered_payload_detected_witness :
  exists zf,
    @convert_aifm sample_runtime sample_fs
      (sample_opts [lit "m"; lit "song.wav"] [lit "m"; lit "out"]) sample_now = Ok zf
    /\ @verify_payload_checksums sample_runtime
         (writestr zf (member_info (lit "payload/audio/main.wav")) (ascii_bytes "RIFX"))
       = Ok [mismatch_message (lit "payload/audio/main.wav")
               (sample_hexdigest (ascii_bytes "RIFF"))
               (sample_hexdigest (ascii_bytes "RIFX"))].
Proof.
  destruct (@convert_aifm sample_runtime sample_fs
              (sample_opts [lit "m"; lit "song.wav"] [lit "m"; lit "out"])
              sample_now) as [zf|e] eqn:E;
    [|vm_compute in E; discriminate].
  exists zf. split; [reflexivity|].
  vm_compute in E. injection E as <-.
  apply (@tampered_payload_detected sample_runtime sample_laws _
           (member_info (lit "payload/audio/main.wav"), ascii_bytes "RIFF")).
  - vm_compute. reflexivity.
  - cbn. repeat constructor; cbn; intuition discriminate.
  - repeat constructor; vm_compute; intros; first [discriminate | reflexivity].
  - now left.
  - reflexivity.
  - vm_compute. discriminate.
Defined.

(** ** The output path and the manifest *)

Lemma rfind_app (c : ascii) (a b : str) :
  rfind c (a ++ b)
  = match rfind c b with
    | Some i => Some (List.length a + i)
    | None => rfind c a
    end.
Proof.
  induction a as [|x a IH]; cbn [app rfind List.length].
  - destruct (rfind c b); reflexivity.
  - rewrite IH. destruct (rfind c b); [reflexivity|]. reflexivity.
Qed.

Lemma name_stem_nonempty (name : str) : name <> [] -> name_stem name <> [].
Proof.
  intros Hn. unfold name_stem, name_suffix.
  destruct (rfind "." name) as [i|]; [|rewrite Nat.sub_0_r, firstn_all; exact Hn].
  destruct (Nat.ltb 0 i && Nat.ltb i (List.length name - 1)) eqn:E;
    [|cbn [List.length]; rewrite Nat.sub_0_r, firstn_all; exact Hn].
  apply andb_true_iff in E. destruct E as [E1 E2].
  apply Nat.ltb_lt in E1, E2. rewrite length_skipn.
  replace (List.length name - (List.length name - i)) with i by lia.
  destruct name as [|c name]; [contradiction|]. destruct i; [lia|]. discriminate.
Qed.

Lemma name_suffix_aifm (stem : str) :
  stem <> [] -> name_suffix (stem ++ lit ".aifm") = lit ".aifm".
Proof.
  intros Hs. unfold name_suffix. rewrite rfind_app.
  replace (rfind "." (lit ".aifm")) with (Some 0) by reflexivity.
  rewrite Nat.add_0_r, length_app.
  replace (List.length (lit ".aifm")) with 5 by reflexivity.
  assert (L : 0 < List.length stem) by (destruct stem; [contradiction | cbn; lia]).
  replace (Nat.ltb 0 (List.length stem)) with true by (symmetry; now apply Nat.ltb_lt).
  replace (Nat.ltb (List.length stem) (List.length stem + 5 - 1)) with true
    by (symmetry; apply Nat.ltb_lt; lia).
  cbn [andb]. rewrite skipn_app, skipn_all, Nat.sub_diag. reflexivity.
Qed.

(** X11: the archive file always has the suffix [.aifm], in some letter case,
    and lies in the directory of the path asked for; turning the output
    path into the archive path a second time changes nothing. *)
Theorem output_path_aifm (out out' : Path) :
  output_path out = Ok out' ->
  lower (path_suffix out') = lit ".aifm"
  /\ path_parent out' = path_parent out
  /\ output_path out' = Ok out'.
Proof.
  intros H. pose proof (output_path_spec out) as S. rewrite H in S.
  destruct S as [Hn ->].
  destruct (str_eqb (lower (path_suffix out)) (lit ".aifm")) eqn:E.
  - split; [now apply str_eqb_eq|]. split; [reflexivity|exact H].
  - assert (Hs : path_suffix (path_parent out ++ [name_stem (path_name out) ++ lit ".aifm"])
                 = lit ".aifm").
    { unfold path_suffix, path_name. rewrite last_last.
      apply name_suffix_aifm. now apply name_stem_nonempty. }
    split; [rewrite Hs; reflexivity|]. split.
    + unfold path_parent at 1. now rewrite removelast_last.
    + unfold output_path. rewrite Hs. reflexivity.
Qed.

Lemma output_path_aifm_witness :
  lower (path_suffix [lit "m"; lit "take.1.WAV.aifm"]) = lit ".aifm"
  /\ output_path [lit "m"; lit "take.1.WAV"] = Ok [lit "m"; lit "take.1.aifm"].
Proof.
  split; [|reflexivity].
  apply (@output_path_aifm [lit "m"; lit "take.1.WAV.aifm"]). reflexivity.
Defined.

(** X12: the keys of the manifest come in one order: the thirteen core keys,
    the references to the assets given, [stems_included], and
    [public_attestation] when a URL was given.  The flag
    [prompts_included] says whether [prompt_refs] is there, and
    [stems_included] whether a stems directory was given, whatever it
    holds. *)
Theorem manifest_shape (opts : ConvertOptions) (now : str) :
  map fst (build_manifest opts now)
  = core_keys ++ reference_keys opts ++ [lit "stems_included"]
    ++ (match urls opts with [] => [] | _ :: _ => [lit "public_attestation"] end)
  /\ dict_get (lit "inputs") (build_manifest opts now)
     = Some (JDict
         [ (lit "prompts_included",
            JBool (has_key (lit "prompt_refs") (build_manifest opts now)));
           (lit "seeds_included", JBool false);
           (lit "source_assets_included", JBool false) ])
  /\ dict_get (lit "stems_included") (build_manifest opts now)
     = Some (JBool (given (stems_dir opts))).
Proof.
  destruct opts as [a o t d cm ti au co oc ais ap tn pp np lp sd pe de ur].
  destruct pe, de, lp, pp, np, sd, ur; vm_compute; repeat split; reflexivity.
Qed.

Lemma manifest_shape_witness :
  has_key (lit "prompt_refs") (build_manifest prompt_only_opts sample_now) = true
  /\ dict_get (lit "stems_included") (build_manifest prompt_only_opts sample_now)
     = Some (JBool false).
Proof.
  split; [reflexivity|].
  exact (proj2 (proj2 (manifest_shape prompt_only_opts sample_now))).
Defined.

(** ** The files below a directory *)

Lemma path_compare_eq (p q : Path) : list_compare str_compare p q = Eq <-> p = q.
Proof. apply list_compare_refl, str_compare_eq. Qed.

Lemma path_compare_opp (p q : Path) :
  list_compare str_compare q p = CompOpp (list_compare str_compare p q).
Proof. apply list_compare_antisym; [apply str_compare_eq | apply str_compare_opp]. Qed.

Lemma path_compare_trans (p q r : Path) (c : comparison) :
  list_compare str_compare p q = c -> list_compare str_compare q r = c ->
  list_compare str_compare p r = c.
Proof.
  apply list_compare_trans;
    [apply str_compare_eq | apply str_compare_trans | apply str_compare_opp].
Qed.

Lemma path_le_trans (p q r : Path) : path_le p q -> path_le q r -> path_le p r.
Proof.
  unfold path_le. intros H1 H2.
  destruct (list_compare str_compare p q) eqn:E1; [| |congruence].
  - apply path_compare_eq in E1. now subst.
  - destruct (list_compare str_compare q r) eqn:E2; [| |congruence].
    + apply path_compare_eq in E2. subst. now rewrite E1.
    + now rewrite (path_compare_trans _ _ _ E1 E2).
Qed.

Lemma path_ltb_false_le (p q : Path) : path_ltb q p = false -> path_le p q.
Proof.
  unfold path_ltb, path_le. rewrite (path_compare_opp q p).
  destruct (list_compare str_compare q p); simpl; congruence.
Qed.

Lemma path_ltb_true_le (p q : Path) : path_ltb p q = true -> path_le p q.
Proof. unfold path_ltb, path_le. destruct (list_compare str_compare p q); congruence. Qed.

Lemma sorted_by_path_sorted (l : list Path) :
  StronglySorted path_le (sorted_by (fun p => p) path_ltb l).
Proof.
  apply Sorted_StronglySorted.
  { intros x y z. apply path_le_trans. }
  induction l as [|x l IH]; simpl; [constructor|].
  revert IH. generalize (sorted_by (fun p : list (list ascii) => p) path_ltb l).
  intros s Hs. induction s as [|y s IHs]; simpl.
  - repeat constructor.
  - destruct (path_ltb y x) eqn:E.
    + inversion Hs as [|? ? Hs' Hd]; subst. constructor; [now apply IHs|].
      destruct s as [|z s]; simpl.
      * constructor. now apply path_ltb_true_le.
      * destruct (path_ltb z x).
        -- inversion Hd; subst. now constructor.
        -- constructor. now apply path_ltb_true_le.
    + constructor; [exact Hs|]. constructor. now apply path_ltb_false_le.
Qed.

Lemma StronglySorted_filter (A : Type) (R : A -> A -> Prop) (f : A -> bool)
  (l : list A) :
  StronglySorted R l -> StronglySorted R (filter f l).
Proof.
  induction 1 as [|x l Hs IH Hx]; cbn [filter]; [constructor|].
  destruct (f x); [|exact IH]. constructor; [exact IH|].
  apply Forall_forall. intros y Hy. apply filter_In in Hy.
  rewrite Forall_forall in Hx. now apply Hx.
Qed.

(** X13: [iter_files_recursive] gives the regular files strictly below the
    root and nothing else, each once, in ascending order of path. *)
Theorem iter_files_recursive_spec (fs : filesystem) (root : Path) :
  NoDup (map fst fs) ->
  (forall f, In f (iter_files_recursive fs root)
             <-> is_strict_prefix root f = true /\ is_file fs f = true)
  /\ NoDup (iter_files_recursive fs root)
  /\ StronglySorted path_le (iter_files_recursive fs root).
Proof.
  intros Hnd. split; [|split].
  - intros f. split.
    + intros H. apply iter_files_recursive_In in H. tauto.
    + intros [Hp Hf]. unfold iter_files_recursive, rglob.
      apply filter_In. split; [|exact Hf]. apply sorted_by_In, filter_In.
      split; [now apply is_file_In | exact Hp].
  - now apply iter_files_recursive_NoDup.
  - unfold iter_files_recursive. apply StronglySorted_filter, sorted_by_path_sorted.
Qed.

Lemma iter_files_recursive_spec_witness :
  iter_files_recursive sample_fs [lit "m"; lit "stems"]
  = [ [lit "m"; lit "stems"; lit "drums.wav"];
      [lit "m"; lit "stems"; lit "vocals.wav"] ]
  /\ NoDup (iter_files_recursive sample_fs [lit "m"; lit "stems"]).
Proof.
  split; [reflexivity|].
  apply (@iter_files_recursive_spec sample_fs [lit "m"; lit "stems"]).
  exact (proj1 sample_fs_wf).
Defined.

(** ** Normalizing twice *)

Lemma fold_normpath_step_dotdots (k j : nat) :
  fold_left (normpath_step 0) (repeat dotdot k) (repeat dotdot j)
  = repeat dotdot (j + k).
Proof.
  revert j. induction k as [|k IH]; intros j; cbn [repeat fold_left].
  - now rewrite Nat.add_0_r.
  - replace (normpath_step 0 (repeat dotdot j) dotdot) with (repeat dotdot (S j)).
    + rewrite IH. f_equal. lia.
    + unfold normpath_step.
      replace (str_eqb dotdot [] || str_eqb dotdot dot) with false by reflexivity.
      replace (negb (str_eqb dotdot dotdot)) with false by reflexivity.
      destruct j as [|j].
      * reflexivity.
      * cbn [Nat.eqb andb orb]. rewrite last_repeat.
        replace (str_eqb dotdot dotdot) with true by reflexivity.
        cbn [repeat]. rewrite orb_true_r.
        change (dotdot :: repeat dotdot j) with (repeat dotdot (S j)).
        now rewrite <- repeat_cons.
Qed.

Lemma proper_no_sep (rest : list str) :
  Forall proper_segment rest -> Forall (fun x => ~ In "/" x) rest.
Proof. apply Forall_impl. intros c (_ & _ & _ & H). exact H. Qed.

(** X14: an archive path that [normalize_zip_path] gave is not changed by
    normalizing it again, except that the empty path, which an input of
    slashes alone gives, becomes [.]. *)
Theorem normalize_zip_path_idempotent (a : str) (p : list str) (r : str) :
  normalize_zip_path (a :: p) = Ok r ->
  normalize_zip_path [r] = Ok (match r with [] => dot | _ :: _ => r end).
Proof.
  unfold normalize_zip_path at 1. intros [= <-].
  destruct (normpath_spec (posix_join a p)) as [E|(k & rest & E & Hr & _)];
    rewrite E.
  - reflexivity.
  - rewrite lstrip_sep_slashes.
    destruct (join_normal_form_head k Hr) as [J|(c & s & J & Hc)]; rewrite J.
    + reflexivity.
    + destruct (lstrip_sep_keep s Hc) as [L S]. rewrite L.
      unfold normalize_zip_path, posix_join. cbn [fold_left]. f_equal.
      assert (Hcomps : repeat dotdot k ++ rest <> []).
      { intros N. rewrite N in J. discriminate J. }
      assert (Hsplit : split_char "/" (c :: s) = repeat dotdot k ++ rest).
      { rewrite <- J. apply (split_char_join "/"); [exact Hcomps|].
        apply Forall_app. split; [|now apply proper_no_sep].
        apply Forall_forall. intros x Hx. apply repeat_spec in Hx. subst x.
        cbn. intuition discriminate. }
      rewrite normpath_nonempty by discriminate.
      assert (Hi : initial_slashes (c :: s) = 0)
        by (unfold initial_slashes; now rewrite S).
      rewrite Hi, Hsplit, fold_left_app.
      change (@nil (list ascii)) with (repeat dotdot 0) at 1.
      rewrite fold_normpath_step_dotdots, fold_normpath_step_proper by exact Hr.
      cbn [repeat concat app Nat.add]. rewrite J. exact L.
Qed.

Lemma normalize_zip_path_idempotent_witness :
  normalize_zip_path [lit "../x/y"] = Ok (lit "../x/y")
  /\ normalize_zip_path [[]] = Ok dot.
Proof.
  split.
  - apply (@normalize_zip_path_idempotent (lit "..") [lit "x//"; lit "./y/"]).
    reflexivity.
  - apply (@normalize_zip_path_idempotent (lit "/") []). reflexivity.
Defined.

(** ** What the parser of the ledger gives *)

Lemma forallb_lstrip_by (f : ascii -> bool) (s : str) :
  forallb f (lstrip_by f s) = forallb f s.
Proof.
  induction s as [|c r IH]; [reflexivity|]. cbn [lstrip_by].
  destruct (f c) eqn:E; [|reflexivity]. cbn [forallb]. now rewrite E, IH.
Qed.

Lemma lstrip_by_head (f : ascii -> bool) (s : str) (c : ascii) (r : str) :
  lstrip_by f s = c :: r -> f c = false.
Proof.
  induction s as [|x s IH]; [discriminate|]. cbn [lstrip_by].
  destruct (f x) eqn:E; [exact IH|]. now intros [= <- _].
Qed.

Lemma lstrip_by_split (f : ascii -> bool) (s : str) :
  exists w, s = w ++ lstrip_by f s.
Proof.
  induction s as [|x s (w & IH)]; [now exists []|]. cbn [lstrip_by].
  destruct (f x); [|now exists []]. exists (x :: w). cbn [app]. now f_equal.
Qed.

Lemma lstrip_by_nil (f : ascii -> bool) (s : str) :
  lstrip_by f s = [] <-> forallb f s = true.
Proof.
  rewrite <- (forallb_lstrip_by f s). split; [now intros ->|].
  destruct (lstrip_by f s) as [|c r] eqn:E; [reflexivity|].
  apply lstrip_by_head in E. cbn [forallb]. now rewrite E.
Qed.

Lemma forallb_rev (f : ascii -> bool) (s : str) : forallb f (rev s) = forallb f s.
Proof.
  induction s as [|c r IH]; [reflexivity|]. cbn [rev forallb].
  rewrite forallb_app, IH. cbn [forallb]. rewrite andb_true_r. apply andb_comm.
Qed.

(** [strip] gives the empty string exactly on whitespace. *)
Lemma strip_nil (s : str) : strip s = [] <-> forallb isspace s = true.
Proof.
  unfold strip, rstrip_by. rewrite <- (forallb_lstrip_by isspace s).
  rewrite <- (forallb_rev isspace (lstrip_by isspace s)).
  rewrite <- lstrip_by_nil. split.
  - intros H. apply (f_equal (@rev ascii)) in H. now rewrite rev_involutive in H.
  - now intros ->.
Qed.

(** What [strip] gives has no whitespace at either end. *)
Lemma strip_clean (s : str) : strip s = [] \/ no_outer_space (strip s) = true.
Proof.
  unfold strip, rstrip_by.
  destruct (lstrip_by isspace (rev (lstrip_by isspace s))) as [|d u] eqn:Eu;
    [now left|].
  right. pose proof (lstrip_by_head _ _ Eu) as Hd.
  destruct (lstrip_by_split isspace (rev (lstrip_by isspace s))) as (w & Hw).
  rewrite Eu in Hw. apply (f_equal (@rev ascii)) in Hw.
  rewrite rev_involutive, rev_app_distr in Hw. cbn [rev] in *.
  destruct (lstrip_by isspace s) as [|c t] eqn:Et.
  - destruct (rev u); discriminate Hw.
  - pose proof (lstrip_by_head _ _ Et) as Hc.
    assert (Hhead : exists x, rev u ++ [d] = c :: x).
    { destruct (rev u) as [|y ys]; cbn [app] in Hw |- *.
      - injection Hw as -> _. now exists [].
      - injection Hw as -> _. now exists (ys ++ [d]). }
    destruct Hhead as (x & Hx). unfold no_outer_space. rewrite Hx, <- Hx.
    rewrite last_last, Hc, Hd. reflexivity.
Qed.

Lemma strip_clean_of (s : str) :
  forallb isspace s = false -> no_outer_space (strip s) = true.
Proof.
  intros H. destruct (strip_clean s) as [E|E]; [|exact E].
  apply strip_nil in E. congruence.
Qed.

Lemma split_ws_cons (c : ascii) (r : str) :
  split_ws (c :: r)
  = if isspace c then split_ws r
    else match r with
         | [] => [[c]]
         | c' :: _ =>
             if isspace c' then [c] :: split_ws r
             else match split_ws r with
                  | [] => [[c]]
                  | tok :: toks => (c :: tok) :: toks
                  end
         end.
Proof. destruct r; reflexivity. Qed.

(** The tokens of [split()] are not empty and hold no whitespace. *)
Lemma split_ws_tokens (s : str) :
  Forall (fun t => t <> [] /\ no_space t = true) (split_ws s).
Proof.
  induction s as [|c r IH]; [constructor|]. rewrite split_ws_cons.
  destruct (isspace c) eqn:Ec; [exact IH|].
  assert (Hc : [c] <> [] /\ no_space [c] = true).
  { split; [discriminate|]. unfold no_space. cbn [forallb]. now rewrite Ec. }
  destruct r as [|c' r']; [now repeat constructor|].
  destruct (isspace c'); [now constructor|].
  destruct (split_ws (c' :: r')) as [|tok toks]; [now repeat constructor|].
  inversion IH as [|? ? (_ & Ht) Hl]; subst. constructor; [|exact Hl].
  split; [discriminate|]. unfold no_space in *. cbn [forallb]. now rewrite Ec, Ht.
Qed.

Lemma find_sub_spec (sub s : str) (i : nat) :
  find_sub sub s = Some i -> exists y, skipn i s = sub ++ y.
Proof.
  revert i. induction s as [|c r IH]; intros i; cbn [find_sub].
  - destruct (startswith sub []) eqn:E; [|discriminate].
    intros [= <-]. now apply startswith_inv.
  - destruct (startswith sub (c :: r)) eqn:E.
    + intros [= <-]. now apply startswith_inv.
    + destruct (find_sub sub r) as [j|]; [|discriminate]. cbn [option_map].
      intros [= <-]. cbn [skipn]. now apply IH.
Qed.

Lemma no_outer_space_ends (l : str) :
  no_outer_space l = true ->
  exists c t x d, l = c :: t /\ l = x ++ [d] /\ isspace c = false /\ isspace d = false.
Proof.
  unfold no_outer_space. destruct l as [|c t]; [discriminate|]. intros H.
  apply andb_true_iff in H. destruct H as [H1 H2].
  apply negb_true_iff in H1, H2.
  destruct (exists_last (l := c :: t)) as (x & d & E); [discriminate|].
  exists c, t, x, d. repeat split; auto. rewrite E in H2.
  now rewrite last_last in H2.
Qed.

(** Every entry of a line has a digest and a path that are not empty
    and have no whitespace at either end. *)
Lemma ledger_line_entry_clean (line : str) :
  Forall (fun e => no_outer_space (fst e) = true /\ no_outer_space (snd e) = true)
    (ledger_line_entry line).
Proof.
  unfold ledger_line_entry. destruct (strip_clean line) as [E|Hl].
  { rewrite E. constructor. }
  destruct (strip line) as [|c0 t0] eqn:El; [constructor|]. rewrite <- El in *.
  destruct (find_sub (lit "  ") (strip line)) as [i|] eqn:Ef.
  - constructor; [|constructor]. cbn [fst snd].
    destruct (no_outer_space_ends _ Hl) as (c & t & x & d & Ec & Ed & Hc & Hd).
    destruct (find_sub_spec _ _ Ef) as (y & Hy).
    split; apply strip_clean_of.
    + destruct i as [|i].
      * cbn [skipn] in Hy. rewrite Ec in Hy. injection Hy as -> _.
        discriminate Hc.
      * rewrite Ec. cbn [firstn forallb]. now rewrite Hc.
    + assert (Hsk : skipn (i + 2) (strip line) = y).
      { rewrite Nat.add_comm, <- skipn_skipn, Hy. reflexivity. }
      rewrite Hsk.
      assert (Hsplit : strip line = firstn i (strip line) ++ lit "  " ++ y).
      { rewrite <- Hy. symmetry. apply firstn_skipn. }
      destruct (exists_last (l := y)) as (y' & e & Ey).
      { intros ->. rewrite Ed in Hsplit.
        change (lit "  " ++ []) with ([" "] ++ [" "]) in Hsplit.
        rewrite !app_assoc in Hsplit. apply app_inj_tail in Hsplit.
        destruct Hsplit as [_ ->]. discriminate Hd. }
      rewrite Ey in Hsplit. rewrite Ed in Hsplit.
      rewrite !app_assoc in Hsplit. apply app_inj_tail in Hsplit.
      destruct Hsplit as [_ ->]. rewrite Ey, forallb_app. cbn [forallb].
      rewrite Hd. now rewrite andb_false_r.
  - pose proof (split_ws_tokens (strip line)) as Ht.
    destruct (split_ws (strip line)) as [|h [|p toks]]; try constructor;
      [|constructor].
    inversion Ht as [|? ? (Hh1 & Hh2) Ht']; subst.
    inversion Ht' as [|? ? (Hp1 & Hp2) _]; subst. cbn [fst snd].
    split; now apply no_space_no_outer_space.
Qed.

(** X15: on every text the parser returns entries, and in each of them the
    digest and the path are not empty and have no whitespace at either
    end: verification never looks up an empty name. *)
Theorem parse_sha256sum_clean (text : str) :
  exists entries,
    parse_sha256sum text = Ok entries
    /\ Forall (fun e => no_outer_space (fst e) = true
                        /\ no_outer_space (snd e) = true) entries.
Proof.
  eexists. split; [apply parse_sha256sum_total|].
  induction (splitlines text) as [|l ls IH]; cbn [flat_map]; [constructor|].
  apply Forall_app. split; [apply ledger_line_entry_clean | exact IH].
Qed.

Lemma splitlines_cons (c : ascii) (r : str) :
  splitlines (c :: r)
  = if is_linebreak c then
      match r with
      | c' :: r' =>
          if Ascii.eqb c "013" && Ascii.eqb c' "010"
          then [] :: splitlines r' else [] :: splitlines r
      | [] => [[]]
      end
    else match splitlines r with
         | [] => [[c]]
         | line :: lines => (c :: line) :: lines
         end.
Proof. destruct r; reflexivity. Qed.

(** A line feed put at the end adds at most one empty line. *)
Lemma splitlines_final_newline (n : nat) (t : str) :
  List.length t <= n ->
  splitlines (t ++ nl) = splitlines t \/ splitlines (t ++ nl) = splitlines t ++ [[]].
Proof.
  revert t. induction n as [|n IH]; intros t Hn.
  - destruct t; [|cbn in Hn; lia]. now right.
  - destruct t as [|c r]; [now right|]. cbn [List.length] in Hn.
    change ((c :: r) ++ nl) with (c :: (r ++ nl)). rewrite !splitlines_cons.
    destruct (is_linebreak c) eqn:Ec.
    + destruct r as [|c' r'].
      * cbn [app nl]. unfold nl.
        destruct (Ascii.eqb c "013" && Ascii.eqb "010" "010"); cbn; auto.
      * cbn [app]. cbn [List.length] in Hn.
        destruct (Ascii.eqb c "013" && Ascii.eqb c' "010").
        -- destruct (IH r' ltac:(lia)) as [E|E]; rewrite E; auto.
        -- change (c' :: r' ++ nl) with ((c' :: r') ++ nl).
           destruct (IH (c' :: r') ltac:(cbn; lia)) as [E|E]; rewrite E; auto.
    + destruct (IH r ltac:(lia)) as [E|E]; rewrite E.
      * now left.
      * destruct (splitlines r); [now left | now right].
Qed.

(** X16: a line feed more at the end of the ledger, or the lack of the last
    one, does not change what is parsed. *)
Theorem parse_sha256sum_final_newline (text : str) :
  parse_sha256sum (text ++ nl) = parse_sha256sum text.
Proof.
  rewrite !parse_sha256sum_total. f_equal.
  destruct (@splitlines_final_newline (List.length text) text (le_n _)) as [E|E];
    rewrite E; [reflexivity|].
  rewrite flat_map_app. cbn [flat_map]. now rewrite !app_nil_r.
Qed.

(** ** The runtime whose documents can be read back *)

Lemma json_induction (P : json -> Prop) :
  (forall s, P (JStr s)) -> (forall b, P (JBool b)) ->
  (forall l, Forall P l -> P (JList l)) ->
  (forall d, Forall (fun kv => P (snd kv)) d -> P (JDict d)) ->
  forall v, P v.
Proof.
  intros Hs Hb Hl Hd. fix IH 1. intros [s|b|l|d].
  - apply Hs.
  - apply Hb.
  - apply Hl. induction l as [|x l IHl]; constructor; [apply IH | exact IHl].
  - apply Hd. induction d as [|[k x] d IHd]; constructor; [apply IH | exact IHd].
Qed.

Lemma to_json_of_json (v : json) : to_json (of_json v) = v.
Proof.
  induction v as [s|b|l IH|d IH] using json_induction; cbn [of_json to_json];
    try reflexivity.
  - f_equal. rewrite map_map. induction IH as [|x l Hx _ IHl]; [reflexivity|].
    cbn [map]. now rewrite Hx, IHl.
  - f_equal. rewrite map_map. induction IH as [|[k x] d Hx _ IHd]; [reflexivity|].
    cbn [map snd] in *. now rewrite Hx, IHd.
Qed.

Lemma read_count_tagged (n : nat) (t : str) :
  read_count (repeat "x" n ++ ":" :: t) = (n, ":" :: t).
Proof.
  induction n as [|n IH]; [reflexivity|]. cbn [repeat app read_count].
  replace (Ascii.eqb "x" "x") with true by reflexivity. now rewrite IH.
Qed.

Lemma read_str_tagged (s rest : str) :
  read_str (tagged_str s ++ rest) = Some (s, rest).
Proof.
  unfold read_str, tagged_str. rewrite <- app_assoc. cbn [app].
  rewrite read_count_tagged.
  replace (Ascii.eqb ":" ":") with true by reflexivity.
  rewrite length_app.
  replace (Nat.leb (List.length s) (List.length s + List.length rest)) with true
    by (symmetry; apply Nat.leb_le; lia).
  cbn [andb]. rewrite firstn_app, firstn_all, Nat.sub_diag. cbn [firstn].
  rewrite app_nil_r, skipn_app, skipn_all, Nat.sub_diag. reflexivity.
Qed.

Lemma tagged_head (v : json) :
  exists c r, tagged v = c :: r /\ Ascii.eqb c "]" = false.
Proof.
  destruct v as [s|[|]|l|d]; cbn [tagged]; do 2 eexists; split; reflexivity.
Qed.

Lemma tagged_str_head (k rest : str) :
  exists c r, tagged_str k ++ rest = c :: r /\ Ascii.eqb c "}" = false.
Proof.
  unfold tagged_str. destruct k as [|a k]; cbn [List.length repeat app];
    do 2 eexists; split; reflexivity.
Qed.

Lemma read_items_cons (fuel : nat) (c : ascii) (r : str) :
  read_items (S fuel) (c :: r)
  = if Ascii.eqb c "]" then Some ([], r)
    else match read_value fuel (c :: r) with
         | Some (v, r1) =>
             match read_items fuel r1 with
             | Some (l, r2) => Some (v :: l, r2)
             | None => None
             end
         | None => None
         end.
Proof. reflexivity. Qed.

Lemma read_fields_cons (fuel : nat) (c : ascii) (r : str) :
  read_fields (S fuel) (c :: r)
  = if Ascii.eqb c "}" then Some ([], r)
    else match read_str (c :: r) with
         | Some (k, r1) =>
             match read_value fuel r1 with
             | Some (v, r2) =>
                 match read_fields fuel r2 with
                 | Some (d, r3) => Some ((k, v) :: d, r3)
                 | None => None
                 end
             | None => None
             end
         | None => None
         end.
Proof. reflexivity. Qed.

Lemma read_value_cons (fuel : nat) (c : ascii) (r : str) :
  read_value (S fuel) (c :: r)
  = if Ascii.eqb c "s" then
      match read_str r with
      | Some (s, r') => Some (VStr s, r')
      | None => None
      end
    else if Ascii.eqb c "t" then Some (VBool true, r)
    else if Ascii.eqb c "f" then Some (VBool false, r)
    else if Ascii.eqb c "[" then
      match read_items fuel r with
      | Some (l, r') => Some (VList l, r')
      | None => None
      end
    else if Ascii.eqb c "{" then
      match read_fields fuel r with
      | Some (d, r') => Some (VDict d, r')
      | None => None
      end
    else None.
Proof. reflexivity. Qed.

Lemma tagged_length (v : json) : 1 <= List.length (tagged v).
Proof. destruct (tagged_head v) as (c & r & -> & _). cbn. lia. Qed.

(** What was printed is read back, with fuel for its length. *)
Lemma read_value_tagged (v : json) :
  forall fuel rest, List.length (tagged v) <= fuel ->
    read_value fuel (tagged v ++ rest) = Some (of_json v, rest).
Proof.
  induction v as [s|b|l IH|d IH] using json_induction; intros fuel rest Hf.
  - destruct fuel as [|fuel]; [cbn in Hf; lia|].
    cbn [tagged app]. rewrite read_value_cons.
    replace (Ascii.eqb "s" "s") with true by reflexivity.
    now rewrite read_str_tagged.
  - destruct fuel as [|fuel]; [destruct b; cbn in Hf; lia|].
    destruct b; reflexivity.
  - destruct fuel as [|fuel]; [cbn in Hf; lia|].
    cbn [tagged app of_json]. rewrite read_value_cons.
    replace (Ascii.eqb "[" "s") with false by reflexivity.
    replace (Ascii.eqb "[" "t") with false by reflexivity.
    replace (Ascii.eqb "[" "f") with false by reflexivity.
    replace (Ascii.eqb "[" "[") with true by reflexivity.
    cbn [tagged List.length] in Hf. rewrite length_app in Hf. cbn [List.length] in Hf.
    assert (Q : forall f, 1 + List.length (flat_map tagged l) <= f ->
              read_items f (flat_map tagged l ++ "]" :: rest)
              = Some (map of_json l, rest)).
    { clear Hf fuel. induction IH as [|x l Hx _ IHl]; intros f Hf.
      - destruct f as [|f]; [lia|]. reflexivity.
      - cbn [flat_map] in *. rewrite length_app in Hf.
        pose proof (tagged_length x) as Lx.
        destruct f as [|f]; [lia|].
        destruct (tagged_head x) as (c & r & Ex & Hc).
        rewrite <- app_assoc.
        assert (Et : tagged x ++ flat_map tagged l ++ "]" :: rest
                     = c :: (r ++ flat_map tagged l ++ "]" :: rest))
          by (rewrite Ex; reflexivity).
        rewrite Et, read_items_cons, Hc, <- Et.
        rewrite Hx by lia. rewrite IHl by lia. reflexivity. }
    rewrite <- app_assoc. cbn [app]. rewrite Q by lia. reflexivity.
  - destruct fuel as [|fuel]; [cbn in Hf; lia|].
    cbn [tagged app of_json]. rewrite read_value_cons.
    replace (Ascii.eqb "{" "s") with false by reflexivity.
    replace (Ascii.eqb "{" "t") with false by reflexivity.
    replace (Ascii.eqb "{" "f") with false by reflexivity.
    replace (Ascii.eqb "{" "[") with false by reflexivity.
    replace (Ascii.eqb "{" "{") with true by reflexivity.
    cbn [tagged List.length] in Hf. rewrite length_app in Hf. cbn [List.length] in Hf.
    set (g := fun kv : list ascii * json => let (k, x) := kv in tagged_str k ++ tagged x) in *.
    set (h := fun kv : list ascii * json => let (k, x) := kv in (k, of_json x)).
    assert (Q : forall f, 1 + List.length (flat_map g d) <= f ->
              read_fields f (flat_map g d ++ "}" :: rest)
              = Some (map h d, rest)).
    { clear Hf fuel. induction IH as [|[k x] d Hx _ IHd]; intros f Hf.
      - destruct f as [|f]; [lia|]. reflexivity.
      - cbn [flat_map snd] in *. rewrite length_app in Hf.
        unfold g at 1 in Hf. rewrite length_app in Hf.
        pose proof (tagged_length x) as Lx.
        destruct f as [|f]; [lia|].
        unfold g at 1. rewrite <- !app_assoc.
        destruct (tagged_str_head k (tagged x ++ flat_map g d ++ "}" :: rest))
          as (c & r & Et & Hc).
        rewrite Et, read_fields_cons, Hc, <- Et, read_str_tagged.
        rewrite Hx by lia. rewrite IHd by lia. reflexivity. }
    rewrite <- app_assoc. cbn [app]. rewrite Q by lia. reflexivity.
Qed.


Lemma sample_reader_laws : ReaderLaws sample_json_runtime sample_reader.
Proof.
  split.
  - intros s. cbn. now rewrite sample_decode_encode.
  - intros v. cbn. unfold sample_loads.
    pose proof (@read_value_tagged v (S (List.length (tagged v))) []
                  (Nat.le_succ_diag_r _)) as R.
    rewrite app_nil_r in R. now rewrite R.
  - intros v. cbn. now rewrite to_json_of_json.
Qed.

(** ** The reader on an archive of the converter *)

Section ReaderOnConverted.
Context {rt : Runtime} {laws : RuntimeLaws rt}.
Context {rd : ReaderRuntime} {rlaws : ReaderLaws rt rd}.


Lemma manifest_member fs opts now zf :
  wf_fs fs -> convert_aifm fs opts now = Ok zf ->
  zf_read zf (lit "metadata/manifest.json")
  = Ok (utf8_encode (json_dumps (JDict (build_manifest opts now)))).
Proof.
  intros Hwf H.
  destruct (@archive_contents _ fs opts now zf Hwf H)
    as (ext & cs & payload & optional & _ & _ & _ & L & _ & _).
  apply (zf_read_member zf
           (member_info (lit "metadata/manifest.json"),
            utf8_encode (json_dumps (JDict (build_manifest opts now))))
           (@namelist_NoDup _ fs opts now zf Hwf H)).
  rewrite L. apply in_or_app. right. now left.
Qed.

Lemma read_manifest_of fs opts now zf :
  wf_fs fs -> convert_aifm fs opts now = Ok zf ->
  read_manifest zf = Ok (of_json (JDict (build_manifest opts now))).
Proof.
  intros Hwf H. unfold read_manifest.
  rewrite (manifest_member _ _ Hwf H). cbn [bind].
  rewrite utf8_decode_encode. cbn [bind]. apply loads_dumps.
Qed.

(** X17: the reader loads from a converted archive the manifest the
    converter built. *)
Theorem read_manifest_converted fs opts now zf :
  wf_fs fs -> convert_aifm fs opts now = Ok zf ->
  read_manifest zf = Ok (of_json (JDict (build_manifest opts now))).
Proof. apply read_manifest_of. Qed.






End ReaderOnConverted.

(** ** What the exit code of the reader says *)


Section ExitCodes.
Context {rt : Runtime} {rd : ReaderRuntime}.


(** The loop of verification raises what [zf.read] raised for a listed
    path. *)
Lemma verify_entries_raise (zf : Archive) entries errors (e : exn) :
  for_each (verify_entry zf) entries errors = Raise e ->
  exists expected path d,
    In (expected, path) entries
    /\ zf_read zf path = Raise (damage_exn d) /\ e = damage_exn d.
Proof.
  revert errors. induction entries as [|[expected path] entries IH];
    intros errors; cbn [for_each]; [discriminate|].
  destruct (verify_entry_cases zf errors expected path)
    as [(c & _ & _ & ->)|[(d & R & _ & ->)|(_ & ->)]]; cbn [bind].
  - intros H. destruct (IH _ H) as (x & y & d & Hin & Hr).
    exists x, y, d. split; [now right | exact Hr].
  - intros [= <-]. exists expected, path, d. split; [now left | now split].
  - intros H. destruct (IH _ H) as (x & y & d & Hin & Hr).
    exists x, y, d. split; [now right | exact Hr].
Qed.





Section Decoders.
Hypothesis decode_errors : forall b msg, utf8_decode b <> Raise (BadZipFile msg).
Hypothesis loads_errors : forall t msg, json_loads t <> Raise (BadZipFile msg).




End Decoders.
End ExitCodes.

Lemma read_manifest_converted_witness :
  exists zf,
    @convert_aifm sample_json_runtime sample_fs
      (sample_opts_urls [lit "m"; lit "song.wav"] [lit "m"; lit "out"]) sample_now
    = Ok zf
    /\ @read_manifest sample_reader zf
       = Ok (of_json (JDict (build_manifest
                (sample_opts_urls [lit "m"; lit "song.wav"] [lit "m"; lit "out"])
                sample_now))).
Proof.
  destruct (@convert_aifm sample_json_runtime sample_fs
              (sample_opts_urls [lit "m"; lit "song.wav"] [lit "m"; lit "out"])
              sample_now) as [zf|e] eqn:E;
    [|vm_compute in E; discriminate].
  exists zf. split; [reflexivity|].
  exact (@read_manifest_converted sample_json_runtime sample_reader
           sample_reader_laws sample_fs _ _ zf sample_fs_wf E).
Defined.




(** ** The time stamp *)

Lemma decimal_rev_digits (fuel : nat) (n : N) :
  forallb is_digit (decimal_rev fuel n) = true.
Proof.
  revert n. induction fuel as [|fuel IH]; intros n; [reflexivity|].
  cbn [decimal_rev].
  assert (D : forall m, (m < 10)%N -> is_digit (ascii_of_N (48 + m)) = true).
  { intros m Hm. unfold is_digit, code, between.
    rewrite N_ascii_embedding by lia.
    apply andb_true_iff. split; apply N.leb_le; lia. }
  destruct (N.ltb n 10) eqn:E.
  - apply N.ltb_lt in E. cbn [forallb]. now rewrite D.
  - cbn [forallb]. rewrite D, IH; [reflexivity|].
    apply N.mod_lt. discriminate.
Qed.

Lemma format_d_digits (width : nat) (n : N) :
  forallb is_digit (format_d width n) = true.
Proof.
  unfold format_d, decimal. rewrite forallb_app, forallb_rev, decimal_rev_digits.
  rewrite andb_true_r. induction (width - _) as [|k IH]; [reflexivity|].
  cbn [repeat forallb]. now rewrite IH.
Qed.

(** A number below [10^k] has at most [k] digits. *)
Lemma decimal_rev_length (k fuel : nat) (n : N) :
  (n < 10 ^ N.of_nat (S k))%N -> List.length (decimal_rev fuel n) <= S k.
Proof.
  revert k n. induction fuel as [|fuel IH]; intros k n Hn; [cbn; lia|].
  cbn [decimal_rev]. destruct (N.ltb n 10) eqn:E; [cbn; lia|].
  apply N.ltb_ge in E. cbn [List.length].
  destruct k as [|k]; [cbn in Hn; lia|].
  apply le_n_S, IH.
  replace (N.of_nat (S (S k))) with (N.succ (N.of_nat (S k))) in Hn by lia.
  rewrite N.pow_succ_r' in Hn.
  apply N.Div0.div_lt_upper_bound. exact Hn.
Qed.

Lemma decimal_rev_nonempty (fuel : nat) (n : N) :
  1 <= List.length (decimal_rev (S fuel) n).
Proof. cbn [decimal_rev]. destruct (N.ltb n 10); cbn; lia. Qed.

Lemma format_d_length (k : nat) (n : N) :
  (n < 10 ^ N.of_nat (S k))%N -> List.length (format_d (S k) n) = S k.
Proof.
  intros Hn. unfold format_d, decimal. rewrite length_app, repeat_length, length_rev.
  pose proof (decimal_rev_length (S (N.size_nat n)) Hn). lia.
Qed.

Lemma replace_from_keep (old new : str) (h : ascii) (o : str) (d tail : str) :
  old = h :: o -> ~ In h d ->
  replace_from old new 0 (d ++ tail) = d ++ replace_from old new 0 tail.
Proof.
  intros -> Hd. induction d as [|c d IH]; [reflexivity|].
  cbn [app replace_from startswith].
  assert (E : Ascii.eqb h c = false).
  { apply Ascii.eqb_neq. intros ->. apply Hd. now left. }
  rewrite E. cbn [andb]. f_equal. apply IH. intros H. apply Hd. now right.
Qed.

Lemma digit_not_plus (s : str) : forallb is_digit s = true -> ~ In "+" s.
Proof.
  intros H Hin. rewrite forallb_forall in H. specialize (H _ Hin). discriminate H.
Qed.

Lemma utc_now_iso_format_of (clock : datetime) :
  valid_datetime clock ->
  utc_now_iso clock
  = format_d 4 (year clock) ++ lit "-" ++ format_d 2 (month clock) ++ lit "-"
    ++ format_d 2 (day clock) ++ lit "T"
    ++ format_d 2 (hour clock) ++ lit ":" ++ format_d 2 (minute clock) ++ lit ":"
    ++ format_d 2 (second clock) ++ lit "Z"
  /\ List.length (utc_now_iso clock) = 20
  /\ forall us, utc_now_iso (replace_microsecond clock us) = utc_now_iso clock.
Proof.
  intros (Hy & Hmo & Hd & Hh & Hmi & Hs & _).
  assert (E : utc_now_iso clock
              = format_d 4 (year clock) ++ lit "-" ++ format_d 2 (month clock)
                ++ lit "-" ++ format_d 2 (day clock) ++ lit "T"
                ++ format_d 2 (hour clock) ++ lit ":" ++ format_d 2 (minute clock)
                ++ lit ":" ++ format_d 2 (second clock) ++ lit "Z").
  { unfold utc_now_iso, str_replace, isoformat, replace_microsecond.
    cbn [year month day hour minute second microsecond N.eqb app].
    set (D := format_d 4 (year clock) ++ lit "-" ++ format_d 2 (month clock)
              ++ lit "-" ++ format_d 2 (day clock) ++ lit "T"
              ++ format_d 2 (hour clock) ++ lit ":" ++ format_d 2 (minute clock)
              ++ lit ":" ++ format_d 2 (second clock)).
    replace (format_d 4 (year clock) ++ lit "-" ++ format_d 2 (month clock)
             ++ lit "-" ++ format_d 2 (day clock) ++ lit "T"
             ++ format_d 2 (hour clock) ++ lit ":" ++ format_d 2 (minute clock)
             ++ lit ":" ++ format_d 2 (second clock) ++ lit "+00:00")
      with (D ++ lit "+00:00") by (subst D; now rewrite <- !app_assoc).
    replace (format_d 4 (year clock) ++ lit "-" ++ format_d 2 (month clock)
             ++ lit "-" ++ format_d 2 (day clock) ++ lit "T"
             ++ format_d 2 (hour clock) ++ lit ":" ++ format_d 2 (minute clock)
             ++ lit ":" ++ format_d 2 (second clock) ++ lit "Z")
      with (D ++ lit "Z") by (subst D; now rewrite <- !app_assoc).
    rewrite (@replace_from_keep (lit "+00:00") (lit "Z") "+" (lit "00:00") D
               (lit "+00:00") eq_refl); [reflexivity|].
    subst D. intros Hin.
    repeat (apply in_app_or in Hin; destruct Hin as [Hin|Hin];
            [first [ now apply digit_not_plus in Hin; [|apply format_d_digits]
                   | cbn in Hin; intuition discriminate ]|]).
    now apply digit_not_plus in Hin; [|apply format_d_digits]. }
  split; [exact E|]. split.
  - rewrite E, !length_app.
    rewrite (@format_d_length 3) by (cbn; lia).
    rewrite !(@format_d_length 1) by (cbn; lia). reflexivity.
  - intros us. reflexivity.
Qed.

(** X20: the time stamp has the form [YYYY-MM-DDTHH:MM:SSZ]: twenty
    characters, the fields in decimal with leading zeros, no fraction
    of a second (two readings of the clock within one second give the
    same stamp) and [Z] for the offset. *)
Theorem utc_now_iso_format (clock : datetime) :
  valid_datetime clock ->
  utc_now_iso clock
  = format_d 4 (year clock) ++ lit "-" ++ format_d 2 (month clock) ++ lit "-"
    ++ format_d 2 (day clock) ++ lit "T"
    ++ format_d 2 (hour clock) ++ lit ":" ++ format_d 2 (minute clock) ++ lit ":"
    ++ format_d 2 (second clock) ++ lit "Z"
  /\ List.length (utc_now_iso clock) = 20
  /\ forall us, utc_now_iso (replace_microsecond clock us) = utc_now_iso clock.
Proof. apply utc_now_iso_format_of. Qed.

Lemma utc_now_iso_format_witness :
  utc_now_iso sample_clock = lit "2026-01-02T03:04:05Z".
Proof.
  destruct (@utc_now_iso_format sample_clock) as (E & _).
  - unfold valid_datetime. cbn. lia.
  - rewrite E. reflexivity.
Defined.

(** ** Names that stay inside the archive *)

Lemma segments_join (comps : list str) :
  comps <> [] -> Forall proper_segment comps -> segments (join sep comps) = comps.
Proof.
  intros Hn Hp. unfold segments. apply (split_char_join "/"); [exact Hn|].
  now apply proper_no_sep.
Qed.

Lemma proper_main (ext : str) : plain ext = true -> proper_segment (lit "main." ++ ext).
Proof.
  intros Hp. apply plain_spec in Hp. destruct Hp as [Hs _].
  repeat split; try discriminate. intros H. cbn in H. intuition discriminate.
Qed.

Lemma proper_literal (s : str) :
  negb (str_eqb s []) && negb (str_eqb s dot) && negb (str_eqb s dotdot)
  && forallb (fun c => negb (Ascii.eqb c "/")) s = true ->
  proper_segment s.
Proof.
  intros H. repeat (apply andb_true_iff in H; destruct H as [H ?]).
  apply negb_true_iff, str_eqb_neq in H.
  repeat match goal with
         | X : negb (str_eqb _ _) = true |- _ => apply negb_true_iff, str_eqb_neq in X
         end.
  repeat split; auto. intros Hin.
  match goal with
  | X : forallb _ s = true |- _ => rewrite forallb_forall in X; specialize (X _ Hin)
  end. discriminate.
Qed.

Lemma Forall_skipn_proper (n : nat) (p : Path) :
  Forall proper_segment p -> Forall proper_segment (skipn n p).
Proof.
  intros H. rewrite <- (firstn_skipn n p) in H. apply Forall_app in H. tauto.
Qed.

Section SafeNames.
Context {rt : Runtime}.

(** X21: no member of a converted archive can be unpacked outside the
    directory it is unpacked in: every name is relative, and none of
    its segments is empty, [.] or [..]. *)
Theorem member_names_safe fs opts now zf :
  wf_fs fs -> convert_aifm fs opts now = Ok zf ->
  Forall safe_name (namelist zf).
Proof.
  intros Hwf H.
  destruct (@archive_contents _ fs opts now zf Hwf H)
    as (ext & _ & _ & _ & Hext & Ha0 & _).
  destruct (@archive_names _ fs opts now zf Hwf H)
    as (ext' & pn & Ha & -> & _ & -> & _).
  assert (Hp : plain ext' = true).
  { rewrite Ha0 in Ha. injection Ha as Ha. now subst. }
  assert (Hlit : forall s, In s [lit "payload"; lit "audio"; lit "stems"] ->
                           proper_segment s).
  { intros s [<-|[<-|[<-|[]]]]; now apply proper_literal. }
  apply Forall_app. split.
  - apply Forall_forall. intros n Hn. apply in_map_iff in Hn.
    destruct Hn as (e & <- & He). apply sorted_by_In in He.
    destruct He as [<-|He]; cbn [fst].
    + unfold safe_name.
      change (lit "payload/audio/main." ++ ext')
        with (join sep [lit "payload"; lit "audio"; lit "main." ++ ext']).
      assert (Hc : Forall proper_segment
                     [lit "payload"; lit "audio"; lit "main." ++ ext']).
      { constructor; [apply Hlit; cbn; tauto|].
        constructor; [apply Hlit; cbn; tauto|].
        constructor; [now apply proper_main | constructor]. }
      rewrite segments_join; [exact Hc | discriminate | exact Hc].
    + unfold stems_entries in He. destruct (stems_dir opts) as [root|]; [|destruct He].
      apply in_map_iff in He. destruct He as (f & <- & Hf). cbn [fst].
      apply iter_files_recursive_In in Hf. destruct Hf as (Hin & Hpre & _).
      destruct Hwf as [_ Hv]. rewrite Forall_forall in Hv.
      pose proof (valid_names_proper _ (Hv _ Hin)) as Hf.
      apply (Forall_skipn_proper (List.length root)) in Hf.
      destruct (is_strict_prefix_spec _ _ Hpre) as [_ Hne].
      unfold safe_name, stem_zip_path.
      set (rel := skipn (List.length root) f) in *.
      replace (lit "payload/stems/" ++ join sep rel)
        with (join sep (lit "payload" :: lit "stems" :: rel)).
      * rewrite segments_join; [|discriminate|];
          (constructor; [apply Hlit; cbn; tauto|]);
          (constructor; [apply Hlit; cbn; tauto|]); exact Hf.
      * destruct rel as [|r0 rel']; [contradiction|]. reflexivity.
  - assert (Hfixed : forall n,
              In n [lit "metadata/manifest.json"; lit "metadata/prompt/prompt.txt";
                    lit "metadata/prompt/negative_prompt.txt"; lit "metadata/lyrics.txt";
                    lit "metadata/persona.txt"; lit "metadata/declaration.txt";
                    lit "verification/checksums.sha256"; lit "README.txt"] ->
              safe_name n).
    { intros n Hn. cbn [In] in Hn.
      repeat (destruct Hn as [<-|Hn];
              [unfold safe_name; vm_compute; repeat constructor; try discriminate;
               intros X; cbn in X; intuition discriminate|]).
      destruct Hn. }
    apply Forall_forall. intros n Hn. apply Hfixed.
    destruct Hn as [<-|Hn]; [cbn; tauto|].
    apply in_app_or in Hn. destruct Hn as [Hn|Hn].
    + unfold optional_names in Hn.
      destruct (prompt_path opts), (negative_prompt_path opts), (lyrics_path opts),
        (persona_path opts), (declaration_path opts); cbn in Hn |- *; tauto.
    + cbn in Hn |- *. tauto.
Qed.
End SafeNames.

Lemma member_names_safe_witness :
  exists zf,
    @convert_aifm sample_runtime sample_fs
      (sample_opts_stems [lit "m"; lit "song.wav"] [lit "m"; lit "out"]
         [lit "m"; lit "stems"]) sample_now = Ok zf
    /\ Forall safe_name (namelist zf).
Proof.
  destruct (@convert_aifm sample_runtime sample_fs
              (sample_opts_stems [lit "m"; lit "song.wav"] [lit "m"; lit "out"]
                 [lit "m"; lit "stems"]) sample_now) as [zf|e] eqn:E;
    [|vm_compute in E; discriminate].
  exists zf. split; [reflexivity|].
  exact (@member_names_safe sample_runtime sample_fs _ _ zf sample_fs_wf E).
Defined.

(** ** A member that is gone, and a ledger that is gone *)

Lemma find_without (name n' : str) (l : list (ZipInfo * bytes)) :
  find (fun m => str_eqb (filename (fst m)) n')
    (filter (fun m => negb (str_eqb (filename (fst m)) name)) l)
  = if str_eqb n' name then None
    else find (fun m => str_eqb (filename (fst m)) n') l.
Proof.
  induction l as [|m l IH]; cbn [filter find]; [now destruct (str_eqb n' name)|].
  destruct (str_eqb (filename (fst m)) name) eqn:E1; cbn [negb find].
  - rewrite IH. destruct (str_eqb n' name) eqn:E2; [reflexivity|].
    destruct (str_eqb (filename (fst m)) n') eqn:E3; [|reflexivity].
    apply str_eqb_eq in E1, E3. rewrite <- E3, E1, str_eqb_refl in E2. discriminate.
  - destruct (str_eqb (filename (fst m)) n') eqn:E3.
    + destruct (str_eqb n' name) eqn:E2; [|reflexivity].
      apply str_eqb_eq in E2, E3. rewrite E3, E2, str_eqb_refl in E1. discriminate.
    + exact IH.
Qed.

Lemma zf_read_without (zf : ZipFile) (name n' : str) :
  zf_read (without_member zf name) n'
  = if str_eqb n' name then Raise (KeyError n') else zf_read zf n'.
Proof.
  rewrite !zf_read_reopen. unfold without_member. cbn [filelist].
  rewrite <- filter_rev, find_without.
  destruct (str_eqb n' name); reflexivity.
Qed.

Section Missing.
Context {rt : Runtime} {laws : RuntimeLaws rt}.

(** X9: a payload member that is gone is found: in an archive whose ledger
    is the ledger of its payload, taking one payload member away makes
    verification report exactly that member as missing. *)
Theorem missing_payload_detected (zf : ZipFile) (m : ZipInfo * bytes) :
  zf_read zf (lit "verification/checksums.sha256")
  = Ok (utf8_encode (ledger_of zf)) ->
  NoDup (namelist zf) ->
  Forall (fun n => startswith (lit "payload/") n = true -> path_ok n = true)
    (namelist zf) ->
  In m (filelist zf) -> is_payload m = true ->
  verify_payload_checksums (without_member zf (filename (fst m)))
  = Ok [missing_message (filename (fst m))].
Proof.
  intros Hl Hnd Hok Hin Hp.
  assert (Hnl : str_eqb (lit "verification/checksums.sha256") (filename (fst m)) = false).
  { apply str_eqb_neq. intros E. unfold is_payload in Hp. rewrite <- E in Hp.
    discriminate Hp. }
  unfold verify_payload_checksums. rewrite zf_read_without, Hnl, Hl. cbn [bind].
  rewrite decode_encode, (@parse_ledger_of _ laws zf Hok). cbn [bind].
  rewrite verify_entries_spec. cbn [app]. f_equal. rewrite flat_map_concat_map, map_map,
    <- flat_map_concat_map.
  assert (Hnd' : NoDup (filter is_payload (filelist zf))).
  { apply NoDup_filter. rewrite namelist_reopen in Hnd. now apply NoDup_map_inv in Hnd. }
  rewrite (@flat_map_single _ _ _ _ m Hnd').
  - unfold discrepancy. now rewrite zf_read_without, str_eqb_refl.
  - apply filter_In. now split.
  - intros y Hy Hym. apply filter_In in Hy. destruct Hy as [Hy _].
    unfold discrepancy. rewrite zf_read_without.
    assert (En : str_eqb (filename (fst y)) (filename (fst m)) = false).
    { apply str_eqb_neq. intros E. apply Hym. rewrite namelist_reopen in Hnd.
      now apply (NoDup_map_eq (fun m => filename (fst m)) (filelist zf)). }
    rewrite En, (zf_read_member zf y Hnd Hy). now rewrite str_eqb_refl.
Qed.

Lemma verify_entries_returns (zf : Archive) entries errors :
  (exists result, for_each (verify_entry zf) entries errors = Ok result)
  <-> (forall expected path, In (expected, path) entries ->
         forall d, zf_read zf path <> Raise (damage_exn d)).
Proof.
  revert errors. induction entries as [|[expected path] entries IH];
    intros errors; cbn [for_each].
  - split; [intros _ ? ? [] | eauto].
  - destruct (verify_entry_cases zf errors expected path)
      as [(c & R & _ & ->)|[(d & R & _ & ->)|(N & ->)]]; cbn [bind].
    + rewrite IH. split; intros H x y Hin.
      * destruct Hin as [[= <- <-]|Hin]; [rewrite R; discriminate | eauto].
      * apply (H x). now right.
    + split; [intros [r Hr]; discriminate Hr|]. intros H. exfalso.
      apply (H expected path (or_introl eq_refl) d R).
    + rewrite IH. split; intros H x y Hin.
      * destruct Hin as [[= <- <-]|Hin]; [|eauto].
        intros d R. rewrite (@zf_read_lacking zf _ N) in R. symmetry in R.
        injection R as R. now apply damage_not_key_error in R.
      * apply (H x). now right.
Qed.

(** X10: when verification raises.  Without a ledger it raises [KeyError]
    for the name of the ledger; with a ledger that does not read back it
    raises what [zf.read] raises for it; with a ledger that reads back it
    returns a list exactly when no listed member of the archive is
    damaged, and otherwise raises the exception of a listed member that
    does not read back.  A listed member that is missing never makes it
    raise. *)
Theorem verify_payload_checksums_raises (zf : Archive) :
  (~ In (lit "verification/checksums.sha256") (namelist zf) ->
   verify_payload_checksums zf
   = Raise (KeyError (lit "verification/checksums.sha256")))
  /\ (forall d,
        zf_read zf (lit "verification/checksums.sha256") = Raise (damage_exn d) ->
        verify_payload_checksums zf = Raise (damage_exn d))
  /\ (forall data,
        zf_read zf (lit "verification/checksums.sha256") = Ok data ->
        exists entries,
          parse_sha256sum (utf8_decode_replace data) = Ok entries
          /\ ((exists errors, verify_payload_checksums zf = Ok errors) <->
              (forall expected path, In (expected, path) entries ->
                 forall d, zf_read zf path <> Raise (damage_exn d)))
          /\ (forall e, verify_payload_checksums zf = Raise e ->
                exists expected path d,
                  In (expected, path) entries
                  /\ zf_read zf path = Raise (damage_exn d)
                  /\ e = damage_exn d)).
Proof.
  unfold verify_payload_checksums. split; [|split].
  - intros N. now rewrite (@zf_read_lacking zf _ N).
  - intros d R. now rewrite R.
  - intros data R. rewrite R. cbn [bind]. rewrite parse_sha256sum_total. cbn [bind].
    eexists. split; [reflexivity|]. split.
    + apply verify_entries_returns.
    + intros e. apply verify_entries_raise.
Qed.
End Missing.

Lemma missing_payload_detected_witness :
  exists zf,
    @convert_aifm sample_runtime sample_fs
      (sample_opts_stems [lit "m"; lit "song.wav"] [lit "m"; lit "out"]
         [lit "m"; lit "stems"]) sample_now = Ok zf
    /\ @verify_payload_checksums sample_runtime
         (without_member zf (lit "payload/stems/drums.wav"))
       = Ok [missing_message (lit "payload/stems/drums.wav")].
Proof.
  destruct (@convert_aifm sample_runtime sample_fs
              (sample_opts_stems [lit "m"; lit "song.wav"] [lit "m"; lit "out"]
                 [lit "m"; lit "stems"]) sample_now) as [zf|e] eqn:E;
    [|vm_compute in E; discriminate].
  exists zf. split; [reflexivity|].
  vm_compute in E. injection E as <-.
  apply (@missing_payload_detected sample_runtime sample_laws _
           (member_info (lit "payload/stems/drums.wav"), ascii_bytes "dd")).
  - vm_compute. reflexivity.
  - cbn. repeat constructor; cbn; intuition discriminate.
  - repeat constructor; vm_compute; intros; first [discriminate | reflexivity].
  - cbn. tauto.
  - reflexivity.
Defined.

(** ** The archive path of the audio *)

Lemma rfind_split (c : ascii) (s : str) (i : nat) :
  rfind c s = Some i ->
  exists a b, s = a ++ c :: b /\ List.length a = i /\ ~ In c b.
Proof.
  revert i. induction s as [|x s IH]; intros i; cbn [rfind]; [discriminate|].
  destruct (rfind c s) as [j|] eqn:E.
  - intros [= <-]. destruct (IH j eq_refl) as (a & b & -> & La & Hb).
    exists (x :: a), b. cbn. auto.
  - destruct (Ascii.eqb x c) eqn:Ex; [|discriminate]. intros [= <-].
    apply Ascii.eqb_eq in Ex. subst x. exists [], s. repeat split.
    clear IH. induction s as [|y s IHs]; [intros []|].
    cbn [rfind] in E. destruct (rfind c s) as [j|]; [discriminate|].
    destruct (Ascii.eqb y c) eqn:Ey; [discriminate|].
    apply Ascii.eqb_neq in Ey. intros [->|H]; [contradiction|]. now apply IHs.
Qed.

(** A suffix is a dot followed by at least one character, none a dot. *)
Lemma name_suffix_shape (name : str) :
  name_suffix name = []
  \/ exists b, name_suffix name = "." :: b /\ b <> [] /\ ~ In "." b.
Proof.
  unfold name_suffix. destruct (rfind "." name) as [i|] eqn:E; [|now left].
  destruct (Nat.ltb 0 i && Nat.ltb i (List.length name - 1)) eqn:C; [|now left].
  right. apply andb_true_iff in C. destruct C as [_ C]. apply Nat.ltb_lt in C.
  destruct (rfind_split _ _ E) as (a & b & -> & La & Hb).
  exists b. rewrite <- La, skipn_app, skipn_all, Nat.sub_diag. cbn [app skipn].
  split; [reflexivity|]. split; [|exact Hb].
  intros ->. rewrite length_app in C. cbn in C. lia.
Qed.

Lemma char_lower_dot (c : ascii) : char_lower c = "." -> c = ".".
Proof.
  destruct c as [[] [] [] [] [] [] [] []]; vm_compute; intros H;
    first [reflexivity | discriminate H].
Qed.

Lemma lstrip_dot_lower (b : str) :
  b <> [] -> ~ In "." b -> lstrip_chars dot ("." :: lower b) = lower b /\ lower b <> [].
Proof.
  intros Hne Hb. destruct b as [|c b]; [contradiction|]. cbn [lower map]. split.
  - unfold lstrip_chars. cbn [lstrip_by existsb dot lit list_ascii_of_string].
    replace (Ascii.eqb "." ".") with true by reflexivity. cbn [orb].
    destruct (Ascii.eqb (char_lower c) ".") eqn:E; [|reflexivity].
    apply Ascii.eqb_eq, char_lower_dot in E. subst c. exfalso. apply Hb. now left.
  - discriminate.
Qed.

(** X22: the audio is stored as [payload/audio/main.<ext>], where [<ext>] is
    the suffix of the audio file without its dot and in lower case, and
    [wav] for a file name without a suffix. *)
Theorem audio_zip_path_formula (audio : Path) :
  forallb valid_name audio = true ->
  audio_zip_path_of audio
  = Ok (lit "payload/audio/main."
        ++ match path_suffix audio with
           | [] => lit "wav"
           | _ :: s => lower s
           end).
Proof.
  intros Hv. destruct (audio_zip_path_spec audio Hv) as (ext & Hext & E).
  rewrite E. f_equal. f_equal.
  assert (Eext : ext = or_default (lstrip_chars dot (lower (path_suffix audio)))
                         (lit "wav")).
  { unfold audio_zip_path_of in E.
    set (x := or_default _ _) in *.
    assert (Hx : plain x = true).
    { subst x. unfold or_default.
      destruct (lstrip_chars dot (lower (path_suffix audio))) eqn:El; [reflexivity|].
      rewrite <- El. apply plain_lstrip, plain_lower, plain_name_suffix.
      unfold path_name. destruct audio as [|n0 rest]; [reflexivity|].
      rewrite forallb_forall in Hv. apply valid_name_spec, Hv, In_last. discriminate. }
    rewrite normalize_zip_path_proper in E.
    - injection E as E. symmetry. exact E.
    - repeat constructor; try discriminate;
        try (intros H; cbn in H; intuition discriminate).
      apply plain_spec in Hx. destruct Hx as [Hs _].
      intros H. cbn in H. intuition discriminate. }
  rewrite Eext. unfold path_suffix.
  destruct (name_suffix_shape (path_name audio)) as [->|(b & -> & Hne & Hb)];
    [reflexivity|].
  cbn [lower map]. replace (char_lower ".") with "."%char by reflexivity.
  fold (lower b). destruct (lstrip_dot_lower Hne Hb) as [-> Hl].
  unfold or_default. destruct (lower b); [contradiction | reflexivity].
Qed.

Lemma audio_zip_path_formula_witness :
  audio_zip_path_of [lit "m"; lit "Take.2.MP3"] = Ok (lit "payload/audio/main.mp3")
  /\ audio_zip_path_of [lit "m"; lit "README"] = Ok (lit "payload/audio/main.wav").
Proof.
  split.
  - exact (@audio_zip_path_formula [lit "m"; lit "Take.2.MP3"] eq_refl).
  - exact (@audio_zip_path_formula [lit "m"; lit "README"] eq_refl).
Defined.

(** ** A part that starts with a slash *)

(** X23: a part that starts with a slash discards all the parts before
    it, as in [posixpath.join]: [normalize_zip_path] then gives what it
    gives for that part and the parts after it alone. *)
Theorem normalize_zip_path_absolute_part (a : str) (p1 : list str) (b : str)
  (p2 : list str) :
  startswith sep b = true ->
  normalize_zip_path (a :: p1 ++ b :: p2) = normalize_zip_path (b :: p2).
Proof.
  intros Hb. unfold normalize_zip_path, posix_join. do 3 f_equal.
  rewrite fold_left_app. cbn [fold_left]. unfold join_step at 2. now rewrite Hb.
Qed.

Lemma normalize_zip_path_absolute_part_witness :
  normalize_zip_path [lit "payload"; lit "stems"; lit "/etc/passwd"]
  = Ok (lit "etc/passwd").
Proof.
  exact (@normalize_zip_path_absolute_part (lit "payload") [lit "stems"]
           (lit "/etc/passwd") [] eq_refl).
Defined.

(** ** Time stamps in order *)

Lemma fixed_digits_zero (k : nat) : fixed_digits k 0 = repeat "0" k.
Proof.
  induction k as [|k IH]; [reflexivity|]. cbn [fixed_digits].
  change (0 / 10)%N with 0%N. rewrite IH. change (ascii_of_N (48 + 0 mod 10)) with "0".
  now rewrite <- repeat_cons.
Qed.

Lemma fixed_digits_length (k : nat) (n : N) : List.length (fixed_digits k n) = k.
Proof.
  revert n. induction k as [|k IH]; intros n; [reflexivity|]. cbn [fixed_digits].
  rewrite length_app, IH. cbn. lia.
Qed.

(** With fuel for its digits, a number printed in a field is the field
    of its digits. *)
Lemma decimal_rev_fixed (fuel k : nat) (n : N) :
  (n < 10 ^ N.of_nat fuel)%N -> (n < 10 ^ N.of_nat (S k))%N ->
  repeat "0" (S k - List.length (decimal_rev (S fuel) n))
  ++ rev (decimal_rev (S fuel) n)
  = fixed_digits (S k) n.
Proof.
  revert k n. induction fuel as [|fuel IH]; intros k n Hf Hk.
  - assert (n = 0%N) by (cbn in Hf; lia). subst n. cbn [decimal_rev].
    replace (N.ltb 0 10) with true by reflexivity. cbn [List.length rev app].
    rewrite fixed_digits_zero. replace (S k - 1) with k by lia.
    change ([ascii_of_N (48 + 0)]) with (repeat "0" 1).
    rewrite <- repeat_app. f_equal. lia.
  - cbn [decimal_rev]. destruct (N.ltb n 10) eqn:E.
    + apply N.ltb_lt in E. cbn [List.length rev app fixed_digits].
      replace (S k - 1) with k by lia.
      rewrite N.div_small, N.mod_small by exact E. now rewrite fixed_digits_zero.
    + apply N.ltb_ge in E.
      destruct k as [|k]; [cbn in Hk; lia|].
      assert (Hf' : (n / 10 < 10 ^ N.of_nat fuel)%N).
      { apply N.Div0.div_lt_upper_bound.
        replace (N.of_nat (S fuel)) with (N.succ (N.of_nat fuel)) in Hf by lia.
        now rewrite N.pow_succ_r' in Hf. }
      assert (Hk' : (n / 10 < 10 ^ N.of_nat (S k))%N).
      { apply N.Div0.div_lt_upper_bound.
        replace (N.of_nat (S (S k))) with (N.succ (N.of_nat (S k))) in Hk by lia.
        now rewrite N.pow_succ_r' in Hk. }
      specialize (IH k (n / 10)%N Hf' Hk').
      cbn [List.length rev]. cbn [fixed_digits] in *.
      rewrite app_assoc. f_equal.
      replace (S (S k) - S (List.length (decimal_rev (S fuel) (n / 10))))
        with (S k - List.length (decimal_rev (S fuel) (n / 10))) by lia.
      exact IH.
Qed.

Lemma size_nat_bound (p : positive) :
  (N.pos p < 10 ^ N.of_nat (Pos.size_nat p))%N.
Proof.
  induction p as [p IH|p IH|]; cbn [Pos.size_nat].
  - replace (N.of_nat (S (Pos.size_nat p))) with (N.succ (N.of_nat (Pos.size_nat p)))
      by lia.
    rewrite N.pow_succ_r'. lia.
  - replace (N.of_nat (S (Pos.size_nat p))) with (N.succ (N.of_nat (Pos.size_nat p)))
      by lia.
    rewrite N.pow_succ_r'. lia.
  - cbn. lia.
Qed.

Lemma format_d_fixed (k : nat) (n : N) :
  (n < 10 ^ N.of_nat (S k))%N -> format_d (S k) n = fixed_digits (S k) n.
Proof.
  intros Hk. unfold format_d, decimal. rewrite length_rev.
  apply decimal_rev_fixed; [|exact Hk].
  destruct n as [|p]; [cbn; lia|]. apply size_nat_bound.
Qed.

Lemma list_compare_app (A : Type) (cmp : A -> A -> comparison)
  (x y u v : list A) :
  List.length x = List.length y ->
  list_compare cmp (x ++ u) (y ++ v)
  = match list_compare cmp x y with
    | Eq => list_compare cmp u v
    | c => c
    end.
Proof.
  revert y. induction x as [|a x IH]; intros [|b y] H; try discriminate H.
  - reflexivity.
  - cbn [app list_compare]. injection H as H.
    destruct (cmp a b); [now apply IH | reflexivity | reflexivity].
Qed.

Lemma str_compare_same_head (s u v : str) :
  str_compare (s ++ u) (s ++ v) = str_compare u v.
Proof.
  unfold str_compare. rewrite list_compare_app by reflexivity.
  fold (str_compare s s). replace (str_compare s s) with Eq; [reflexivity|].
  symmetry. now apply str_compare_eq.
Qed.

Lemma digit_compare (x y : N) :
  (x < 10)%N -> (y < 10)%N ->
  Ascii.compare (ascii_of_N (48 + x)) (ascii_of_N (48 + y)) = N.compare x y.
Proof.
  intros Hx Hy. unfold Ascii.compare. rewrite !N_ascii_embedding by lia.
  destruct (N.compare_spec x y) as [E|E|E].
  - apply N.compare_eq_iff. lia.
  - apply N.compare_lt_iff. lia.
  - apply N.compare_gt_iff. lia.
Qed.

Lemma compare_div_mod (a b : N) :
  N.compare a b
  = match N.compare (a / 10) (b / 10) with
    | Eq => N.compare (a mod 10) (b mod 10)
    | c => c
    end.
Proof.
  pose proof (N.div_mod a 10 ltac:(discriminate)) as Ea.
  pose proof (N.div_mod b 10 ltac:(discriminate)) as Eb.
  pose proof (N.mod_lt a 10 ltac:(discriminate)) as La.
  pose proof (N.mod_lt b 10 ltac:(discriminate)) as Lb.
  generalize dependent (a / 10)%N. generalize dependent (b / 10)%N.
  generalize dependent (a mod 10)%N. generalize dependent (b mod 10)%N.
  intros rb Lb ra La qb Eb qa Ea.
  destruct (N.compare_spec qa qb) as [E|E|E].
  - destruct (N.compare_spec ra rb) as [F|F|F].
    + apply N.compare_eq_iff. lia.
    + apply N.compare_lt_iff. lia.
    + apply N.compare_gt_iff. lia.
  - apply N.compare_lt_iff. lia.
  - apply N.compare_gt_iff. lia.
Qed.

(** Fields of one width are in the order of their numbers. *)
Lemma fixed_digits_compare (k : nat) (a b : N) :
  str_compare (fixed_digits k a) (fixed_digits k b)
  = match k with
    | O => Eq
    | S _ => N.compare (a mod 10 ^ N.of_nat k) (b mod 10 ^ N.of_nat k)
    end.
Proof.
  revert a b. induction k as [|k IH]; intros a b; [reflexivity|].
  cbn [fixed_digits]. unfold str_compare.
  rewrite list_compare_app by now rewrite !fixed_digits_length.
  fold (str_compare (fixed_digits k (a / 10)) (fixed_digits k (b / 10))).
  rewrite IH. cbn [list_compare].
  rewrite digit_compare by (apply N.mod_lt; discriminate).
  replace (N.of_nat (S k)) with (N.succ (N.of_nat k)) by lia.
  rewrite N.pow_succ_r'.
  set (m := (10 ^ N.of_nat k)%N).
  assert (Hm : (0 < m)%N) by (subst m; apply N.neq_0_lt_0, N.pow_nonzero; discriminate).
  rewrite (compare_div_mod (a mod (10 * m)) (b mod (10 * m))).
  assert (D : forall x, ((x mod (10 * m)) / 10 = (x / 10) mod m)%N).
  { intros x. rewrite N.Div0.mod_mul_r. rewrite (N.mul_comm 10 ((x / 10) mod m)).
    rewrite N.div_add by discriminate.
    rewrite (N.div_small (x mod 10)) by (apply N.mod_lt; discriminate). lia. }
  assert (M : forall x, ((x mod (10 * m)) mod 10 = x mod 10)%N).
  { intros x. rewrite N.Div0.mod_mul_r. rewrite (N.mul_comm 10 ((x / 10) mod m)).
    rewrite N.Div0.mod_add. apply N.Div0.mod_mod. }
  rewrite !D, !M.
  destruct k as [|k].
  - subst m. cbn. rewrite !N.mod_1_r. cbn.
    destruct (N.compare (a mod 10) (b mod 10)); reflexivity.
  - destruct (N.compare ((a / 10) mod m) ((b / 10) mod m)); try reflexivity.
    destruct (N.compare (a mod 10) (b mod 10)); reflexivity.
Qed.

Lemma format_d_compare (k : nat) (a b : N) :
  (a < 10 ^ N.of_nat (S k))%N -> (b < 10 ^ N.of_nat (S k))%N ->
  str_compare (format_d (S k) a) (format_d (S k) b) = N.compare a b.
Proof.
  intros Ha Hb. rewrite !format_d_fixed by assumption.
  rewrite fixed_digits_compare. now rewrite !N.mod_small.
Qed.

Lemma str_compare_field (x y s u v : str) :
  List.length x = List.length y ->
  str_compare (x ++ s ++ u) (y ++ s ++ v)
  = match str_compare x y with
    | Eq => str_compare u v
    | c => c
    end.
Proof.
  intros L. unfold str_compare. rewrite list_compare_app by exact L.
  fold (str_compare (s ++ u) (s ++ v)). now rewrite str_compare_same_head.
Qed.

(** X24: time stamps sort as times: the order of two stamps as strings
    is the order in time, to the second, of the readings of the clock
    they were made from; so two stamps are equal exactly when the
    readings agree to the second. *)
Theorem utc_now_iso_order (a b : datetime) :
  valid_datetime a -> valid_datetime b ->
  str_compare (utc_now_iso a) (utc_now_iso b) = datetime_compare a b.
Proof.
  intros Ha Hb.
  destruct (utc_now_iso_format_of Ha) as [Ea _].
  destruct (utc_now_iso_format_of Hb) as [Eb _].
  rewrite Ea, Eb.
  destruct Ha as (Hy & Hmo & Hd & Hh & Hmi & Hs & _).
  destruct Hb as (Hy' & Hmo' & Hd' & Hh' & Hmi' & Hs' & _).
  unfold datetime_compare.
  rewrite str_compare_field
    by (rewrite !(@format_d_length 3) by (cbn; lia); reflexivity).
  rewrite (@format_d_compare 3) by (cbn; lia).
  destruct (N.compare (year a) (year b)); try reflexivity.
  rewrite str_compare_field
    by (rewrite !(@format_d_length 1) by (cbn; lia); reflexivity).
  rewrite (@format_d_compare 1) by (cbn; lia).
  destruct (N.compare (month a) (month b)); try reflexivity.
  rewrite str_compare_field
    by (rewrite !(@format_d_length 1) by (cbn; lia); reflexivity).
  rewrite (@format_d_compare 1) by (cbn; lia).
  destruct (N.compare (day a) (day b)); try reflexivity.
  rewrite str_compare_field
    by (rewrite !(@format_d_length 1) by (cbn; lia); reflexivity).
  rewrite (@format_d_compare 1) by (cbn; lia).
  destruct (N.compare (hour a) (hour b)); try reflexivity.
  rewrite str_compare_field
    by (rewrite !(@format_d_length 1) by (cbn; lia); reflexivity).
  rewrite (@format_d_compare 1) by (cbn; lia).
  destruct (N.compare (minute a) (minute b)); try reflexivity.
  rewrite <- (app_nil_r (lit "Z")) at 1 2.
  rewrite str_compare_field
    by (rewrite !(@format_d_length 1) by (cbn; lia); reflexivity).
  rewrite (@format_d_compare 1) by (cbn; lia).
  destruct (N.compare (second a) (second b)); reflexivity.
Qed.

Lemma utc_now_iso_order_witness :
  str_ltb (utc_now_iso sample_clock) (utc_now_iso sample_clock_later) = true.
Proof.
  unfold str_ltb.
  rewrite (@utc_now_iso_order sample_clock sample_clock_later);
    [reflexivity | unfold valid_datetime; cbn; lia ..].
Defined.

(** ** Writing a member and reading it back *)

Section WriteRead.
Context {rt : Runtime}.

(** X25: a member written is the member read back: after
    [zip_write_bytes] the archive gives the data written under the name
    written, which is the name given up to its first NUL, and gives
    under every other name what it gave before; when the name was there
    already, the new member is the one that is read.
    [zip_write_file] writes in the same way the bytes of the source. *)
Theorem zip_write_read (zf : ZipFile) (arcname : str) (data : bytes) :
  (forall n,
     zf_read (zip_write_bytes zf arcname data) n
     = if str_eqb (until_nul arcname) n then Ok data else zf_read zf n)
  /\ namelist (zip_write_bytes zf arcname data) = namelist zf ++ [until_nul arcname]
  /\ (forall fs src zf',
        zip_write_file fs zf arcname src = Ok zf' -> src <> zf_file zf ->
        exists content,
          read_bytes fs src = Ok content
          /\ zf' = zip_write_bytes zf arcname content).
Proof.
  split; [|split].
  - intros n. unfold zip_write_bytes. now rewrite zf_read_writestr.
  - rewrite !namelist_reopen. unfold zip_write_bytes, writestr. cbn [filelist].
    now rewrite map_app.
  - intros fs src zf' H Hne. apply zip_write_file_inv in H.
    destruct H as (content & Hr & ->). exists content. split; [|reflexivity].
    unfold read_source in Hr. apply path_eqb_neq in Hne. now rewrite Hne in Hr.
Qed.
End WriteRead.
